(** * Microsoft Style Guide analyzer: a shallow embedding of
      [src/style_analyzer.py] (class [WebEnabledStyleGuideAnalyzer]).

    Modelling conventions.
    - Text is a [string]: the UTF-8 encoding of the Python [str], as a
      list of bytes ([list ascii]).  [len], the offset of a match and a
      slice count code points ([Utf8]); [str.split] and [str.strip] of
      the statistics see the code points and Unicode's white space
      ([Uni]).  The patterns, [lower], and the tokens of the fetcher and
      of the search work on the bytes with the ASCII classes: there a
      byte above 127 is an ordinary symbol.
    - Regular expressions are a small syntax tree run by a backtracking
      matcher that tries alternatives in the order Python's [re] does.
    - Floats are binary64 ([PrimFloat]); [round(x, 1)] rounds the exact
      binary value, ties to even, as CPython does.
    - The analyzer object is a record; every [async] method is a
      computation in a state-and-exception monad over that record.  An
      exception is one that [except Exception] catches; the cancellation
      of a task is not modelled.  Calls run one after the other: the
      interleaving of concurrent coroutines is not modelled.
    - The network, the event-loop clock and the iteration order of a
      [set] of strings are the environment: Section variables.
    - The three patterns no method uses are left out.
    - Of [src/mcp_http_server.py] the MCP endpoint and its handlers are
      modelled; [json.dumps] is part of the environment. *)

From Stdlib Require Import String Ascii List ZArith Lia Bool.
From Stdlib Require Import Sorted Permutation DecimalString.
From Stdlib Require Floats.
Import (notations) Floats.PrimFloat.
From stdpp Require Import base gmap strings.
Import ListNotations.

Local Open Scope list_scope.

(** ** Characters and text primitives *)

Module Text.

Definition chars (s : string) : list ascii := list_ascii_of_string s.
Definition str (l : list ascii) : string := string_of_list_ascii l.

Definition code (c : ascii) : nat := nat_of_ascii c.

Definition between (lo hi n : nat) : bool := (lo <=? n) && (n <=? hi).

(** [str.isspace] on ASCII: TAB..CR, FS..US and the blank. *)
Definition is_space (c : ascii) : bool :=
  between 9 13 (code c) || between 28 32 (code c).

Definition is_upper (c : ascii) : bool := between 65 90 (code c).
Definition is_lower (c : ascii) : bool := between 97 122 (code c).
Definition is_digit (c : ascii) : bool := between 48 57 (code c).

(** The class [\w]. *)
Definition is_word (c : ascii) : bool :=
  is_upper c || is_lower c || is_digit c || (code c =? 95).

Definition lower_char (c : ascii) : ascii :=
  if is_upper c then ascii_of_nat (code c + 32) else c.

(** [s.lower()] *)
Definition lower (s : list ascii) : list ascii := map lower_char s.

Definition ascii_eqb (a b : ascii) : bool := Ascii.eqb a b.

(** [s.startswith(p)] *)
Fixpoint starts_with (p s : list ascii) : bool :=
  match p, s with
  | [], _ => true
  | _ :: _, [] => false
  | a :: p', b :: s' => ascii_eqb a b && starts_with p' s'
  end.

(** [p in s] for strings: [p] occurs as a contiguous substring. *)
Fixpoint contains (p s : list ascii) : bool :=
  starts_with p s ||
  match s with
  | [] => false
  | _ :: s' => contains p s'
  end.

(** [s.split()] with no argument: the maximal runs of non-space
    characters.  [cur] is the token being read, reversed. *)
Fixpoint split_ws (cur : list ascii) (s : list ascii) : list (list ascii) :=
  match s with
  | [] => match cur with [] => [] | _ => [rev cur] end
  | c :: s' =>
      if is_space c
      then match cur with
           | [] => split_ws [] s'
           | _ => rev cur :: split_ws [] s'
           end
      else split_ws (c :: cur) s'
  end.

Definition split (s : list ascii) : list (list ascii) := split_ws [] s.

Fixpoint lstrip (s : list ascii) : list ascii :=
  match s with
  | c :: s' => if is_space c then lstrip s' else s
  | [] => []
  end.

(** [s.strip()] *)
Definition strip (s : list ascii) : list ascii :=
  rev (lstrip (rev (lstrip s))).

(** [sep.join(parts)] *)
Fixpoint join (sep : list ascii) (parts : list (list ascii)) : list ascii :=
  match parts with
  | [] => []
  | [p] => p
  | p :: rest => p ++ sep ++ join sep rest
  end.

(** [str(n)] for a non-negative and for a signed integer. *)
Definition of_nat (n : nat) : string :=
  NilZero.string_of_uint (Nat.to_uint n).
Definition of_Z (z : Z) : string :=
  NilZero.string_of_int (Z.to_int z).

End Text.

(** ** Code points *)

(** A [str] is held as its UTF-8 encoding.  A code point is one byte
    that is not a continuation byte (10xxxxxx) followed by its
    continuation bytes. *)
Module Utf8.

Definition is_cont (b : ascii) : bool := Text.between 128 191 (Text.code b).
Definition is_ascii (b : ascii) : bool := Text.code b <? 128.

(** [len(s)] *)
Definition length (s : list ascii) : nat :=
  List.length (List.filter (fun b => negb (is_cont b)) s).

(** [s[:n]] *)
Fixpoint take (n : nat) (s : list ascii) : list ascii :=
  match s with
  | [] => []
  | b :: s' =>
      if is_cont b then b :: take n s'
      else match n with
           | O => []
           | S n' => b :: take n' s'
           end
  end.

(** [s[n:]] *)
Fixpoint drop (n : nat) (s : list ascii) : list ascii :=
  match s with
  | [] => []
  | b :: s' =>
      if is_cont b then drop n s'
      else match n with
           | O => s
           | S n' => drop n' s'
           end
  end.

(** The code points of [s].  [pending] continuation bytes of the code
    point being read are still to come, and [acc] holds its bits so
    far.  (Bytes that encode no string decode to some code points.) *)
Fixpoint decode_from (pending : nat) (acc : N) (s : list ascii) : list N :=
  match s with
  | [] => []
  | b :: s' =>
      let n := N.of_nat (Text.code b) in
      if is_cont b then
        let acc' := (acc * 64 + (n - 128))%N in
        match pending with
        | S (S p) => decode_from (S p) acc' s'
        | _ => acc' :: decode_from 0 0%N s'
        end
      else if (n <? 128)%N then n :: decode_from 0 0%N s'
      else if (n <? 224)%N then decode_from 1 (n - 192)%N s'
      else if (n <? 240)%N then decode_from 2 (n - 224)%N s'
      else decode_from 3 (n - 240)%N s'
  end.

Definition decode (s : list ascii) : list N := decode_from 0 0%N s.

(** No continuation byte stands right after an ASCII byte: true of
    every encoding of a string. *)
Fixpoint aligned_from (after_ascii : bool) (s : list ascii) : bool :=
  match s with
  | [] => true
  | b :: s' =>
      negb (after_ascii && is_cont b) && aligned_from (is_ascii b) s'
  end.

Definition aligned (s : list ascii) : bool := aligned_from false s.

(** [s] is empty or starts with the first byte of a code point. *)
Definition starts (s : list ascii) : bool :=
  match s with
  | b :: _ => negb (is_cont b)
  | [] => true
  end.

End Utf8.

(** ** Strings of code points: [str.split] and [str.strip] *)

Module Uni.

Definition within (lo hi c : N) : bool := ((lo <=? c) && (c <=? hi))%N.

(** [str.isspace] of a character: the white space of Unicode. *)
Definition is_space (c : N) : bool :=
  within 9 13 c || within 28 32 c || (c =? 133)%N || (c =? 160)%N
  || (c =? 5760)%N || within 8192 8202 c || (c =? 8232)%N
  || (c =? 8233)%N || (c =? 8239)%N || (c =? 8287)%N || (c =? 12288)%N.

(** [s.split()] with no argument; [cur] is the token being read,
    reversed. *)
Fixpoint split_ws (cur : list N) (s : list N) : list (list N) :=
  match s with
  | [] => match cur with [] => [] | _ => [rev cur] end
  | c :: s' =>
      if is_space c
      then match cur with
           | [] => split_ws [] s'
           | _ => rev cur :: split_ws [] s'
           end
      else split_ws (c :: cur) s'
  end.

Definition split (s : list N) : list (list N) := split_ws [] s.

Fixpoint lstrip (s : list N) : list N :=
  match s with
  | c :: s' => if is_space c then lstrip s' else s
  | [] => []
  end.

(** [s.strip()] *)
Definition strip (s : list N) : list N :=
  rev (lstrip (rev (lstrip s))).

(** Truth value of a string: non-empty. *)
Definition truthy (s : list N) : bool :=
  match s with [] => false | _ => true end.

End Uni.

(** ** Regular expressions, as Python's [re] runs them *)

Module Re.

Inductive regex : Type :=
| Eps                                   (* empty pattern *)
| Chr (c : ascii)                       (* a literal character *)
| Cls (p : ascii -> bool)               (* a character class *)
| Seq (r1 r2 : regex)
| Alt (r1 r2 : regex)                   (* r1|r2, r1 tried first *)
| Star (greedy : bool) (r : regex)      (* r* and r*? *)
| Bnd                                   (* \b *)
| Grp (r : regex).                      (* ( r ), the only group *)

Definition Plus (r : regex) : regex := Seq r (Star true r).

Fixpoint Lit (s : list ascii) : regex :=
  match s with
  | [] => Eps
  | [c] => Chr c
  | c :: s' => Seq (Chr c) (Lit s')
  end.

Definition lit (s : string) : regex := Lit (Text.chars s).

Fixpoint alts (rs : list regex) : regex :=
  match rs with
  | [] => Cls (fun _ => false)
  | [r] => r
  | r :: rs' => Alt r (alts rs')
  end.

(** The matcher's position: was the previous character a word
    character, what is left of the subject, and the text of group 1. *)
Record cursor : Type := Cursor {
  prev_word : bool;
  rest : list ascii;
  group1 : option (list ascii)
}.

Definition next_word (c : cursor) : bool :=
  match rest c with
  | x :: _ => Text.is_word x
  | [] => false
  end.

Definition consumed (c c' : cursor) : list ascii :=
  firstn (length (rest c) - length (rest c')) (rest c).

Definition chr_eq (icase : bool) (a x : ascii) : bool :=
  if icase
  then Text.ascii_eqb (Text.lower_char a) (Text.lower_char x)
  else Text.ascii_eqb a x.

Definition step (p : ascii -> bool) (k : cursor -> option cursor)
  (c : cursor) : option cursor :=
  match rest c with
  | x :: t => if p x then k (Cursor (Text.is_word x) t (group1 c)) else None
  | [] => None
  end.

Definition orelse (a b : option cursor) : option cursor :=
  match a with Some _ => a | None => b end.

(** The loop of [r*]: [body] matches one more [r]; an iteration must
    consume a character, so [n], the number of characters left when the
    loop starts, bounds the iterations.  The greedy loop tries another
    iteration before the continuation, the lazy one after it. *)
Fixpoint star_loop (greedy : bool)
  (body : (cursor -> option cursor) -> cursor -> option cursor)
  (k : cursor -> option cursor) (n : nat) (c : cursor) {struct n}
  : option cursor :=
  let again :=
    match n with
    | O => None
    | S n' =>
        body (fun c' =>
                if length (rest c') <? length (rest c)
                then star_loop greedy body k n' c' else None) c
    end in
  if greedy then orelse again (k c) else orelse (k c) again.

(** Backtracking match of [r] at [c], then the continuation [k].  The
    first success in Python's search order is returned. *)
Fixpoint rmatch (icase : bool) (r : regex)
  (k : cursor -> option cursor) (c : cursor) {struct r} : option cursor :=
  match r with
  | Eps => k c
  | Chr a => step (chr_eq icase a) k c
  | Cls p => step p k c
  | Seq r1 r2 => rmatch icase r1 (rmatch icase r2 k) c
  | Alt r1 r2 => orelse (rmatch icase r1 k c) (rmatch icase r2 k c)
  | Star greedy r1 =>
      star_loop greedy (rmatch icase r1) k (length (rest c)) c
  | Bnd => if xorb (prev_word c) (next_word c) then k c else None
  | Grp r1 =>
      rmatch icase r1
        (fun c' => k (Cursor (prev_word c') (rest c')
                        (Some (consumed c c')))) c
  end.

(** A match object: the offset of the match in the bytes of the
    subject, [group()] and [group(1)]. *)
Record rmatch_obj : Type := Match {
  m_start : nat;
  m_group : list ascii;
  m_group1 : option (list ascii)
}.

(** [m.start()] for a match in [s]: the offset in code points. *)
Definition start (s : list ascii) (m : rmatch_obj) : nat :=
  Utf8.length (firstn (m_start m) s).

Definition match_at (icase : bool) (r : regex) (pw : bool)
  (s : list ascii) (pos : nat) : option rmatch_obj :=
  let c := Cursor pw s None in
  match rmatch icase r Some c with
  | Some e => Some (Match pos (consumed c e) (group1 e))
  | None => None
  end.

(** [re.finditer]: non-overlapping matches, left to right.  [skip]
    counts the characters still covered by the last match.  (None of
    the analyzer's patterns matches the empty string.) *)
Fixpoint finditer_from (icase : bool) (r : regex) (pw : bool)
  (s : list ascii) (pos skip : nat) {struct s} : list rmatch_obj :=
  match skip with
  | S k =>
      match s with
      | [] => []
      | x :: t => finditer_from icase r (Text.is_word x) t (S pos) k
      end
  | O =>
      match match_at icase r pw s pos with
      | Some m =>
          m :: match s with
               | [] => []
               | x :: t =>
                   finditer_from icase r (Text.is_word x) t (S pos)
                     (length (m_group m) - 1)
               end
      | None =>
          match s with
          | [] => []
          | x :: t => finditer_from icase r (Text.is_word x) t (S pos) 0
          end
      end
  end.

Definition finditer (icase : bool) (r : regex) (s : list ascii)
  : list rmatch_obj :=
  finditer_from icase r false s 0 0.

(** [re.search]: the first match. *)
Definition search (icase : bool) (r : regex) (s : list ascii)
  : option rmatch_obj :=
  head (finditer icase r s).

(** The pieces of [s] between the matches [ms]; [pos] is the offset of
    [s] in the subject. *)
Fixpoint gaps (ms : list rmatch_obj) (pos : nat) (s : list ascii)
  : list (list ascii) :=
  match ms with
  | [] => [s]
  | m :: ms' =>
      let d := m_start m - pos in
      let n := length (m_group m) in
      firstn d s :: gaps ms' (m_start m + n) (skipn (d + n) s)
  end.

(** [re.split(r, s)] for a pattern without groups. *)
Definition split (icase : bool) (r : regex) (s : list ascii)
  : list (list ascii) :=
  gaps (finditer icase r s) 0 s.

(** [re.sub(r, repl, s)] for a replacement without back-references. *)
Definition sub (icase : bool) (r : regex) (repl s : list ascii)
  : list ascii :=
  Text.join repl (gaps (finditer icase r s) 0 s).

End Re.

(** ** Floating point: true division and [round(x, 1)] *)

Module PyFloat.

Import Floats.PrimFloat Floats.SpecFloat Floats.FloatOps.

Definition float : Set := PrimFloat.float.

(** [float(n)]; exact below 2^53, which any count of words is. *)
Definition of_nat (n : nat) : float :=
  PrimFloat.of_uint63 (Uint63.of_Z (Z.of_nat n)).

(** [a / b] on integers. *)
Definition truediv (a b : nat) : float :=
  PrimFloat.div (of_nat a) (of_nat b).

(** [num/den] rounded to the nearest integer, ties to even. *)
Definition half_even (num den : Z) : Z :=
  let q := (num / den)%Z in
  match (2 * (num mod den) ?= den)%Z with
  | Lt => q
  | Gt => (q + 1)%Z
  | Eq => if Z.even q then q else (q + 1)%Z
  end.

(** [round(x, 1)]: the exact binary value of [x] is rounded to the
    nearest tenth, ties to even, and that decimal is read back as the
    nearest double. *)
Definition round1 (x : float) : float :=
  match Prim2SF x with
  | S754_finite s m e =>
      let t :=
        if (0 <=? e)%Z
        then (10 * Z.pos m * 2 ^ e)%Z
        else half_even (10 * Z.pos m) (2 ^ (- e)) in
      let r := PrimFloat.div (PrimFloat.of_uint63 (Uint63.of_Z t))
                 (PrimFloat.of_uint63 (Uint63.of_Z 10)) in
      if s then PrimFloat.opp r else r
  | _ => x
  end.

End PyFloat.

(** ** The rule set *)

Module Patterns.
Import Re.

Definition word_group (ws : list string) : regex :=
  Seq Bnd (Seq (Grp (alts (map lit ws))) Bnd).

(** [\b(it's|you're|we're|don't|can't|won't|let's|you'll|we'll)\b] *)
Definition contractions : regex :=
  word_group ["it's"; "you're"; "we're"; "don't"; "can't"; "won't";
              "let's"; "you'll"; "we'll"].

(** [\b(is|are|was|were|been|be)\s+\w*ed\b] *)
Definition passive_voice : regex :=
  Seq Bnd
   (Seq (Grp (alts (map lit ["is"; "are"; "was"; "were"; "been"; "be"])))
     (Seq (Plus (Cls Text.is_space))
       (Seq (Star true (Cls Text.is_word))
         (Seq (lit "ed") Bnd)))).

(** [\b(guys|mankind|blacklist|whitelist|master|slave|crazy|insane|lame)\b] *)
Definition non_inclusive_terms : regex :=
  word_group ["guys"; "mankind"; "blacklist"; "whitelist"; "master";
              "slave"; "crazy"; "insane"; "lame"].

(** [\byou\b] *)
Definition you_addressing : regex := Seq Bnd (Seq (lit "you") Bnd).

(** [[.!?]+], the sentence separator of [analyze_content]. *)
Definition is_terminator (c : ascii) : bool :=
  Text.contains [c] (Text.chars ".!?").
Definition sentence_end : regex := Plus (Cls is_terminator).

(** The patterns of [fetch_web_content]. *)
Definition isnt (x : string) (c : ascii) : bool :=
  negb (Text.contains [c] (Text.chars x)).
Definition any_char (c : ascii) : bool := true.

(** [<title>([^<]+)</title>] *)
Definition title_tag : regex :=
  Seq (lit "<title>") (Seq (Grp (Plus (Cls (isnt "<")))) (lit "</title>")).

(** [<script[^>]*>.*?</script>] and [<style[^>]*>.*?</style>], DOTALL *)
Definition block (name : string) : regex :=
  Seq (lit ("<" +:+ name))
   (Seq (Star true (Cls (isnt ">")))
     (Seq (Chr ">"%char)
       (Seq (Star false (Cls any_char)) (lit ("</" +:+ name +:+ ">"))))).

(** [<[^>]+>] *)
Definition any_tag : regex :=
  Seq (Chr "<"%char) (Seq (Plus (Cls (isnt ">"))) (Chr ">"%char)).

End Patterns.

Record standard : Type := Standard {
  correct : string;
  avoid : list string;
  note : string
}.

Definition terminology_standards : list (string * standard) :=
  [ ("AI", Standard "AI" ["A.I."] "No periods");
    ("email", Standard "email" ["e-mail"] "One word");
    ("website", Standard "website" ["web site"] "One word");
    ("sign_in", Standard "sign in (verb), sign-in (noun)"
                  ["login"; "log in"] "Microsoft standard");
    ("setup", Standard "set up (verb), setup (noun)"
                  ["setup (verb)"] "Context dependent");
    ("wifi", Standard "Wi-Fi" ["WiFi"; "wifi"] "Hyphenated, both caps") ].

Definition style_guide_base_url : string :=
  "https://learn.microsoft.com/en-us/style-guide".

Definition initial_core_urls : list (string * string) :=
  map (fun su => (fst su, style_guide_base_url +:+ snd su))
    [ ("voice_tone", "/brand-voice-above-all-simple-human");
      ("top_tips", "/top-10-tips-style-voice");
      ("bias_free", "/bias-free-communication");
      ("writing_tips", "/global-communications/writing-tips");
      ("welcome", "/welcome/");
      ("word_list", "/a-z-word-list-term-collections") ].

(** ** Sentence spans and tokens, character by character *)

Module Spans.

(** The pieces of [s] between maximal runs of characters satisfying
    [sep].  [cur] is the piece being read, reversed; [in_run] tells
    that the previous character was a separator. *)
Fixpoint split_on_runs (sep : ascii -> bool) (in_run : bool)
  (cur : list ascii) (s : list ascii) : list (list ascii) :=
  match s with
  | [] => [rev cur]
  | c :: s' =>
      if sep c
      then if in_run then split_on_runs sep true [] s'
           else rev cur :: split_on_runs sep true [] s'
      else split_on_runs sep false (c :: cur) s'
  end.

Definition spans (s : list ascii) : list (list ascii) :=
  split_on_runs Patterns.is_terminator false [] s.

(** [s] holds a byte other than ASCII white space. *)
Definition has_visible (s : list ascii) : bool :=
  existsb (fun c => negb (Text.is_space c)) s.

(** For a string of code points and Unicode's white space: the number
    of maximal runs of characters other than white space, and whether
    there is such a character. *)
Fixpoint word_starts (after_space : bool) (s : list N) : nat :=
  match s with
  | [] => 0
  | c :: s' =>
      if Uni.is_space c then word_starts true s'
      else (if after_space then 1 else 0) + word_starts false s'
  end.

Definition visible (s : list N) : bool :=
  existsb (fun c => negb (Uni.is_space c)) s.

Definition non_empty (s : list ascii) : bool :=
  match s with [] => false | _ => true end.

(** The run of characters satisfying [p] at the head of [s]: what is
    left after it, and its length. *)
Fixpoint skip_run (p : ascii -> bool) (s : list ascii) : list ascii :=
  match s with
  | c :: s' => if p c then skip_run p s' else s
  | [] => []
  end.

Fixpoint run_length (p : ascii -> bool) (s : list ascii) : nat :=
  match s with
  | c :: s' => if p c then S (run_length p s') else 0
  | [] => 0
  end.

End Spans.

(** ** Results of the analyzer's methods *)

(** The mapping a successful [fetch_web_content] returns. *)
Record page : Type := Page {
  p_url : string;
  p_title : string;
  p_content : string;          (* at most 2000 code points *)
  p_full_content : string;
  p_timestamp : PyFloat.float
}.

Inductive fetch_result : Type :=
| Fetched (p : page)                      (* success: True *)
| FetchFailed (error url : string).       (* success: False *)

Definition success (r : fetch_result) : bool :=
  match r with Fetched _ => true | FetchFailed _ _ => false end.

(** What the network does with one GET: a response with its status and
    its text (or the message of the exception reading the text raises),
    or the message of the exception the request itself raises. *)
Inductive http_reply : Type :=
| Reply (status : Z) (text : string + string)
| NoReply (msg : string).

(** The analyzer object.  [requests] and [clock_reads] are not
    attributes of the class: they record the GETs issued so far (latest
    first) and how often the event-loop clock was read. *)
Record analyzer : Type := Analyzer {
  core_urls : list (string * string);
  session : bool;
  content_cache : gmap string fetch_result;
  requests : list string;
  clock_reads : nat
}.

(** [self.cache_timeout], one hour; no method reads it. *)
Definition cache_timeout : Z := 3600.

(** [__init__] *)
Definition init : analyzer :=
  Analyzer initial_core_urls false ∅ [] 0.

(** An entry of [issues]; a key the entry does not carry is [None]. *)
Record issue : Type := Issue {
  i_type : string;
  i_severity : string;
  i_position : option nat;
  i_text : option string;
  i_message : string;
  i_principle : option string;
  i_note : option string
}.

Record suggestion : Type := Suggestion {
  s_type : string;
  s_message : string;
  s_principle : string
}.

Record guidance_item : Type := GuidanceItem {
  g_section : string;
  g_title : string;
  g_url : string;
  g_content : string;
  g_official : bool
}.

(** The mapping [get_official_guidance] returns. *)
Record guidance_result : Type := GuidanceResult {
  gr_topic : string;
  gr_error : option string;
  gr_guidance : list guidance_item;
  gr_timestamp : option PyFloat.float
}.

Record statistics : Type := Statistics {
  word_count : nat;
  sentence_count : nat;
  avg_words_per_sentence : PyFloat.float
}.

(** The mapping [analyze_content] returns. *)
Record analysis : Type := Analysis {
  a_status : string;
  a_assessment : string;
  a_statistics : statistics;
  a_issues : list issue;
  a_suggestions : list suggestion;
  a_total_issues : nat;
  a_analysis_type : string;
  a_live_guidance : list (string * guidance_item);
  a_timestamp : PyFloat.float
}.

Record improvement : Type := Improvement {
  m_issue : string;
  m_suggestion : string;
  m_type : string;
  m_severity : string
}.

(** The mapping [suggest_improvements] returns. *)
Record improvements : Type := Improvements {
  v_text_preview : string;
  v_total_improvements : nat;
  v_improvements : list improvement;
  v_focus_area : string;
  v_style_guide_url : string;
  v_live_guidance : list (string * guidance_item)
}.

Record search_result : Type := SearchResult {
  r_section : string;
  r_title : string;
  r_url : string;
  r_relevance : string;
  r_content_preview : string;
  r_official : bool
}.

(** The mapping [search_style_guide_live] returns. *)
Record search_response : Type := SearchResponse {
  q_query : string;
  q_error : option string;
  q_results : list search_result;
  q_total_found : option nat;
  q_timestamp : option PyFloat.float
}.

(** ** Dictionaries in insertion order, and sorting *)

(** [d[k] = v] *)
Fixpoint dict_set {V} (k : string) (v : V) (d : list (string * V))
  : list (string * V) :=
  match d with
  | [] => [(k, v)]
  | (k', v') :: d' =>
      if String.eqb k k' then (k, v) :: d' else (k', v') :: dict_set k v d'
  end.

(** [d.get(k)] *)
Fixpoint dict_get {V} (k : string) (d : list (string * V)) : option V :=
  match d with
  | [] => None
  | (k', v) :: d' => if String.eqb k k' then Some v else dict_get k d'
  end.

(** Tuples [(bool, str)] under Python's [<]. *)
Definition key_ltb (a b : bool * string) : bool :=
  match fst a, fst b with
  | false, true => true
  | true, false => false
  | _, _ => String.ltb (snd a) (snd b)
  end.

Section Sort.
Context {A : Type} (key : A -> bool * string).

Fixpoint insert_desc (x : A) (l : list A) : list A :=
  match l with
  | [] => [x]
  | y :: l' =>
      if key_ltb (key x) (key y) then y :: insert_desc x l'
      else x :: y :: l'
  end.

(** [l.sort(key=key, reverse=True)]: descending keys, and elements
    with equal keys stay in their original order. *)
Definition sort_reverse (l : list A) : list A :=
  fold_right insert_desc [] l.

(** [x] may stand before [y] in a list sorted in descending order. *)
Definition not_below (x y : A) : Prop := key_ltb (key x) (key y) = false.

End Sort.

(** ** State and exceptions *)

Inductive outcome (A : Type) : Type :=
| Ok (a : A)
| Raise (msg : string).
Arguments Ok {A} a.
Arguments Raise {A} msg.

Definition M (A : Type) : Type := analyzer -> outcome A * analyzer.

Definition ret {A} (a : A) : M A := fun st => (Ok a, st).
Definition raise {A} (msg : string) : M A := fun st => (Raise msg, st).
Definition bind {A B} (m : M A) (k : A -> M B) : M B :=
  fun st =>
    match m st with
    | (Ok a, st') => k a st'
    | (Raise e, st') => (Raise e, st')
    end.
Definition gets {A} (f : analyzer -> A) : M A := fun st => (Ok (f st), st).
Definition modify (f : analyzer -> analyzer) : M unit :=
  fun st => (Ok tt, f st).

(** [try: m  except Exception as e: h e]; the state reached when the
    exception was raised is kept. *)
Definition try_except {A} (m : M A) (h : string -> M A) : M A :=
  fun st =>
    match m st with
    | (Ok a, st') => (Ok a, st')
    | (Raise e, st') => h e st'
    end.

Notation "'do' x <- m ; k" := (bind m (fun x => k))
  (at level 10, x name, m at level 100, k at level 200).

(** [for x in xs: acc = body x acc] *)
Fixpoint for_each {A S} (xs : list A) (body : A -> S -> M S) (acc : S)
  : M S :=
  match xs with
  | [] => ret acc
  | x :: xs' => do acc' <- body x acc ; for_each xs' body acc'
  end.

Section Environment.

(** [http_get n url]: the network's answer to the GET of [url] issued
    after [n] earlier requests. *)
Variable http_get : nat -> string -> http_reply.

(** [loop_time n]: the [n]-th reading of [asyncio.get_event_loop().time()]. *)
Variable loop_time : nat -> PyFloat.float.

(** [set_iter l]: the order in which CPython iterates the [set] built
    from the strings [l].  It follows the strings' hashes, which are
    salted per process. *)
Variable set_iter : list string -> list string.

Definition event_loop_time : M PyFloat.float :=
  fun st =>
    (Ok (loop_time (clock_reads st)),
     Analyzer (core_urls st) (session st) (content_cache st)
       (requests st) (S (clock_reads st))).

Definition get_session : M unit :=
  modify (fun st =>
    Analyzer (core_urls st) true (content_cache st)
      (requests st) (clock_reads st)).

Definition close_session : M unit :=
  modify (fun st =>
    Analyzer (core_urls st) false (content_cache st)
      (requests st) (clock_reads st)).

(** [session.get(url)]: the request goes out and is answered, or raises. *)
Definition session_get (url : string) : M (Z * (string + string)) :=
  fun st =>
    let st' := Analyzer (core_urls st) (session st) (content_cache st)
                 (url :: requests st) (clock_reads st) in
    match http_get (length (requests st)) url with
    | Reply status text => (Ok (status, text), st')
    | NoReply msg => (Raise msg, st')
    end.

(** [await response.text()] *)
Definition response_text (text : string + string) : M string :=
  match text with
  | inl content => ret content
  | inr msg => raise msg
  end.

(** [self.content_cache[url] = result] *)
Definition cache_store (url : string) (result : fetch_result) : M unit :=
  modify (fun st =>
    Analyzer (core_urls st) (session st)
      (<[url := result]> (content_cache st))
      (requests st) (clock_reads st)).

Definition extract_title (content : list ascii) : string :=
  match Re.search false Patterns.title_tag content with
  | Some m =>
      match Re.m_group1 m with
      | Some t => Text.str t
      | None => "Microsoft Style Guide"
      end
  | None => "Microsoft Style Guide"
  end.

Definition extract_text (content : list ascii) : list ascii :=
  let t := Re.sub false (Patterns.block "script") [] content in
  let t := Re.sub false (Patterns.block "style") [] t in
  let t := Re.sub false Patterns.any_tag [" "%char] t in
  Text.join [" "%char] (Text.split t).

Definition fetch_web_content (url : string) : M fetch_result :=
  do cache <- gets content_cache ;
  match cache !! url with
  | Some cached_data => ret cached_data
  | None =>
      try_except
        (do _ <- get_session ;
         do response <- session_get url ;
         if (fst response =? 200)%Z then
           do content <- response_text (snd response) ;
           let title := extract_title (Text.chars content) in
           let text_content := extract_text (Text.chars content) in
           do timestamp <- event_loop_time ;
           let result :=
             Fetched (Page url title
                        (Text.str (Utf8.take 2000 text_content))
                        (Text.str text_content) timestamp) in
           do _ <- cache_store url result ;
           ret result
         else
           ret (FetchFailed ("HTTP " +:+ Text.of_Z (fst response)) url))
        (fun e => ret (FetchFailed e url))
  end.

Definition topic_mappings : list (string * string) :=
  [ ("voice", "voice_tone"); ("tone", "voice_tone"); ("tips", "top_tips");
    ("bias", "bias_free"); ("inclusive", "bias_free");
    ("writing", "writing_tips"); ("grammar", "writing_tips");
    ("words", "word_list"); ("terminology", "word_list") ].

(** The sections [get_official_guidance] consults for a topic. *)
Definition relevant_sections (topic : string)
  (urls : list (string * string)) : list string :=
  let topic_lower := Text.lower (Text.chars topic) in
  let found :=
    map snd
      (List.filter
         (fun km => Text.contains (Text.chars (fst km)) topic_lower)
         topic_mappings) in
  match found with
  | [] => map fst urls
  | _ => found
  end.

(** The body of the loop of [get_official_guidance]. *)
Definition guidance_step (urls : list (string * string))
  (section : string) (guidance_results : list guidance_item)
  : M (list guidance_item) :=
  match dict_get section urls with
  | Some url =>
      do content_result <- fetch_web_content url ;
      match content_result with
      | Fetched p =>
          ret (guidance_results
                 ++ [GuidanceItem section (p_title p) url (p_content p) true])
      | FetchFailed _ _ => ret guidance_results
      end
  | None => ret guidance_results
  end.

Definition get_official_guidance (topic : string) : M guidance_result :=
  try_except
    (do urls <- gets core_urls ;
     do guidance_results <-
       for_each (firstn 3 (relevant_sections topic urls))
         (guidance_step urls) [] ;
     do timestamp <- event_loop_time ;
     ret (GuidanceResult topic None guidance_results (Some timestamp)))
    (fun e => ret (GuidanceResult topic (Some e) [] None)).

(** The loop of [analyze_content] that collects live guidance, with
    the [try]/[except] around it: an exception ends the loop and
    [live_guidance] keeps what was stored before. *)
Fixpoint collect_guidance (issue_types : list string)
  (live_guidance : list (string * guidance_item))
  : M (list (string * guidance_item)) :=
  match issue_types with
  | [] => ret live_guidance
  | issue_type :: more =>
      fun st =>
        match get_official_guidance issue_type st with
        | (Ok guidance, st') =>
            match gr_guidance guidance with
            | first :: _ =>
                collect_guidance more
                  (dict_set issue_type first live_guidance) st'
            | [] => collect_guidance more live_guidance st'
            end
        | (Raise _, st') => (Ok live_guidance, st')
        end
  end.

(** [x in l] for a list of strings. *)
Definition mem (x : string) (l : list string) : bool :=
  existsb (String.eqb x) l.

Definition contraction_issue : issue :=
  Issue "voice_tone" "info" None None
    "Consider using contractions (it's, you're, we'll) for a more natural tone"
    (Some "warm_and_relaxed") None.

Definition passive_issue (text : list ascii) (m : Re.rmatch_obj) : issue :=
  Issue "grammar" "warning" (Some (Re.start text m))
    (Some (Text.str (Re.m_group m)))
    "Consider using active voice for clarity"
    (Some "crisp_and_clear") None.

Definition terminology_issue (st : standard) (avoid_term : string) : issue :=
  Issue "terminology" "warning" None (Some avoid_term)
    ("Use '" +:+ correct st +:+ "' instead of '" +:+ avoid_term +:+ "'")
    None (Some (note st)).

Definition inclusive_issue (text : list ascii) (m : Re.rmatch_obj)
  : issue :=
  Issue "accessibility" "error" (Some (Re.start text m))
    (Some (Text.str (Re.m_group m)))
    ("'" +:+ Text.str (Re.m_group m)
       +:+ "' may not be inclusive - consider alternatives")
    (Some "bias_free_communication") None.

(** The statistics block at the head of [analyze_content].  The
    separators of [re.split] are ASCII, so the pieces of the bytes are
    the encodings of the pieces of the string; [s.strip()] and
    [text.split()] read the code points. *)
Definition sentences (text : list ascii) : list (list ascii) :=
  List.filter (fun s => Uni.truthy (Uni.strip (Utf8.decode s)))
    (Re.split false Patterns.sentence_end text).

Definition text_statistics (text : list ascii) : statistics :=
  let word_count := length (Uni.split (Utf8.decode text)) in
  let sentence_count := length (sentences text) in
  Statistics word_count sentence_count
    (PyFloat.round1 (PyFloat.truediv word_count (Nat.max 1 sentence_count))).

(** The issues of the pattern passes, in the order they are appended. *)
Definition grammar_issues (analysis_type : string) (text : list ascii)
  : list issue :=
  if mem analysis_type ["comprehensive"; "grammar"]
  then map (passive_issue text)
         (Re.finditer true Patterns.passive_voice text)
  else [].

Definition terminology_issues (analysis_type : string) (text : list ascii)
  : list issue :=
  if mem analysis_type ["comprehensive"; "terminology"]
  then
    flat_map
      (fun ts =>
         flat_map
           (fun avoid_term =>
              if Text.contains (Text.lower (Text.chars avoid_term))
                   (Text.lower text)
              then [terminology_issue (snd ts) avoid_term] else [])
           (avoid (snd ts)))
      terminology_standards
  else [].

Definition accessibility_issues (analysis_type : string) (text : list ascii)
  : list issue :=
  if mem analysis_type ["comprehensive"; "accessibility"]
  then map (inclusive_issue text)
         (Re.finditer true Patterns.non_inclusive_terms text)
  else [].

Definition local_issues (analysis_type : string) (text : list ascii)
  : list issue :=
  let contractions :=
    length (Re.finditer true Patterns.contractions text) in
  (if 0 <? contractions then [] else [contraction_issue])
    ++ grammar_issues analysis_type text
    ++ terminology_issues analysis_type text
    ++ accessibility_issues analysis_type text.

Definition local_suggestions (text : list ascii) : list suggestion :=
  let contractions :=
    length (Re.finditer true Patterns.contractions text) in
  let you_usage :=
    length (Re.finditer true Patterns.you_addressing text) in
  (if 0 <? contractions
   then [Suggestion "positive"
           ("Good use of contractions (" +:+ Text.of_nat contractions
              +:+ " found) - supports warm, natural tone")
           "warm_and_relaxed"]
   else [])
    ++
  (if 0 <? you_usage
   then [Suggestion "positive"
           ("Good use of 'you' (" +:+ Text.of_nat you_usage
              +:+ " instances) - directly engages readers")
           "ready_to_help"]
   else []).

(** The status and the assessment for a number of issues. *)
Definition assess (total_issues : nat) : string * string :=
  if total_issues =? 0
  then ("✅ Excellent",
        "Content follows Microsoft Style Guide principles well")
  else if total_issues <=? 2
  then ("⚠️ Good", "Minor style improvements suggested")
  else ("❌ Needs Work", "Multiple style issues detected").

(** The issue categories [analyze_content] asks guidance for. *)
Definition guidance_topics (issues : list issue) : list string :=
  match issues with
  | [] => []
  | _ => firstn 2 (set_iter (map i_type issues))
  end.

Definition analyze_content (text analysis_type : string) : M analysis :=
  let issues := local_issues analysis_type (Text.chars text) in
  let suggestions := local_suggestions (Text.chars text) in
  do live_guidance <- collect_guidance (guidance_topics issues) [] ;
  let total_issues := length issues in
  do timestamp <- event_loop_time ;
  ret (Analysis (fst (assess total_issues)) (snd (assess total_issues))
         (text_statistics (Text.chars text))
         issues suggestions total_issues analysis_type live_guidance
         timestamp).

(** [_get_improvement_suggestion] *)
Definition get_improvement_suggestion (i : issue) : string :=
  let text := match i_text i with Some t => t | None => "" end in
  if String.eqb (i_type i) "voice_tone" then
    "Use more contractions and direct language to sound natural and friendly"
  else if String.eqb (i_type i) "grammar"
          && Text.contains (Text.chars "passive") (Text.chars (i_message i))
  then "Change '" +:+ text +:+ "' to active voice"
  else if String.eqb (i_type i) "terminology" then
    "Replace with Microsoft-approved term as noted"
  else if String.eqb (i_type i) "accessibility" then
    "Use inclusive alternative for '" +:+ text +:+ "'"
  else "Follow Microsoft Style Guide recommendations".

Definition suggest_improvements (text focus_area : string)
  : M improvements :=
  do analysis <- analyze_content text "comprehensive" ;
  let kept :=
    List.filter
      (fun i =>
         String.eqb focus_area "all" || String.eqb (i_type i) focus_area)
      (a_issues analysis) in
  let per_issue :=
    map (fun i => Improvement (i_message i) (get_improvement_suggestion i)
                    (i_type i) (i_severity i)) kept in
  let general :=
    if PrimFloat.ltb (PyFloat.of_nat 25)
         (avg_words_per_sentence (a_statistics analysis))
    then [Improvement "Average sentence length is high"
            "Break long sentences into shorter, clearer ones"
            "grammar" "info"]
    else [] in
  let improvements := per_issue ++ general in
  ret (Improvements
         (if 100 <? Utf8.length (Text.chars text)
          then Text.str (Utf8.take 100 (Text.chars text)) +:+ "..."
          else text)
         (length improvements) improvements focus_area
         (style_guide_base_url +:+ "/top-10-tips-style-voice")
         (a_live_guidance analysis)).

(** [sum(1 for term in search_terms if term in content)] *)
Definition term_hits (search_terms : list (list ascii))
  (content : list ascii) : nat :=
  length (List.filter (fun term => Text.contains term content) search_terms).

(** ["high" if relevance_score >= len(search_terms) // 2 else "medium"] *)
Definition relevance_label (score terms : nat) : string :=
  if terms / 2 <=? score then "high" else "medium".

(** [lambda x: (x["relevance"] == "high", x["section"])] *)
Definition sort_key (x : search_result) : bool * string :=
  (String.eqb (r_relevance x) "high", r_section x).

(** The body of the loop of [search_style_guide_live]. *)
Definition search_step (search_terms : list (list ascii))
  (su : string * string) (search_results : list search_result)
  : M (list search_result) :=
  let '(section, url) := su in
  do content_result <- fetch_web_content url ;
  match content_result with
  | Fetched p =>
      let content := Text.lower (Text.chars (p_full_content p)) in
      let relevance_score := term_hits search_terms content in
      if 0 <? relevance_score
      then ret (search_results
                  ++ [SearchResult section (p_title p) url
                        (relevance_label relevance_score
                           (length search_terms))
                        (p_content p) true])
      else ret search_results
  | FetchFailed _ _ => ret search_results
  end.

Definition search_style_guide_live (query : string) : M search_response :=
  try_except
    (let search_terms := Text.split (Text.lower (Text.chars query)) in
     do urls <- gets core_urls ;
     do search_results <- for_each urls (search_step search_terms) [] ;
     let sorted := sort_reverse sort_key search_results in
     do timestamp <- event_loop_time ;
     ret (SearchResponse query None (firstn 5 sorted)
            (Some (length search_results)) (Some timestamp)))
    (fun e => ret (SearchResponse query (Some e) [] None None)).

(** A call of one of the analyzer's asynchronous methods, and the
    analyzer after a sequence of calls. *)
Inductive call : Type :=
| CallFetch (url : string)
| CallGuidance (topic : string)
| CallAnalyze (text analysis_type : string)
| CallSuggest (text focus_area : string)
| CallSearch (query : string)
| CallClose.

Definition run_call (c : call) (st : analyzer) : analyzer :=
  match c with
  | CallFetch url => snd (fetch_web_content url st)
  | CallGuidance topic => snd (get_official_guidance topic st)
  | CallAnalyze text analysis_type =>
      snd (analyze_content text analysis_type st)
  | CallSuggest text focus_area =>
      snd (suggest_improvements text focus_area st)
  | CallSearch query => snd (search_style_guide_live query st)
  | CallClose => snd (close_session st)
  end.

Definition run_calls (cs : list call) (st : analyzer) : analyzer :=
  fold_left (fun st c => run_call c st) cs st.

(** The analyzer once the GET of [url] went out. *)
Definition requested (url : string) (st : analyzer) : analyzer :=
  Analyzer (core_urls st) true (content_cache st)
    (url :: requests st) (clock_reads st).

(** The page a 200 response with body [content] is turned into. *)
Definition page_of (url content : string) (st : analyzer) : page :=
  let text_content := extract_text (Text.chars content) in
  Page url (extract_title (Text.chars content))
    (Text.str (Utf8.take 2000 text_content)) (Text.str text_content)
    (loop_time (clock_reads st)).

Definition stored (url : string) (r : fetch_result) (st : analyzer)
  : analyzer :=
  Analyzer (core_urls st) true (<[url := r]> (content_cache st))
    (url :: requests st) (S (clock_reads st)).

(** The analyzer after looking guidance up for [topics], in turn. *)
Definition lookups (topics : list string) (st : analyzer) : analyzer :=
  fold_left (fun s t => snd (get_official_guidance t s)) topics st.

End Environment.

(** ** Vocabulary of the properties *)

(** [st'] is a later state of the analyzer [st]: the cache kept its
    entries and the catalog is the same. *)
Definition extends (st st' : analyzer) : Prop :=
  content_cache st ⊆ content_cache st' /\ core_urls st' = core_urls st.

(** The query's tokens. *)
Definition terms_of (query : string) : list (list ascii) :=
  Text.split (Text.lower (Text.chars query)).

Definition hits_of (query : string) (p : page) : nat :=
  term_hits (terms_of query) (Text.lower (Text.chars (p_full_content p))).

(** [x] reports a section of the catalog [urls] whose page, as cached
    in [st], contains at least one token of the query, and is labelled
    by the number of tokens it contains. *)
Definition scored (query : string) (urls : list (string * string))
  (st : analyzer) (x : search_result) : Prop :=
  In (r_section x, r_url x) urls /\
  exists p,
    content_cache st !! r_url x = Some (Fetched p) /\
    0 < hits_of query p /\
    r_relevance x =
      relevance_label (hits_of query p) (length (terms_of query)).

(** The order of the results: [x] stands before [y]. *)
Definition ranked_before (x y : search_result) : Prop :=
  (r_relevance x = "high" /\ r_relevance y = "medium") \/
  (r_relevance x = r_relevance y /\
   String.leb (r_section y) (r_section x) = true).

(** The issues of category [t]. *)
Definition of_type (t : string) (issues : list issue) : list issue :=
  List.filter (fun i => String.eqb (i_type i) t) issues.

Definition contractions_found (text : string) : nat :=
  length (Re.finditer true Patterns.contractions (Text.chars text)).

Definition contraction_praise (n : nat) : suggestion :=
  Suggestion "positive"
    ("Good use of contractions (" +:+ Text.of_nat n
       +:+ " found) - supports warm, natural tone")
    "warm_and_relaxed".

Definition email_issue : issue :=
  Issue "terminology" "warning" None (Some "e-mail")
    "Use 'email' instead of 'e-mail'" None (Some "One word").

Definition sign_in_issue : issue :=
  Issue "terminology" "warning" None (Some "login")
    "Use 'sign in (verb), sign-in (noun)' instead of 'login'"
    None (Some "Microsoft standard").

(** The distinct strings of [l] in the order of their first
    occurrence; [seen] holds the strings already met. *)
Fixpoint first_seen_from (seen l : list string) : list string :=
  match l with
  | [] => []
  | x :: l' =>
      if mem x seen then first_seen_from seen l'
      else x :: first_seen_from (x :: seen) l'
  end.

Definition first_seen (l : list string) : list string :=
  first_seen_from [] l.

(** What is known of the order a [set] is iterated in: every element
    once. *)
Definition set_order_ok (order : list string -> list string) : Prop :=
  forall l, List.NoDup (order l) /\ forall x, In x (order l) <-> In x l.

(** A network that is down, and one that serves the same page for
    every URL. *)
Definition offline (n : nat) (url : string) : http_reply :=
  NoReply "Cannot connect to host".

Definition online (n : nat) (url : string) : http_reply :=
  Reply 200
    (inl "<html><head><title>Bias-free communication</title>
<script>var n = '<b>';</script></head>
<body><p>Use inclusive,   bias free language.</p></body></html>").

Definition ticks (n : nat) : PyFloat.float := PyFloat.of_nat n.

Definition welcome_url : string :=
  "https://learn.microsoft.com/en-us/style-guide/welcome/".

(** One possible iteration order of a set: latest first seen first. *)
Definition latest_first (l : list string) : list string :=
  rev (first_seen l).

(** ** Vocabulary of the further properties *)

(** A cache entry under [url] is a page fetched from [url], whose excerpt
    is the first 2000 characters of its full text. *)
Definition page_ok (url : string) (r : fetch_result) : Prop :=
  exists p,
    r = Fetched p /\ p_url p = url /\
    Utf8.length (Text.chars (p_content p)) <= 2000 /\
    p_content p
    = Text.str (Utf8.take 2000 (Text.chars (p_full_content p))).

Definition cache_ok (st : analyzer) : Prop :=
  map_Forall page_ok (content_cache st).

(** From [st] to [st'] the cache and the catalog were kept, and at most
    [n] GETs went out, each for one of [urls] that [st] had not cached. *)
Definition requests_within (urls : list string) (n : nat)
  (st st' : analyzer) : Prop :=
  extends st st' /\
  exists new,
    requests st' = new ++ requests st /\
    length new <= n /\
    Forall (fun u => In u urls /\ content_cache st !! u = None) new.

(** The URLs of the catalog. *)
Definition catalog_urls (st : analyzer) : list string :=
  map snd (core_urls st).

(** A guidance item reports a section of the catalog [urls] and the
    page cached in [st] under its URL. *)
Definition item_ok (urls : list (string * string)) (st : analyzer)
  (it : guidance_item) : Prop :=
  In (g_section it, g_url it) urls /\
  g_official it = true /\
  exists p,
    content_cache st !! g_url it = Some (Fetched p) /\
    g_title it = p_title p /\ g_content it = p_content p.

(** What [search_style_guide_live] finds when it reads the pages from
    the cache of [st]: for each entry of the catalog, in order, a result
    if the cached page contains a token of the query. *)
Definition cached_result (query : string) (st : analyzer)
  (su : string * string) : list search_result :=
  match content_cache st !! snd su with
  | Some (Fetched p) =>
      if 0 <? hits_of query p
      then [SearchResult (fst su) (p_title p) (snd su)
              (relevance_label (hits_of query p) (length (terms_of query)))
              (p_content p) true]
      else []
  | _ => []
  end.

Definition cached_results (query : string) (st : analyzer)
  : list search_result :=
  flat_map (cached_result query st) (core_urls st).

(** The query in lower case. *)
Definition lower_query (query : string) : string :=
  Text.str (Text.lower (Text.chars query)).

(** The rank of a category in the order the passes run. *)
Definition category_rank (t : string) : nat :=
  if String.eqb t "voice_tone" then 0
  else if String.eqb t "grammar" then 1
  else if String.eqb t "terminology" then 2
  else 3.

(** The four shapes of an issue. *)
Definition issue_shape (i : issue) : Prop :=
  i = contraction_issue \/
  (exists text m, i = passive_issue text m) \/
  (exists ts a,
     In ts terminology_standards /\ In a (avoid (snd ts)) /\
     i = terminology_issue (snd ts) a) \/
  (exists text m, i = inclusive_issue text m).

(** [s[pos : pos + n]], in code points. *)
Definition slice (s : string) (pos n : nat) : string :=
  Text.str (Utf8.take n (Utf8.drop pos (Text.chars s))).

(** [len(s)] *)
Definition len (s : string) : nat := Utf8.length (Text.chars s).

(** [s[:n]] *)
Definition prefix (s : string) (n : nat) : string :=
  Text.str (Utf8.take n (Text.chars s)).

(** The offsets the issues carry. *)
Definition positions (issues : list issue) : list nat :=
  flat_map (fun i => match i_position i with Some p => [p] | None => [] end)
    issues.

(** A pattern whose literals and classes are ASCII characters. *)
Fixpoint ascii_regex (r : Re.regex) : Prop :=
  match r with
  | Re.Eps | Re.Bnd => True
  | Re.Chr a => Utf8.is_ascii a = true
  | Re.Cls p => forall x, p x = true -> Utf8.is_ascii x = true
  | Re.Seq r1 r2 | Re.Alt r1 r2 => ascii_regex r1 /\ ascii_regex r2
  | Re.Star _ r1 | Re.Grp r1 => ascii_regex r1
  end.

(** A pattern that matches no empty string. *)
Fixpoint consuming (r : Re.regex) : bool :=
  match r with
  | Re.Eps | Re.Bnd | Re.Star _ _ => false
  | Re.Chr _ | Re.Cls _ => true
  | Re.Seq r1 r2 => consuming r1 || consuming r2
  | Re.Alt r1 r2 => consuming r1 && consuming r2
  | Re.Grp r1 => consuming r1
  end.

Definition by_rank (i j : issue) : Prop :=
  category_rank (i_type i) <= category_rank (i_type j).

(** [v], in any capitalisation, occurs in [text]. *)
Definition occurs_in (v text : string) : Prop :=
  exists pre post,
    Text.lower (Text.chars text)
    = pre ++ Text.lower (Text.chars v) ++ post.

Definition wifi_standard : standard :=
  Standard "Wi-Fi" ["WiFi"; "wifi"] "Hyphenated, both caps".

(** The improvement [suggest_improvements] appends for long sentences. *)
Definition long_sentence_improvement : improvement :=
  Improvement "Average sentence length is high"
    "Break long sentences into shorter, clearer ones" "grammar" "info".

(** The improvement made of an issue. *)
Definition improvement_of (i : issue) : improvement :=
  Improvement (i_message i) (get_improvement_suggestion i)
    (i_type i) (i_severity i).

(** ** The guideline dump *)

(** A value of the guideline mapping: a text, a list of texts, or an
    entry of the terminology table. *)
Inductive gvalue : Type :=
| GText (s : string)
| GList (l : list string)
| GStandard (st : standard).

(** The mapping [get_style_guidelines] returns. *)
Record guidelines : Type := Guidelines {
  gl_category : string;
  gl_base_url : string;
  gl_principles : list (string * list (string * gvalue))
}.

Definition voice_and_tone_group : list (string * gvalue) :=
  [ ("warm_and_relaxed",
     GList ["Use contractions (it's, you're, we'll)";
            "Write like you speak - natural, conversational";
            "Be friendly and approachable"]);
    ("crisp_and_clear",
     GList ["Be direct and scannable"; "Keep sentences under 25 words";
            "Use simple, clear language"]);
    ("ready_to_help",
     GList ["Use action-oriented language"; "Address readers as 'you'";
            "Be supportive and encouraging"]) ].

Definition grammar_group : list (string * gvalue) :=
  [ ("active_voice", GText "Use active voice for clarity and engagement");
    ("sentence_structure", GText "Keep sentences short and parallel");
    ("imperative_mood",
     GText "Use for instructions (Click, Choose, Select)") ].

(** [{**self.terminology_standards}] *)
Definition terminology_group : list (string * gvalue) :=
  map (fun ts => (fst ts, GStandard (snd ts))) terminology_standards.

Definition accessibility_group : list (string * gvalue) :=
  [ ("inclusive_language",
     GList ["Use 'everyone' instead of 'guys'";
            "Use 'allow list' instead of 'whitelist'";
            "Use 'primary/secondary' instead of 'master/slave'"]);
    ("people_first",
     GText "Use 'people with disabilities' not 'disabled people'");
    ("gender_neutral",
     GText "Avoid gendered pronouns in generic references") ].

(** [self.core_urls[section]]; a missing key raises [KeyError], whose
    text is the quoted key. *)
Definition catalog_url (section : string) (urls : list (string * string))
  : outcome string :=
  match dict_get section urls with
  | Some url => Ok url
  | None => Raise ("'" +:+ section +:+ "'")
  end.

(** One [if category in [keyword, "all"]: principles[name] = {...}]. *)
Definition add_group (category keyword name section : string)
  (body : list (string * gvalue)) (urls : list (string * string))
  (principles : list (string * list (string * gvalue)))
  : outcome (list (string * list (string * gvalue))) :=
  if mem category [keyword; "all"]
  then
    match catalog_url section urls with
    | Ok url =>
        Ok (dict_set name (dict_set "official_url" (GText url) body)
              principles)
    | Raise e => Raise e
    end
  else Ok principles.

Definition and_then {A B} (x : outcome A) (f : A -> outcome B) : outcome B :=
  match x with
  | Ok a => f a
  | Raise e => Raise e
  end.

(** [get_style_guidelines]: synchronous; it reads the catalog. *)
Definition get_style_guidelines (category : string) (st : analyzer)
  : outcome guidelines :=
  let urls := core_urls st in
  and_then (add_group category "voice" "voice_and_tone" "voice_tone"
              voice_and_tone_group urls []) (fun principles =>
  and_then (add_group category "grammar" "grammar" "writing_tips"
              grammar_group urls principles) (fun principles =>
  and_then (add_group category "terminology" "terminology" "word_list"
              terminology_group urls principles) (fun principles =>
  and_then (add_group category "accessibility" "accessibility" "bias_free"
              accessibility_group urls principles) (fun principles =>
  Ok (Guidelines category style_guide_base_url principles))))).

(** The groups of principles: the category that selects the group, its
    name, and the section whose URL it cites. *)
Definition guideline_groups : list (string * (string * string)) :=
  [ ("voice", ("voice_and_tone", "voice_tone"));
    ("grammar", ("grammar", "writing_tips"));
    ("terminology", ("terminology", "word_list"));
    ("accessibility", ("accessibility", "bias_free")) ].

(** The groups a category selects. *)
Definition selected_groups (category : string)
  : list (string * (string * string)) :=
  List.filter (fun g => mem category [fst g; "all"]) guideline_groups.

(** ** The MCP endpoint *)

(** [MCPRequest.params], as the tool schemas describe it: the "name",
    a string when the key is there, and the "arguments", an object of
    strings when the key is there. *)
Record tool_params : Type := Params {
  pm_name : option string;
  pm_arguments : option (gmap string string)
}.

Record MCPRequest : Type := Request {
  rq_jsonrpc : string;
  rq_method : string;
  rq_params : option tool_params;
  rq_id : option Z
}.

(** An entry of the "tools" list: the properties of its input schema,
    each with its "enum" when it has one, and its "required" list
    (empty when the schema has none). *)
Record tool_schema : Type := Tool {
  t_name : string;
  t_description : string;
  t_properties : list (string * option (list string));
  t_required : list string
}.

Record prompt_info : Type := Prompt {
  pr_name : string;
  pr_description : string
}.

(** What a tool hands to [json.dumps]. *)
Inductive tool_output : Type :=
| OutAnalysis (a : analysis)
| OutGuidelines (g : guidelines)
| OutImprovements (v : improvements)
| OutSearch (q : search_response).

(** The mappings the handlers return. *)
Inductive mcp_result : Type :=
| RInitialize (protocolVersion name version transport : string)
    (tools resources prompts : bool)
| RTools (tools : list tool_schema)
| RContent (text : string)
| RPrompts (prompts : list prompt_info)
| RPrompt (p : prompt_info) (template : string).

Record mcp_error : Type := McpError {
  e_code : Z;
  e_message : string
}.

Record MCPResponse : Type := Response {
  rs_jsonrpc : string;
  rs_result : option mcp_result;
  rs_error : option mcp_error;
  rs_id : option Z
}.

(** [d[k]]; a missing key raises [KeyError], whose text is the quoted
    key. *)
Definition subscript (k : string) (d : gmap string string) : M string :=
  match d !! k with
  | Some v => ret v
  | None => raise ("'" +:+ k +:+ "'")
  end.

(** [name == s] for the result of [params.get("name")]. *)
Definition name_is (name : option string) (s : string) : bool :=
  match name with
  | Some n => String.eqb n s
  | None => false
  end.

(** [f"{name}"] *)
Definition format_name (name : option string) : string :=
  match name with
  | Some n => n
  | None => "None"
  end.

Definition handle_initialize (params : option tool_params) : M mcp_result :=
  ret (RInitialize "0.1.0" "microsoft-style-guide" "2.0.0" "http+sse"
         true false true).

Definition listed_tools : list tool_schema :=
  [ Tool "analyze_content"
      "Analyze content against Microsoft Style Guide principles"
      [ ("text", None);
        ("analysis_type",
         Some ["comprehensive"; "voice_tone"; "grammar"; "terminology";
               "accessibility"]) ]
      ["text"];
    Tool "get_style_guidelines"
      "Get Microsoft Style Guide guidelines for a specific category"
      [ ("category",
         Some ["all"; "voice"; "grammar"; "terminology"; "accessibility"]) ]
      [];
    Tool "suggest_improvements"
      "Get improvement suggestions for content"
      [ ("text", None); ("focus_area", None) ]
      ["text"];
    Tool "search_style_guide_live"
      "Search Microsoft Style Guide website for live guidance"
      [ ("query", None) ]
      ["query"] ].

Definition handle_tools_list : M mcp_result := ret (RTools listed_tools).

Definition document_reviewer : prompt_info :=
  Prompt "document_reviewer"
    "Comprehensive document review using Microsoft Style Guide".

Definition handle_prompts_list : M mcp_result :=
  ret (RPrompts [document_reviewer]).

Definition handle_prompt_get (params : tool_params) : M mcp_result :=
  let prompt_name := pm_name params in
  if name_is prompt_name "document_reviewer"
  then ret (RPrompt document_reviewer
              "Review the following document for Microsoft Style Guide compliance:

{document_text}")
  else raise ("Unknown prompt: " +:+ format_name prompt_name).

Section Endpoint.
Variable http_get : nat -> string -> http_reply.
Variable loop_time : nat -> PyFloat.float.
Variable set_iter : list string -> list string.
(** [json.dumps(result, indent=2)] *)
Variable json_dumps : tool_output -> string.

Definition handle_tool_call (params : tool_params) : M mcp_result :=
  let tool_name := pm_name params in
  let arguments := default ∅ (pm_arguments params) in
  do result <-
    (if name_is tool_name "analyze_content" then
       do text <- subscript "text" arguments ;
       do r <- analyze_content http_get loop_time set_iter text
                 (default "comprehensive" (arguments !! "analysis_type")) ;
       ret (OutAnalysis r)
     else if name_is tool_name "get_style_guidelines" then
       do r <- (fun st =>
                  (get_style_guidelines
                     (default "all" (arguments !! "category")) st, st)) ;
       ret (OutGuidelines r)
     else if name_is tool_name "suggest_improvements" then
       do text <- subscript "text" arguments ;
       do r <- suggest_improvements http_get loop_time set_iter text
                 (default "all" (arguments !! "focus_area")) ;
       ret (OutImprovements r)
     else if name_is tool_name "search_style_guide_live" then
       do query <- subscript "query" arguments ;
       do r <- search_style_guide_live http_get loop_time query ;
       ret (OutSearch r)
     else raise ("Unknown tool: " +:+ format_name tool_name)) ;
  ret (RContent (json_dumps result)).

Definition handle_mcp_request (mcp_request : MCPRequest) : M MCPResponse :=
  try_except
    (do result <-
       (if String.eqb (rq_method mcp_request) "initialize" then
          handle_initialize (rq_params mcp_request)
        else if String.eqb (rq_method mcp_request) "tools/list" then
          handle_tools_list
        else if String.eqb (rq_method mcp_request) "tools/call" then
          match rq_params mcp_request with
          | None => raise "tools/call requires params"
          | Some params => handle_tool_call params
          end
        else if String.eqb (rq_method mcp_request) "prompts/list" then
          handle_prompts_list
        else if String.eqb (rq_method mcp_request) "prompts/get" then
          match rq_params mcp_request with
          | None => raise "prompts/get requires params"
          | Some params => handle_prompt_get params
          end
        else raise ("Unknown method: " +:+ rq_method mcp_request)) ;
     ret (Response "2.0" (Some result) None (rq_id mcp_request)))
    (fun e =>
       ret (Response "2.0" None (Some (McpError (-32603) e))
              (rq_id mcp_request))).

(** The analyzer of the application after a sequence of requests. *)
Definition serve (rqs : list MCPRequest) (st : analyzer) : analyzer :=
  fold_left (fun st rq => snd (handle_mcp_request rq st)) rqs st.

End Endpoint.

(** The names [handle_tools_list] lists. *)
Definition listed_names : list string := map t_name listed_tools.

(** A request is a call of a tool. *)
Definition is_tool_call (rq : MCPRequest) : bool :=
  String.eqb (rq_method rq) "tools/call".

(** The calls of the analyzer a tool makes: [analyze_content],
    [suggest_improvements] and [search_style_guide_live]. *)
Definition tool_method (c : call) : Prop :=
  match c with
  | CallAnalyze _ _ | CallSuggest _ _ | CallSearch _ => True
  | CallFetch _ | CallGuidance _ | CallClose => False
  end.

(** ** Normalised text *)

Definition blank : ascii := " "%char.

(** A token of [str.split]: not empty, and without white space. *)
Definition token (w : list ascii) : Prop :=
  w <> [] /\ forallb (fun c => negb (Text.is_space c)) w = true.

(** Tokens separated by single blanks. *)
Definition normalised (s : list ascii) : Prop :=
  exists ws, Forall token ws /\ s = Text.join [blank] ws.

(** ** The sections behind live guidance *)

(** The sections [get_official_guidance] fetches for a topic. *)
Definition consulted (topic : string) (urls : list (string * string))
  : list string :=
  firstn 3 (relevant_sections topic urls).

(** An entry of [live_guidance] holds a section consulted for its
    category. *)
Definition guided_by (urls : list (string * string))
  (e : string * guidance_item) : Prop :=
  In (g_section (snd e)) (consulted (fst e) urls).

(** * Properties *)

(** ** Text primitives *)

Lemma has_visible_rev s :
  Spans.has_visible (rev s) = Spans.has_visible s.
Proof.
  unfold Spans.has_visible. induction s as [|c s IH]; simpl; [reflexivity|].
  rewrite existsb_app, IH. simpl. rewrite orb_false_r. apply orb_comm.
Qed.

Lemma uni_split_ws_length cur s :
  length (Uni.split_ws cur s) =
  match cur with
  | [] => Spans.word_starts true s
  | _ => 1 + Spans.word_starts false s
  end.
Proof.
  revert cur. induction s as [|c s IH]; intros cur; simpl.
  - destruct cur; reflexivity.
  - destruct (Uni.is_space c).
    + destruct cur; simpl; rewrite IH; reflexivity.
    + rewrite IH. destruct cur; reflexivity.
Qed.

Lemma uni_lstrip_nil_iff s :
  Uni.lstrip s = [] <-> Spans.visible s = false.
Proof.
  induction s as [|c s IH]; simpl; [tauto|].
  destruct (Uni.is_space c); simpl; [exact IH|].
  split; discriminate.
Qed.

Lemma uni_lstrip_visible s :
  Spans.visible (Uni.lstrip s) = Spans.visible s.
Proof.
  induction s as [|c s IH]; simpl; [reflexivity|].
  destruct (Uni.is_space c) eqn:E; simpl; [exact IH|].
  rewrite E. reflexivity.
Qed.

Lemma visible_rev s : Spans.visible (rev s) = Spans.visible s.
Proof.
  unfold Spans.visible. induction s as [|c s IH]; simpl; [reflexivity|].
  rewrite existsb_app, IH. simpl. rewrite orb_false_r. apply orb_comm.
Qed.

Lemma uni_strip_truthy s :
  Uni.truthy (Uni.strip s) = Spans.visible s.
Proof.
  unfold Uni.strip.
  destruct (Spans.visible s) eqn:V.
  - set (t := rev (Uni.lstrip (rev (Uni.lstrip s)))).
    assert (H : Spans.visible t = true).
    { subst t. rewrite visible_rev, uni_lstrip_visible, visible_rev,
        uni_lstrip_visible. exact V. }
    destruct t; [discriminate|reflexivity].
  - apply uni_lstrip_nil_iff in V. rewrite V. reflexivity.
Qed.

Lemma skip_run_skipn p s : Spans.skip_run p s = skipn (Spans.run_length p s) s.
Proof.
  induction s as [|c s IH]; simpl; [reflexivity|].
  destruct (p c); simpl; [exact IH|reflexivity].
Qed.

Lemma skip_run_length p s :
  length (Spans.skip_run p s) = length s - Spans.run_length p s.
Proof. rewrite skip_run_skipn. apply length_skipn. Qed.

Lemma run_length_le p s : Spans.run_length p s <= length s.
Proof.
  induction s as [|c s IH]; simpl; [lia|]. destruct (p c); simpl; lia.
Qed.

(** A greedy [[class]*] followed by nothing takes the whole run. *)
Lemma rmatch_star_class icase p s pw g :
  exists pw',
    Re.rmatch icase (Re.Star true (Re.Cls p)) Some (Re.Cursor pw s g)
    = Some (Re.Cursor pw' (Spans.skip_run p s) g).
Proof.
  revert pw. induction s as [|x t IH]; intros pw.
  - exists pw. reflexivity.
  - cbn [Re.rmatch Re.rest length Re.star_loop Spans.skip_run].
    unfold Re.step at 1. cbn [Re.rest Re.group1].
    destruct (p x) eqn:Px.
    + destruct (IH (Text.is_word x)) as [pw' E].
      exists pw'.
      replace (length t <? S (length t)) with true
        by (symmetry; apply Nat.ltb_lt; lia).
      cbn [Re.rmatch Re.rest] in E. rewrite E. reflexivity.
    + exists pw. reflexivity.
Qed.

Lemma match_at_sentence_end pw s pos :
  Re.match_at false Patterns.sentence_end pw s pos =
  match s with
  | x :: t =>
      if Patterns.is_terminator x
      then Some (Re.Match pos
                   (firstn (S (Spans.run_length Patterns.is_terminator t)) s)
                   None)
      else None
  | [] => None
  end.
Proof.
  unfold Re.match_at, Patterns.sentence_end, Re.Plus.
  cbn [Re.rmatch]. unfold Re.step at 1. cbn [Re.rest Re.group1].
  destruct s as [|x t]; [reflexivity|].
  destruct (Patterns.is_terminator x); [|reflexivity].
  destruct (rmatch_star_class false Patterns.is_terminator t
              (Text.is_word x) None) as [pw' E].
  cbn [Re.rmatch Re.rest] in E. rewrite E.
  unfold Re.consumed. cbn [Re.rest Re.group1].
  rewrite skip_run_length.
  pose proof (run_length_le Patterns.is_terminator t) as L.
  replace (length (x :: t)
           - (length t - Spans.run_length Patterns.is_terminator t))
    with (S (Spans.run_length Patterns.is_terminator t)) by (simpl; lia).
  reflexivity.
Qed.

Lemma finditer_skip icase r s :
  forall pw pos k, k <= length s ->
  exists pw',
    Re.finditer_from icase r pw s pos k =
    Re.finditer_from icase r pw' (skipn k s) (pos + k) 0.
Proof.
  induction s as [|x t IH]; intros pw pos k Hk.
  - simpl in Hk. assert (k = 0) by lia. subst k.
    exists pw. rewrite Nat.add_0_r. reflexivity.
  - destruct k as [|k].
    + exists pw. rewrite Nat.add_0_r. reflexivity.
    + simpl in Hk. destruct (IH (Text.is_word x) (S pos) k) as [pw' E]; [lia|].
      exists pw'. cbn [Re.finditer_from skipn]. rewrite E.
      f_equal. lia.
Qed.

Lemma finditer_sentence_end_pw pw pw' s pos :
  Re.finditer_from false Patterns.sentence_end pw s pos 0 =
  Re.finditer_from false Patterns.sentence_end pw' s pos 0.
Proof.
  destruct s as [|x t]; cbn [Re.finditer_from];
    rewrite !match_at_sentence_end; reflexivity.
Qed.

Lemma split_on_runs_in_run p s :
  Spans.split_on_runs p true [] s =
  Spans.split_on_runs p false [] (Spans.skip_run p s).
Proof.
  induction s as [|c s IH]; simpl; [reflexivity|].
  destruct (p c) eqn:E; [exact IH|].
  simpl. rewrite E. reflexivity.
Qed.

Lemma gaps_split_on_runs n :
  forall s, length s <= n -> forall pre p0 pw,
  Re.gaps (Re.finditer_from false Patterns.sentence_end pw s
             (p0 + length pre) 0) p0 (pre ++ s)
  = Spans.split_on_runs Patterns.is_terminator false (rev pre) s.
Proof.
  induction n as [|n IH]; intros s Hs pre p0 pw.
  - destruct s; [|simpl in Hs; lia].
    simpl. rewrite app_nil_r, rev_involutive. reflexivity.
  - destruct s as [|x t].
    { simpl. rewrite app_nil_r, rev_involutive. reflexivity. }
    simpl in Hs. cbn [Re.finditer_from Spans.split_on_runs].
    rewrite match_at_sentence_end.
    destruct (Patterns.is_terminator x) eqn:Tx.
    + set (rl := Spans.run_length Patterns.is_terminator t).
      pose proof (run_length_le Patterns.is_terminator t) as L. fold rl in L.
      assert (Hm : length (firstn (S rl) (x :: t)) = S rl)
        by (rewrite length_firstn; simpl; lia).
      cbn [Re.m_group]. rewrite Hm.
      replace (S rl - 1) with rl by lia.
      destruct (finditer_skip false Patterns.sentence_end t
                  (Text.is_word x) (S (p0 + length pre)) rl L) as [pw' E].
      rewrite E. cbn [Re.gaps Re.m_start Re.m_group]. rewrite Hm.
      replace (p0 + length pre - p0) with (length pre) by lia.
      rewrite firstn_app, Nat.sub_diag, firstn_all, firstn_O.
      rewrite app_nil_r, rev_involutive. f_equal.
      rewrite skipn_app.
      rewrite (skipn_all2 pre) by lia.
      replace (length pre + S rl - length pre) with (S rl) by lia.
      cbn [app skipn]. rewrite split_on_runs_in_run, skip_run_skipn.
      fold rl.
      specialize (IH (skipn rl t)) with
        (pre := []) (p0 := p0 + length pre + S rl)
                                      (pw := pw').
      cbn [length app rev] in IH.
      replace (S (p0 + length pre) + rl)
        with (p0 + length pre + S rl + 0) by lia.
      apply IH. rewrite length_skipn. lia.
    + specialize (IH t) with
        (pre := pre ++ [x]) (p0 := p0) (pw := Text.is_word x).
      rewrite length_app in IH. cbn [length] in IH.
      replace (S (p0 + length pre)) with (p0 + (length pre + 1)) by lia.
      rewrite <- app_assoc in IH. cbn [app] in IH.
      rewrite rev_app_distr in IH. cbn [rev app] in IH.
      apply IH. lia.
Qed.

Lemma re_split_sentence_end s :
  Re.split false Patterns.sentence_end s = Spans.spans s.
Proof.
  unfold Re.split, Re.finditer, Spans.spans.
  apply (gaps_split_on_runs (length s) s (le_n _) [] 0 false).
Qed.

(** ** The fetcher and its cache *)

Section Fetcher.

Variable http_get : nat -> string -> http_reply.
Variable loop_time : nat -> PyFloat.float.

Local Abbreviation fetch := (fetch_web_content http_get loop_time).

(** Every path through [fetch_web_content]. *)
Lemma fetch_cases url st :
  match content_cache st !! url with
  | Some cached => fetch url st = (Ok cached, st)
  | None =>
      match http_get (length (requests st)) url with
      | Reply status text =>
          if (status =? 200)%Z then
            match text with
            | inl content =>
                fetch url st =
                (Ok (Fetched (page_of loop_time url content st)),
                 stored url (Fetched (page_of loop_time url content st)) st)
            | inr msg =>
                fetch url st = (Ok (FetchFailed msg url), requested url st)
            end
          else
            fetch url st =
            (Ok (FetchFailed ("HTTP " +:+ Text.of_Z status) url),
             requested url st)
      | NoReply msg =>
          fetch url st = (Ok (FetchFailed msg url), requested url st)
      end
  end.
Proof.
  unfold fetch_web_content, bind, gets, try_except, get_session, modify,
    session_get. cbn [fst snd].
  destruct (content_cache st !! url) as [cached|] eqn:C; [reflexivity|].
  cbn [requests length].
  destruct (http_get (length (requests st)) url) as [status text|msg];
    cbn [fst snd]; [|reflexivity].
  destruct (status =? 200)%Z; [|reflexivity].
  destruct text as [content|msg]; reflexivity.
Qed.

Lemma fetch_total url st :
  exists r st', fetch url st = (Ok r, st').
Proof.
  pose proof (fetch_cases url st) as H.
  destruct (content_cache st !! url); [eauto|].
  destruct (http_get _ url) as [status text|msg]; [|eauto].
  destruct (status =? 200)%Z; [|eauto].
  destruct text; eauto.
Qed.

(** What a fetch leaves behind: entries of the cache stay, the catalog
    stays, and a fetched page is in the cache under its URL. *)
Lemma fetch_effect url st r st' :
  fetch url st = (Ok r, st') ->
  content_cache st ⊆ content_cache st' /\
  core_urls st' = core_urls st /\
  (forall p, r = Fetched p -> content_cache st' !! url = Some (Fetched p)).
Proof.
  intros E. pose proof (fetch_cases url st) as H.
  destruct (content_cache st !! url) as [cached|] eqn:C.
  - rewrite H in E. inversion E; subst. repeat split; [done|].
    intros p ->. exact C.
  - assert (Hreq : forall r0, fetch url st = (Ok r0, requested url st) ->
              success r0 = false ->
              content_cache st ⊆ content_cache st' /\
              core_urls st' = core_urls st /\
              (forall p, r = Fetched p ->
                 content_cache st' !! url = Some (Fetched p))).
    { intros r0 E0 F. rewrite E0 in E. inversion E; subst.
      repeat split; [done|]. intros p ->. discriminate. }
    destruct (http_get _ url) as [status text|msg];
      [|eapply Hreq; [exact H|reflexivity]].
    destruct (status =? 200)%Z; [|eapply Hreq; [exact H|reflexivity]].
    destruct text as [content|msg]; [|eapply Hreq; [exact H|reflexivity]].
    rewrite H in E. inversion E; subst. cbn [stored content_cache core_urls].
    repeat split.
    + apply insert_subseteq. exact C.
    + intros p Hp. rewrite lookup_insert_eq. congruence.
Qed.

End Fetcher.

(** ** Sorting in descending key order *)

Lemma ascii_compare_lt_trans a b c :
  Ascii.compare a b = Lt -> Ascii.compare b c = Lt -> Ascii.compare a c = Lt.
Proof.
  unfold Ascii.compare. rewrite !N.compare_lt_iff. lia.
Qed.

Lemma string_compare_lt_trans a :
  forall b c, String.compare a b = Lt -> String.compare b c = Lt ->
  String.compare a c = Lt.
Proof.
  induction a as [|x a IH]; intros [|y b] [|z c]; simpl; try congruence.
  destruct (Ascii.compare x y) eqn:Exy; try discriminate;
    destruct (Ascii.compare y z) eqn:Eyz; try discriminate; intros H1 H2.
  - apply Ascii.compare_eq_iff in Exy, Eyz. subst.
    replace (Ascii.compare z z) with Eq
      by (symmetry; unfold Ascii.compare; apply N.compare_refl).
    eauto.
  - apply Ascii.compare_eq_iff in Exy. subst. rewrite Eyz. reflexivity.
  - apply Ascii.compare_eq_iff in Eyz. subst. rewrite Exy. reflexivity.
  - rewrite (ascii_compare_lt_trans _ _ _ Exy Eyz). reflexivity.
Qed.

Lemma string_ltb_asym a b : String.ltb a b = true -> String.ltb b a = false.
Proof.
  unfold String.ltb. rewrite (String.compare_antisym a b).
  destruct (String.compare b a); simpl; congruence.
Qed.

Lemma string_ltb_negtrans a b c :
  String.ltb a b = false -> String.ltb b c = false -> String.ltb a c = false.
Proof.
  unfold String.ltb.
  destruct (String.compare a b) eqn:Eab; try discriminate; intros _.
  - apply String.compare_eq_iff in Eab. subst. tauto.
  - destruct (String.compare b c) eqn:Ebc; try discriminate; intros _.
    + apply String.compare_eq_iff in Ebc. subst. rewrite Eab. reflexivity.
    + assert (Hba : String.compare b a = Lt)
        by (rewrite String.compare_antisym, Eab; reflexivity).
      assert (Hcb : String.compare c b = Lt)
        by (rewrite String.compare_antisym, Ebc; reflexivity).
      rewrite String.compare_antisym,
        (string_compare_lt_trans _ _ _ Hcb Hba). reflexivity.
Qed.

Lemma string_ltb_leb a b : String.ltb a b = false -> String.leb b a = true.
Proof.
  unfold String.ltb, String.leb. rewrite (String.compare_antisym b a).
  destruct (String.compare a b); simpl; congruence.
Qed.

Lemma key_ltb_asym a b : key_ltb a b = true -> key_ltb b a = false.
Proof.
  unfold key_ltb. destruct (fst a), (fst b); try congruence;
    apply string_ltb_asym.
Qed.

Lemma key_ltb_negtrans a b c :
  key_ltb a b = false -> key_ltb b c = false -> key_ltb a c = false.
Proof.
  unfold key_ltb. destruct (fst a), (fst b), (fst c); try congruence;
    apply string_ltb_negtrans.
Qed.

Lemma firstn_incl {A} n (l : list A) x : In x (firstn n l) -> In x l.
Proof.
  intros H. rewrite <- (firstn_skipn n l). apply in_or_app. left. exact H.
Qed.

Section SortFacts.
Context {A : Type} (key : A -> bool * string).

Lemma insert_desc_perm x l : Permutation (insert_desc key x l) (x :: l).
Proof.
  induction l as [|y l IH]; simpl; [reflexivity|].
  destruct (key_ltb (key x) (key y)); [|reflexivity].
  rewrite IH. apply perm_swap.
Qed.

Lemma sort_reverse_perm l : Permutation (sort_reverse key l) l.
Proof.
  induction l as [|x l IH]; simpl; [reflexivity|].
  rewrite insert_desc_perm. apply perm_skip, IH.
Qed.

Lemma insert_desc_sorted x l :
  StronglySorted (not_below key) l ->
  StronglySorted (not_below key) (insert_desc key x l).
Proof.
  induction 1 as [|y l SS IH F]; simpl.
  - constructor; [constructor|constructor].
  - destruct (key_ltb (key x) (key y)) eqn:E.
    + constructor; [exact IH|].
      eapply Permutation_Forall; [symmetry; apply insert_desc_perm|].
      constructor; [apply key_ltb_asym, E|exact F].
    + constructor; [constructor; assumption|].
      constructor; [exact E|].
      rewrite List.Forall_forall in *. intros z Hz.
      eapply key_ltb_negtrans; [exact E|apply F, Hz].
Qed.

Lemma sort_reverse_sorted l :
  StronglySorted (not_below key) (sort_reverse key l).
Proof.
  induction l as [|x l IH]; simpl; [constructor|].
  apply insert_desc_sorted, IH.
Qed.

Lemma firstn_sorted (R : A -> A -> Prop) n l :
  StronglySorted R l -> StronglySorted R (firstn n l).
Proof.
  intros SS. revert n. induction SS as [|y l SS IH F]; intros [|n]; simpl;
    try constructor.
  - apply IH.
  - rewrite List.Forall_forall in *. intros z Hz. apply F.
    eapply firstn_incl. exact Hz.
Qed.

End SortFacts.

(** ** Dictionaries, categories and labels *)

Lemma dict_set_keys {V} k (v : V) d :
  map fst (dict_set k v d) =
  if mem k (map fst d) then map fst d else map fst d ++ [k].
Proof.
  unfold mem. induction d as [|[k' v'] d IH]; simpl; [reflexivity|].
  destruct (String.eqb_spec k k') as [->|Hne]; simpl; [reflexivity|].
  rewrite IH. destruct (existsb (String.eqb k) (map fst d)); reflexivity.
Qed.

Lemma mem_In k l : mem k l = true <-> In k l.
Proof.
  unfold mem. rewrite existsb_exists. split.
  - intros (x & Hx & E). apply String.eqb_eq in E. subst. exact Hx.
  - intros H. exists k. split; [exact H|apply String.eqb_refl].
Qed.

Lemma dict_set_keys_in {V} k (v : V) d x :
  In x (map fst (dict_set k v d)) -> In x (map fst d) \/ x = k.
Proof.
  rewrite dict_set_keys. destruct (mem k (map fst d)); [tauto|].
  rewrite in_app_iff. simpl. intuition.
Qed.

Lemma dict_set_keys_nodup {V} k (v : V) d :
  List.NoDup (map fst d) -> List.NoDup (map fst (dict_set k v d)).
Proof.
  intros N. rewrite dict_set_keys.
  destruct (mem k (map fst d)) eqn:E; [exact N|].
  assert (~ In k (map fst d)) by (rewrite <- mem_In; congruence).
  apply NoDup_rev in N. rewrite <- (rev_involutive (_ ++ _)).
  apply NoDup_rev. rewrite rev_app_distr. simpl.
  apply List.NoDup_cons; [rewrite <- in_rev; assumption|exact N].
Qed.

Lemma first_seen_from_In seen l x :
  In x (first_seen_from seen l) <-> In x l /\ ~ In x seen.
Proof.
  revert seen. induction l as [|y l IH]; intros seen; simpl; [tauto|].
  destruct (mem y seen) eqn:E.
  - apply mem_In in E. rewrite IH. split; [tauto|].
    intros [[->|H] N]; tauto.
  - assert (~ In y seen) by (rewrite <- mem_In; congruence).
    simpl. rewrite IH. simpl.
    destruct (string_dec y x) as [->|D]; [tauto|]. tauto.
Qed.

Lemma first_seen_from_NoDup seen l : List.NoDup (first_seen_from seen l).
Proof.
  revert seen. induction l as [|y l IH]; intros seen; simpl; [constructor|].
  destruct (mem y seen); [apply IH|].
  constructor; [|apply IH].
  rewrite first_seen_from_In. simpl. tauto.
Qed.

Lemma first_seen_ok : set_order_ok first_seen.
Proof.
  intros l. split; [apply first_seen_from_NoDup|].
  intros x. unfold first_seen. rewrite first_seen_from_In. simpl. tauto.
Qed.

Lemma set_order_length order l :
  set_order_ok order -> length (order l) = length (first_seen l).
Proof.
  intros H. apply Permutation_length, Permutation.NoDup_Permutation.
  - apply (H l).
  - apply (first_seen_ok l).
  - intros x. destruct (H l) as [_ ->]. destruct (first_seen_ok l) as [_ ->].
    tauto.
Qed.

Lemma filter_none {A} (f : A -> bool) l :
  Forall (fun x => f x = false) l -> List.filter f l = [].
Proof.
  induction 1 as [|x l Hx _ IH]; simpl; [reflexivity|].
  rewrite Hx. exact IH.
Qed.

Lemma grammar_issues_type analysis_type text :
  Forall (fun i => i_type i = "grammar") (grammar_issues analysis_type text).
Proof.
  unfold grammar_issues. destruct (mem _ _); [|constructor].
  apply List.Forall_forall. intros i Hi. apply in_map_iff in Hi.
  destruct Hi as (m & <- & _). reflexivity.
Qed.

Lemma terminology_issues_type analysis_type text :
  Forall (fun i => i_type i = "terminology")
    (terminology_issues analysis_type text).
Proof.
  unfold terminology_issues. destruct (mem _ _); [|constructor].
  apply List.Forall_forall. intros i Hi. apply in_flat_map in Hi.
  destruct Hi as (ts & _ & Hi). apply in_flat_map in Hi.
  destruct Hi as (a & _ & Hi).
  destruct (Text.contains _ _); [|destruct Hi].
  destruct Hi as [<-|[]]. reflexivity.
Qed.

Lemma accessibility_issues_type analysis_type text :
  Forall (fun i => i_type i = "accessibility")
    (accessibility_issues analysis_type text).
Proof.
  unfold accessibility_issues. destruct (mem _ _); [|constructor].
  apply List.Forall_forall. intros i Hi. apply in_map_iff in Hi.
  destruct Hi as (m & <- & _). reflexivity.
Qed.

Lemma of_type_other t t' l :
  t <> t' -> Forall (fun i => i_type i = t') l -> of_type t l = [].
Proof.
  intros N F. apply filter_none. revert F. apply List.Forall_impl.
  intros i ->. apply String.eqb_neq. congruence.
Qed.

(** The passes other than the positive-signal pass raise no
    voice_tone issue. *)
Lemma voice_tone_issues analysis_type text :
  of_type "voice_tone" (local_issues analysis_type (Text.chars text)) =
  if 0 <? contractions_found text then [] else [contraction_issue].
Proof.
  unfold local_issues, of_type. fold (contractions_found text).
  rewrite !List.filter_app.
  fold (of_type "voice_tone" (grammar_issues analysis_type (Text.chars text))).
  fold (of_type "voice_tone"
          (terminology_issues analysis_type (Text.chars text))).
  fold (of_type "voice_tone"
          (accessibility_issues analysis_type (Text.chars text))).
  rewrite (of_type_other "voice_tone" "grammar"),
    (of_type_other "voice_tone" "terminology"),
    (of_type_other "voice_tone" "accessibility");
    try discriminate;
    auto using grammar_issues_type, terminology_issues_type,
      accessibility_issues_type.
  rewrite !app_nil_r. destruct (0 <? contractions_found text); reflexivity.
Qed.

Lemma relevance_label_cases score terms :
  relevance_label score terms = "high" \/
  relevance_label score terms = "medium".
Proof. unfold relevance_label. destruct (_ <=? _); auto. Qed.

Lemma not_below_ranked (x y : search_result) :
  (r_relevance x = "high" \/ r_relevance x = "medium") ->
  (r_relevance y = "high" \/ r_relevance y = "medium") ->
  not_below sort_key x y -> ranked_before x y.
Proof.
  unfold not_below, sort_key, key_ltb, ranked_before. cbn [fst snd].
  intros [Hx|Hx] [Hy|Hy]; rewrite Hx, Hy; cbn; intros H.
  - right. split; [reflexivity|apply string_ltb_leb, H].
  - left. split; reflexivity.
  - discriminate.
  - right. split; [reflexivity|apply string_ltb_leb, H].
Qed.

Lemma StronglySorted_weaken {A} (R R' : A -> A -> Prop) (l : list A) :
  (forall x y, In x l -> In y l -> R x y -> R' x y) ->
  StronglySorted R l -> StronglySorted R' l.
Proof.
  intros W SS. induction SS as [|x l SS IH F]; constructor.
  - apply IH. intros a b Ha Hb. apply W; right; assumption.
  - rewrite List.Forall_forall in *. intros y Hy.
    apply W; [left; reflexivity|right; exact Hy|apply F, Hy].
Qed.

(** ** Running the methods *)

Lemma extends_refl st : extends st st.
Proof. split; done. Qed.

Lemma extends_trans st1 st2 st3 :
  extends st1 st2 -> extends st2 st3 -> extends st1 st3.
Proof.
  intros [C1 U1] [C2 U2]. split; [by etrans|congruence].
Qed.

Lemma scored_extends query urls st st' x :
  extends st st' -> scored query urls st x -> scored query urls st' x.
Proof.
  intros [C _] (I & p & L & H). split; [exact I|].
  exists p. split; [|exact H]. eapply lookup_weaken; eassumption.
Qed.

Lemma bind_ok {A B} (m : M A) (k : A -> M B) st a st' :
  m st = (Ok a, st') -> bind m k st = k a st'.
Proof. unfold bind. intros ->. reflexivity. Qed.

Lemma try_except_ok {A} (m : M A) h st a st' :
  m st = (Ok a, st') -> try_except m h st = (Ok a, st').
Proof. unfold try_except. intros ->. reflexivity. Qed.

(** A loop whose body keeps an invariant and does not raise keeps the
    invariant and does not raise. *)
Lemma for_each_inv {A S} (P : S -> analyzer -> Prop) (xs : list A)
  (body : A -> S -> M S) :
  (forall x acc st, In x xs -> P acc st ->
     exists acc' st', body x acc st = (Ok acc', st') /\ P acc' st') ->
  forall acc st, P acc st ->
  exists acc' st', for_each xs body acc st = (Ok acc', st') /\ P acc' st'.
Proof.
  induction xs as [|x xs IH]; intros Hbody acc st HP.
  - exists acc, st. split; [reflexivity|exact HP].
  - destruct (Hbody x acc st (or_introl eq_refl) HP) as (acc1 & st1 & E1 & P1).
    destruct (IH (fun y a s H => Hbody y a s (or_intror H)) acc1 st1 P1)
      as (acc2 & st2 & E2 & P2).
    exists acc2, st2. split; [|exact P2].
    cbn [for_each]. rewrite (bind_ok _ _ _ _ _ E1). exact E2.
Qed.

Section Methods.

Variable http_get : nat -> string -> http_reply.
Variable loop_time : nat -> PyFloat.float.
Variable set_iter : list string -> list string.

Local Abbreviation fetch := (fetch_web_content http_get loop_time).
Local Abbreviation guidance := (get_official_guidance http_get loop_time).
Local Abbreviation analyze := (analyze_content http_get loop_time set_iter).
Local Abbreviation search := (search_style_guide_live http_get loop_time).

Lemma fetch_extends url st :
  exists r st', fetch url st = (Ok r, st') /\ extends st st' /\
    (forall p, r = Fetched p -> content_cache st' !! url = Some (Fetched p)).
Proof.
  destruct (fetch_total http_get loop_time url st) as (r & st' & E).
  exists r, st'. split; [exact E|].
  destruct (fetch_effect _ _ _ _ _ _ E) as (C & U & F).
  repeat split; assumption.
Qed.

Lemma event_loop_time_extends st :
  extends st (snd (event_loop_time loop_time st)).
Proof. split; done. Qed.

(** [get_official_guidance] returns, and only adds to the cache. *)
Lemma guidance_extends topic st :
  exists g st', guidance topic st = (Ok g, st') /\ extends st st'.
Proof.
  unfold get_official_guidance.
  destruct (for_each_inv (fun _ s => extends st s)
              (firstn 3 (relevant_sections topic (core_urls st)))
              (guidance_step http_get loop_time (core_urls st)))
    with (acc := @nil guidance_item) (st := st)
    as (items & st1 & E1 & X1).
  - intros section acc s _ Hs. unfold guidance_step.
    destruct (dict_get section (core_urls st)) as [url|];
      [|exists acc, s; split; [reflexivity|exact Hs]].
    destruct (fetch_extends url s) as (r & s' & E & X & _).
    rewrite (bind_ok _ _ _ _ _ E).
    destruct r; eexists _, s'; (split; [reflexivity|]);
      eapply extends_trans; eassumption.
  - apply extends_refl.
  - eexists _, _. split.
    + apply try_except_ok. unfold bind at 1, gets at 1.
      rewrite (bind_ok _ _ _ _ _ E1). reflexivity.
    + cbn [snd]. eapply extends_trans; [exact X1|].
      apply event_loop_time_extends.
Qed.

(** The guidance loop returns; it only adds to the cache, and it
    stores guidance under the topics it was given, each once. *)
Lemma collect_guidance_spec topics :
  forall lg st,
  exists lg' st',
    collect_guidance http_get loop_time topics lg st = (Ok lg', st') /\
    extends st st' /\
    (forall k, In k (map fst lg') -> In k (map fst lg) \/ In k topics) /\
    (List.NoDup (map fst lg) -> List.NoDup (map fst lg')).
Proof.
  induction topics as [|t topics IH]; intros lg st.
  - exists lg, st.
    split; [reflexivity|]. split; [apply extends_refl|]. split; tauto.
  - cbn [collect_guidance].
    destruct (guidance_extends t st) as (g & st1 & E & X). rewrite E.
    destruct (gr_guidance g) as [|first more].
    + destruct (IH lg st1) as (lg' & st' & E' & X' & K & N).
      exists lg', st'. split; [exact E'|].
      split; [eapply extends_trans; eassumption|]. split; [|exact N].
      intros k Hk. destruct (K k Hk); [left|right; right]; assumption.
    + destruct (IH (dict_set t first lg) st1) as (lg' & st' & E' & X' & K & N).
      exists lg', st'. split; [exact E'|].
      split; [eapply extends_trans; eassumption|]. split.
      * intros k Hk. destruct (K k Hk) as [H|H]; [|right; right; exact H].
        apply dict_set_keys_in in H. destruct H; [left|right; left]; auto.
      * intros Hn. apply N, dict_set_keys_nodup, Hn.
Qed.

(** [analyze_content] returns; its issues and statistics are those of
    the pattern passes over the text. *)
Lemma analyze_run text analysis_type st :
  let issues := local_issues analysis_type (Text.chars text) in
  exists lg st1,
    analyze text analysis_type st =
      (Ok (Analysis (fst (assess (length issues)))
             (snd (assess (length issues)))
             (text_statistics (Text.chars text)) issues
             (local_suggestions (Text.chars text)) (length issues)
             analysis_type lg (loop_time (clock_reads st1))),
       snd (event_loop_time loop_time st1)) /\
    extends st st1 /\
    incl (map fst lg) (guidance_topics set_iter issues) /\
    List.NoDup (map fst lg) /\
    collect_guidance http_get loop_time (guidance_topics set_iter issues)
      [] st = (Ok lg, st1).
Proof.
  intros issues. unfold analyze_content. fold issues.
  destruct (collect_guidance_spec (guidance_topics set_iter issues) [] st)
    as (lg & st1 & E & X & K & N).
  exists lg, st1. split; [|split; [exact X|split; [|split; [|exact E]]]].
  - rewrite (bind_ok _ _ _ _ _ E). reflexivity.
  - intros k Hk. destruct (K k Hk) as [[]|H]. exact H.
  - apply N. constructor.
Qed.

Lemma search_step_spec query urls st0 su acc st :
  In su urls -> extends st0 st ->
  Forall (scored query urls st) acc ->
  exists acc' st',
    search_step http_get loop_time (terms_of query) su acc st = (Ok acc', st')
    /\ extends st0 st' /\ Forall (scored query urls st') acc'.
Proof.
  intros I X F. destruct su as [section url]. unfold search_step.
  destruct (fetch_extends url st) as (r & st' & E & X' & C).
  rewrite (bind_ok _ _ _ _ _ E).
  assert (F' : Forall (scored query urls st') acc).
  { revert F. apply List.Forall_impl. intros x. apply scored_extends, X'. }
  assert (X0 : extends st0 st') by (eapply extends_trans; eassumption).
  destruct r as [p|e u]; [|exists acc, st'; auto].
  fold (hits_of query p).
  destruct (0 <? hits_of query p) eqn:H; [|exists acc, st'; auto].
  eexists _, st'. split; [reflexivity|]. split; [exact X0|].
  apply Forall_app. split; [exact F'|].
  constructor; [|constructor].
  split; [exact I|]. exists p. cbn [r_url r_relevance].
  split; [apply C; reflexivity|].
  split; [apply Nat.ltb_lt, H|reflexivity].
Qed.

(** [search_style_guide_live] returns: it sorts the sections found and
    keeps the first five. *)
Lemma search_run query st :
  exists found st1,
    search query st =
      (Ok (SearchResponse query None
             (firstn 5 (sort_reverse sort_key found))
             (Some (length found)) (Some (loop_time (clock_reads st1)))),
       snd (event_loop_time loop_time st1)) /\
    extends st st1 /\
    Forall (scored query (core_urls st) st1) found.
Proof.
  destruct (for_each_inv
              (fun acc s => extends st s /\
                            Forall (scored query (core_urls st) s) acc)
              (core_urls st)
              (search_step http_get loop_time (terms_of query)))
    with (acc := @nil search_result) (st := st)
    as (found & st1 & E & X & F).
  - intros su acc s I [X F].
    destruct (search_step_spec query (core_urls st) st su acc s I X F)
      as (acc' & s' & E & X' & F').
    exists acc', s'. auto.
  - split; [apply extends_refl|constructor].
  - exists found, st1. split; [|split; assumption].
    unfold search_style_guide_live. apply try_except_ok.
    unfold bind at 1, gets at 1. fold (terms_of query).
    rewrite (bind_ok _ _ _ _ _ E). reflexivity.
Qed.

(** *** The search *)

Lemma search_results_scored query st :
  exists resp st',
    search query st = (Ok resp, st') /\
    Forall (scored query (core_urls st) st') (q_results resp).
Proof.
  destruct (search_run query st) as (found & st1 & E & X & F).
  eexists _, _. split; [exact E|]. cbn [q_results].
  rewrite List.Forall_forall in *. intros x Hx. apply F.
  eapply Permutation_in; [apply sort_reverse_perm|].
  eapply firstn_incl, Hx.
Qed.

(** C1: for every query and every catalog [search_style_guide_live]
    returns; each result is a section of the catalog whose cached page
    contains at least one query token (a section scoring 0 is left
    out); every "high" result stands before every "medium" one, and
    results of the same relevance are in descending order of their
    section identifier; there are at most five results. *)
Theorem search_results_ranked query st :
  exists resp st',
    search_style_guide_live http_get loop_time query st = (Ok resp, st') /\
    Forall (scored query (core_urls st) st') (q_results resp) /\
    StronglySorted ranked_before (q_results resp) /\
    length (q_results resp) <= 5 /\
    q_error resp = None.
Proof.
  destruct (search_run query st) as (found & st1 & E & X & F).
  destruct (search_results_scored query st) as (resp & st' & E' & Fs).
  rewrite E in E'. inversion E'; subst resp st'. clear E'.
  eexists _, _. split; [exact E|]. cbn [q_results] in *.
  split; [exact Fs|]. split.
  - eapply StronglySorted_weaken;
      [|apply firstn_sorted, sort_reverse_sorted].
    rewrite List.Forall_forall in Fs.
    intros x y Hx Hy. apply not_below_ranked.
    + destruct (Fs x Hx) as (_ & p & _ & _ & ->).
      apply relevance_label_cases.
    + destruct (Fs y Hy) as (_ & p & _ & _ & ->).
      apply relevance_label_cases.
  - split; [rewrite length_firstn; lia|reflexivity].
Qed.

(** C10: when the query is a single token, every result of
    [search_style_guide_live] has relevance "high", none "medium". *)
Theorem single_token_results_high query st :
  length (terms_of query) = 1 ->
  exists resp st',
    search_style_guide_live http_get loop_time query st = (Ok resp, st') /\
    Forall (fun x => r_relevance x = "high" /\ r_relevance x <> "medium")
      (q_results resp).
Proof.
  intros L.
  destruct (search_results_scored query st) as (resp & st' & E & F).
  exists resp, st'. split; [exact E|].
  revert F. apply List.Forall_impl.
  intros x (_ & p & _ & _ & R). rewrite L in R.
  unfold relevance_label in R. cbn in R. rewrite R.
  split; [reflexivity|discriminate].
Qed.

(** *** The cache *)

Local Abbreviation calls := (run_calls http_get loop_time set_iter).

Lemma run_call_extends c st :
  extends st (run_call http_get loop_time set_iter c st).
Proof.
  destruct c as [url|topic|text analysis_type|text focus_area|query|];
    cbn [run_call].
  - destruct (fetch_extends url st) as (r & st' & E & X & _).
    rewrite E. exact X.
  - destruct (guidance_extends topic st) as (g & st' & E & X).
    rewrite E. exact X.
  - destruct (analyze_run text analysis_type st) as (lg & st1 & E & X & _).
    rewrite E. cbn [snd]. eapply extends_trans; [exact X|].
    apply event_loop_time_extends.
  - destruct (analyze_run text "comprehensive" st) as (lg & st1 & E & X & _).
    unfold suggest_improvements. rewrite (bind_ok _ _ _ _ _ E).
    cbn [ret snd]. eapply extends_trans; [exact X|].
    apply event_loop_time_extends.
  - destruct (search_run query st) as (found & st1 & E & X & _).
    rewrite E. cbn [snd]. eapply extends_trans; [exact X|].
    apply event_loop_time_extends.
  - split; done.
Qed.

Lemma run_calls_extends cs : forall st, extends st (calls cs st).
Proof.
  induction cs as [|c cs IH]; intros st; [apply extends_refl|].
  cbn [run_calls fold_left]. eapply extends_trans; [|apply IH].
  apply run_call_extends.
Qed.

(** C7: once a fetch of [url] has succeeded, then after any further
    calls of the analyzer's methods a fetch of [url] returns the very
    page of the first fetch, whatever the clock reads, and leaves the
    analyzer as it is: no request goes out and the clock is not read. *)
Theorem fetch_again_returns_cached url st p st1 cs :
  fetch_web_content http_get loop_time url st = (Ok (Fetched p), st1) ->
  fetch_web_content http_get loop_time url
    (run_calls http_get loop_time set_iter cs st1)
  = (Ok (Fetched p), run_calls http_get loop_time set_iter cs st1) /\
  requests
    (snd (fetch_web_content http_get loop_time url
            (run_calls http_get loop_time set_iter cs st1)))
  = requests (run_calls http_get loop_time set_iter cs st1).
Proof.
  intros E.
  destruct (fetch_effect _ _ _ _ _ _ E) as (_ & _ & C).
  specialize (C p eq_refl).
  destruct (run_calls_extends cs st1) as [S _].
  pose proof (lookup_weaken _ _ _ _ C S) as C2.
  pose proof (fetch_cases http_get loop_time url (calls cs st1)) as H.
  rewrite C2 in H. rewrite H. split; reflexivity.
Qed.

(** C8: [fetch_web_content] always returns a mapping.  On a cache miss
    a response with a status other than 200 gives the failure
    "HTTP <status>", an exception gives the failure with its message,
    and a readable 200 response gives a success that is stored under
    [url].  A failure leaves the cache as it was; the cache changes
    only by storing a success under [url]. *)
Theorem fetch_failures_are_data url st :
  exists r st',
    fetch_web_content http_get loop_time url st = (Ok r, st') /\
    (content_cache st !! url = None ->
     match http_get (length (requests st)) url with
     | Reply status text =>
         if (status =? 200)%Z then
           match text with
           | inl _ =>
               success r = true /\
               content_cache st' = <[url := r]> (content_cache st)
           | inr msg =>
               r = FetchFailed msg url /\
               content_cache st' = content_cache st
           end
         else
           r = FetchFailed ("HTTP " +:+ Text.of_Z status) url /\
           content_cache st' = content_cache st
     | NoReply msg =>
         r = FetchFailed msg url /\ content_cache st' = content_cache st
     end) /\
    (success r = false -> content_cache st' = content_cache st) /\
    (content_cache st' <> content_cache st ->
     success r = true /\
     content_cache st' = <[url := r]> (content_cache st)).
Proof.
  pose proof (fetch_cases http_get loop_time url st) as H.
  destruct (content_cache st !! url) as [cached|] eqn:C.
  { exists cached, st. split; [exact H|]. split; [discriminate|].
    split; [reflexivity|]. intros N. destruct N. reflexivity. }
  destruct (http_get (length (requests st)) url) as [status text|msg].
  - destruct (status =? 200)%Z.
    + destruct text as [content|msg]; eexists _, _; (split; [exact H|]).
      * split; [intros _; split; reflexivity|].
        split; [discriminate|]. intros _. split; reflexivity.
      * split; [intros _; split; reflexivity|].
        split; [reflexivity|]. intros N. destruct N. reflexivity.
    + eexists _, _. split; [exact H|].
      split; [intros _; split; reflexivity|].
      split; [reflexivity|]. intros N. destruct N. reflexivity.
  - eexists _, _. split; [exact H|].
    split; [intros _; split; reflexivity|].
    split; [reflexivity|]. intros N. destruct N. reflexivity.
Qed.

(** *** The analysis *)

(** C2: [analyze_content] returns for every text and analysis type,
    and its status is the "Excellent" label when there is no issue,
    the "Good" label when there are one or two, and the "Needs Work"
    label when there are three or more.  (Each label starts with its
    pictograph.) *)
Theorem status_follows_issue_count text analysis_type st :
  exists a st',
    analyze_content http_get loop_time set_iter text analysis_type st
      = (Ok a, st') /\
    a_total_issues a = length (a_issues a) /\
    (length (a_issues a) = 0 -> a_status a = "✅ Excellent") /\
    (1 <= length (a_issues a) <= 2 -> a_status a = "⚠️ Good") /\
    (3 <= length (a_issues a) -> a_status a = "❌ Needs Work").
Proof.
  destruct (analyze_run text analysis_type st) as (lg & st1 & E & _).
  eexists _, _. split; [exact E|]. cbn [a_total_issues a_issues a_status].
  split; [reflexivity|]. unfold assess.
  destruct (length (local_issues analysis_type (Text.chars text)))
    as [|[|[|n]]]; cbn; repeat split; intros; try reflexivity; lia.
Qed.

(** C4: whatever the analysis type, a text without a contraction gets
    exactly one voice_tone issue, the info-severity one recommending
    contractions, and no praise for contractions; a text with [n > 0]
    contractions gets the praise for [n] contractions and no
    voice_tone issue. *)
Theorem contractions_issue_or_praise text analysis_type st :
  exists a st',
    analyze_content http_get loop_time set_iter text analysis_type st
      = (Ok a, st') /\
    (contractions_found text = 0 ->
     of_type "voice_tone" (a_issues a) = [contraction_issue] /\
     i_severity contraction_issue = "info" /\
     forall n, ~ In (contraction_praise n) (a_suggestions a)) /\
    (0 < contractions_found text ->
     of_type "voice_tone" (a_issues a) = [] /\
     In (contraction_praise (contractions_found text)) (a_suggestions a)).
Proof.
  destruct (analyze_run text analysis_type st) as (lg & st1 & E & _).
  eexists _, _. split; [exact E|]. cbn [a_issues a_suggestions].
  rewrite voice_tone_issues. unfold local_suggestions.
  fold (contractions_found text). split.
  - intros ->. cbn [Nat.ltb Nat.leb app]. repeat split.
    intros n. unfold contraction_praise.
    destruct (length (Re.finditer true Patterns.you_addressing _));
      [intros []|].
    intros [H|[]]. discriminate.
  - intros H. apply Nat.ltb_lt in H. rewrite H. split; [reflexivity|].
    left. reflexivity.
Qed.

(** C9: an analysis type other than comprehensive, grammar,
    terminology and accessibility is not rejected: [analyze_content]
    returns, only the positive-signal pass has run, so the issues are
    at most the one recommending contractions, and the status is not
    the "Needs Work" label. *)
Theorem other_types_run_signal_pass_only text analysis_type st :
  ~ In analysis_type
      ["comprehensive"; "grammar"; "terminology"; "accessibility"] ->
  exists a st',
    analyze_content http_get loop_time set_iter text analysis_type st
      = (Ok a, st') /\
    a_issues a =
      (if 0 <? contractions_found text then [] else [contraction_issue]) /\
    length (a_issues a) <= 1 /\
    a_status a <> "❌ Needs Work" /\
    (a_status a = "✅ Excellent" \/ a_status a = "⚠️ Good").
Proof.
  intros N.
  assert (M : forall l, incl l ["comprehensive"; "grammar"; "terminology";
                                "accessibility"] ->
              mem analysis_type l = false).
  { intros l Hl. destruct (mem analysis_type l) eqn:E; [|reflexivity].
    apply mem_In in E. destruct N. apply Hl, E. }
  destruct (analyze_run text analysis_type st) as (lg & st1 & E & _).
  eexists _, _. split; [exact E|]. cbn [a_issues a_status].
  assert (L : local_issues analysis_type (Text.chars text) =
              if 0 <? contractions_found text then []
              else [contraction_issue]).
  { unfold local_issues, grammar_issues, terminology_issues,
      accessibility_issues. fold (contractions_found text).
    rewrite !M by (intros x; simpl; tauto).
    rewrite !app_nil_r. reflexivity. }
  rewrite L. destruct (0 <? contractions_found text); cbn;
    repeat split; try lia; try discriminate; auto.
Qed.

(** C6: for the text "Please e-mail support for login help.", under
    the comprehensive and under the terminology analysis type, the
    terminology issues are exactly two: "email" instead of "e-mail",
    then the sign-in standard instead of "login". *)
Theorem terminology_of_email_login st :
  (exists a st',
     analyze_content http_get loop_time set_iter
       "Please e-mail support for login help." "comprehensive" st
       = (Ok a, st') /\
     of_type "terminology" (a_issues a) = [email_issue; sign_in_issue]) /\
  (exists a st',
     analyze_content http_get loop_time set_iter
       "Please e-mail support for login help." "terminology" st
       = (Ok a, st') /\
     of_type "terminology" (a_issues a) = [email_issue; sign_in_issue]).
Proof.
  split.
  - destruct (analyze_run "Please e-mail support for login help."
                "comprehensive" st) as (lg & st1 & E & _).
    eexists _, _. split; [exact E|]. vm_compute. reflexivity.
  - destruct (analyze_run "Please e-mail support for login help."
                "terminology" st) as (lg & st1 & E & _).
    eexists _, _. split; [exact E|]. vm_compute. reflexivity.
Qed.

(** C5, amended: [word_count] is the number of maximal runs of
    characters other than white space; [sentence_count] is the number
    of spans between runs of '.', '!', '?' that hold a character other
    than white space (an empty or blank span is not counted);
    [avg_words_per_sentence] is [round(word_count / max(1,
    sentence_count), 1)]; for "Hello world. Hi." they are 3, 2 and
    1.5.  The characters are the code points of the text and the white
    space is Unicode's, as for [str.split] and [str.strip]. *)
Theorem statistics_of_text text analysis_type st :
  exists a st',
    analyze_content http_get loop_time set_iter text analysis_type st
      = (Ok a, st') /\
    word_count (a_statistics a)
      = Spans.word_starts true (Utf8.decode (Text.chars text)) /\
    sentence_count (a_statistics a) =
      length (List.filter (fun s => Spans.visible (Utf8.decode s))
                (Spans.spans (Text.chars text))) /\
    avg_words_per_sentence (a_statistics a) =
      PyFloat.round1
        (PyFloat.truediv (word_count (a_statistics a))
           (Nat.max 1 (sentence_count (a_statistics a)))) /\
    (text = "Hello world. Hi." ->
     a_statistics a = Statistics 3 2 1.5%float).
Proof.
  destruct (analyze_run text analysis_type st) as (lg & st1 & E & _).
  eexists _, _. split; [exact E|]. cbn [a_statistics].
  unfold text_statistics.
  cbn [word_count sentence_count avg_words_per_sentence].
  split; [apply (uni_split_ws_length [])|].
  split.
  - unfold sentences. rewrite re_split_sentence_end. f_equal.
    apply filter_ext. intros s. apply uni_strip_truthy.
  - split; [reflexivity|]. intros ->. vm_compute. reflexivity.
Qed.

(** *** Which categories get guidance *)

Lemma collect_guidance_state topics :
  forall lg st,
  snd (collect_guidance http_get loop_time topics lg st)
  = lookups http_get loop_time topics st.
Proof.
  induction topics as [|t topics IH]; intros lg st; [reflexivity|].
  cbn [collect_guidance lookups fold_left].
  destruct (guidance_extends t st) as (g & st1 & E & _). rewrite E.
  cbn [snd]. destruct (gr_guidance g); apply IH.
Qed.

(** C3, amended: guidance is looked up for the categories
    [guidance_topics] selects and for no other.  They are distinct
    categories of the issues, min(2, number of distinct categories)
    of them (so at least one when there is an issue, and all of them
    when there are at most two), taken in the iteration order of the
    set of categories, of which only "every element once" is assumed.
    At most one guidance item is attached per looked-up category. *)
Theorem guidance_for_at_most_two_categories text analysis_type st :
  set_order_ok set_iter ->
  exists a st',
    analyze_content http_get loop_time set_iter text analysis_type st
      = (Ok a, st') /\
    st' = snd (event_loop_time loop_time
                 (lookups http_get loop_time
                    (guidance_topics set_iter (a_issues a)) st)) /\
    List.NoDup (guidance_topics set_iter (a_issues a)) /\
    incl (guidance_topics set_iter (a_issues a))
      (first_seen (map i_type (a_issues a))) /\
    length (guidance_topics set_iter (a_issues a)) =
      Nat.min 2 (length (first_seen (map i_type (a_issues a)))) /\
    incl (map fst (a_live_guidance a))
      (guidance_topics set_iter (a_issues a)) /\
    List.NoDup (map fst (a_live_guidance a)).
Proof.
  intros OK.
  destruct (analyze_run text analysis_type st)
    as (lg & st1 & E & _ & K & N & C).
  eexists _, _. split; [exact E|]. cbn [a_issues a_live_guidance].
  set (issues := local_issues analysis_type (Text.chars text)) in *.
  split.
  { rewrite <- (collect_guidance_state _ []), C. reflexivity. }
  assert (T : guidance_topics set_iter issues =
              firstn 2 (set_iter (map i_type issues)) \/
              (issues = [] /\ guidance_topics set_iter issues = [])).
  { unfold guidance_topics. destruct issues; [right|left]; auto. }
  split; [|split; [|split; [|split; [exact K|exact N]]]].
  - destruct T as [->|[_ ->]]; [|constructor].
    destruct (OK (map i_type issues)) as [D _].
    rewrite <- (firstn_skipn 2) in D. eapply List.NoDup_app_remove_r, D.
  - destruct T as [->|[_ ->]]; [|intros x []].
    intros x Hx. apply firstn_incl in Hx.
    apply (first_seen_ok (map i_type issues)).
    apply (OK (map i_type issues)), Hx.
  - destruct T as [->|[-> ->]]; [|reflexivity].
    rewrite length_firstn, (set_order_length _ _ OK). reflexivity.
Qed.

End Methods.

(** ** Concrete runs *)

Lemma latest_first_ok : set_order_ok latest_first.
Proof.
  intros l. destruct (first_seen_ok l) as [N I]. split.
  - apply List.NoDup_rev, N.
  - intros x. unfold latest_first. rewrite <- in_rev. apply I.
Qed.

(** C5 as stated fails: the claim's own text followed by a blank has
    three non-empty spans ("Hello world", " Hi", " "), but
    [sentence_count] is 2, because the blank span is dropped. *)
Lemma blank_span_is_not_counted :
  ~ (forall http_get loop_time set_iter text analysis_type st a st',
       analyze_content http_get loop_time set_iter text analysis_type st
         = (Ok a, st') ->
       sentence_count (a_statistics a) =
       length (List.filter Spans.non_empty
                 (Spans.spans (Text.chars text)))).
Proof.
  intros H.
  destruct (analyze_run offline ticks latest_first "Hello world. Hi. "
              "comprehensive" init) as (lg & st1 & E & _).
  specialize (H _ _ _ _ _ _ _ _ E).
  cbn [a_statistics] in H. vm_compute in H. discriminate H.
Qed.

(** C3 as stated fails: with the categories voice_tone, grammar and
    accessibility first seen in that order, a set that iterates
    accessibility first makes the analyzer look up accessibility and
    grammar, not voice_tone and grammar. *)
Lemma guidance_topics_not_first_seen :
  ~ (forall http_get loop_time set_iter,
       set_order_ok set_iter ->
       forall text analysis_type st a st',
       analyze_content http_get loop_time set_iter text analysis_type st
         = (Ok a, st') ->
       a_issues a <> [] ->
       guidance_topics set_iter (a_issues a) =
       firstn 2 (first_seen (map i_type (a_issues a)))).
Proof.
  intros H.
  destruct (analyze_run online ticks latest_first
              "The file was saved by the guys." "comprehensive" init)
    as (lg & st1 & E & _).
  specialize (H online ticks latest_first latest_first_ok _ _ _ _ _ E).
  cbn [a_issues] in H. vm_compute in H.
  assert (F : @eq (list string) ["accessibility"; "grammar"]
                ["voice_tone"; "grammar"]).
  { apply H. discriminate. }
  discriminate F.
Qed.

Example guidance_under_latest_first :
  match analyze_content online ticks latest_first
          "The file was saved by the guys." "comprehensive" init with
  | (Ok a, _) =>
      map i_type (a_issues a) = ["voice_tone"; "grammar"; "accessibility"]
      /\ map fst (a_live_guidance a) = ["accessibility"; "grammar"]
  | _ => False
  end.
Proof. vm_compute. split; reflexivity. Qed.

Lemma single_token_results_high_witness :
  length (terms_of "bias") = 1 /\
  exists resp st',
    search_style_guide_live online ticks "bias" init = (Ok resp, st') /\
    Forall (fun x => r_relevance x = "high" /\ r_relevance x <> "medium")
      (q_results resp).
Proof.
  split; [reflexivity|].
  apply (single_token_results_high online ticks "bias" init).
  reflexivity.
Defined.

Lemma fetch_again_returns_cached_witness :
  exists p st1,
    fetch_web_content online ticks welcome_url init = (Ok (Fetched p), st1) /\
    let st2 :=
      run_calls online ticks latest_first
        [CallSearch "bias"; CallAnalyze "Hey guys" "comprehensive";
         CallClose; CallSuggest "The file was saved." "grammar";
         CallGuidance "tone"; CallFetch welcome_url] st1 in
    fetch_web_content online ticks welcome_url st2 = (Ok (Fetched p), st2) /\
    requests (snd (fetch_web_content online ticks welcome_url st2))
      = requests st2.
Proof.
  eexists _, _. split; [vm_compute; reflexivity|].
  apply (fetch_again_returns_cached online ticks latest_first welcome_url
           init).
  vm_compute. reflexivity.
Defined.

Lemma other_types_run_signal_pass_only_witness :
  ~ In "voice_tone"
      ["comprehensive"; "grammar"; "terminology"; "accessibility"] /\
  exists a st',
    analyze_content offline ticks latest_first
      "The file was saved by the guys." "voice_tone" init = (Ok a, st') /\
    a_issues a =
      (if 0 <? contractions_found "The file was saved by the guys."
       then [] else [contraction_issue]) /\
    length (a_issues a) <= 1 /\
    a_status a <> "❌ Needs Work" /\
    (a_status a = "✅ Excellent" \/ a_status a = "⚠️ Good").
Proof.
  assert (N : ~ In "voice_tone"
                ["comprehensive"; "grammar"; "terminology"; "accessibility"]).
  { simpl. intros [H|[H|[H|[H|[]]]]]; discriminate H. }
  split; [exact N|].
  apply (other_types_run_signal_pass_only offline ticks latest_first
           "The file was saved by the guys." "voice_tone" init N).
Defined.

Lemma guidance_for_at_most_two_categories_witness :
  set_order_ok latest_first /\
  exists a st',
    analyze_content online ticks latest_first
      "The file was saved by the guys." "comprehensive" init = (Ok a, st') /\
    st' = snd (event_loop_time ticks
                 (lookups online ticks
                    (guidance_topics latest_first (a_issues a)) init)) /\
    List.NoDup (guidance_topics latest_first (a_issues a)) /\
    incl (guidance_topics latest_first (a_issues a))
      (first_seen (map i_type (a_issues a))) /\
    length (guidance_topics latest_first (a_issues a)) =
      Nat.min 2 (length (first_seen (map i_type (a_issues a)))) /\
    incl (map fst (a_live_guidance a))
      (guidance_topics latest_first (a_issues a)) /\
    List.NoDup (map fst (a_live_guidance a)).
Proof.
  split; [exact latest_first_ok|].
  apply (guidance_for_at_most_two_categories online ticks latest_first
           "The file was saved by the guys." "comprehensive" init
           latest_first_ok).
Defined.

(** The three status labels are reached, and the other examples of
    the specification. *)
Example status_labels :
  map (fun ta =>
         match analyze_content offline ticks first_seen (fst ta) (snd ta) init
         with
         | (Ok a, _) => (length (a_issues a), a_status a)
         | _ => (0, "")
         end)
    [("It's done.", "comprehensive");
     ("Please e-mail support for login help.", "voice_tone");
     ("Please e-mail support.", "terminology");
     ("Please e-mail support for login help.", "terminology")]
  = [(0, "✅ Excellent"); (1, "⚠️ Good"); (2, "⚠️ Good");
     (3, "❌ Needs Work")].
Proof. vm_compute. reflexivity. Qed.

Example passive_voice_example :
  map (fun i => (i_position i, i_text i))
    (of_type "grammar"
       (local_issues "grammar" (Text.chars "The document was reviewed.")))
  = [(Some 13, Some "was reviewed")].
Proof. vm_compute. reflexivity. Qed.

Example accessibility_example :
  map (fun i => (i_severity i, i_text i))
    (of_type "accessibility"
       (local_issues "accessibility"
          (Text.chars "Hey guys, check the blacklist.")))
  = [("error", Some "guys"); ("error", Some "blacklist")].
Proof. vm_compute. reflexivity. Qed.

Example http_404_example :
  fst (fetch_web_content (fun _ _ => Reply 404 (inl "Not Found")) ticks
         welcome_url init)
  = Ok (FetchFailed "HTTP 404" welcome_url).
Proof. vm_compute. reflexivity. Qed.

Example search_example :
  match search_style_guide_live online ticks "bias inclusive" init with
  | (Ok resp, _) =>
      (map (fun x => (r_relevance x, r_section x)) (q_results resp),
       q_total_found resp)
      = ([("high", "writing_tips"); ("high", "word_list");
          ("high", "welcome"); ("high", "voice_tone");
          ("high", "top_tips")], Some 6)
  | _ => False
  end.
Proof. vm_compute. reflexivity. Qed.

(** * Further properties *)

(** ** Requests and the cache across calls *)

Lemma str_length l : String.length (Text.str l) = length l.
Proof.
  induction l as [|c l IH]; simpl; [reflexivity|]. f_equal. exact IH.
Qed.

Lemma chars_str l : Text.chars (Text.str l) = l.
Proof. apply list_ascii_of_string_of_list_ascii. Qed.

Lemma str_chars s : Text.str (Text.chars s) = s.
Proof. apply string_of_list_ascii_of_string. Qed.

Lemma requests_within_refl urls st : requests_within urls 0 st st.
Proof.
  split; [apply extends_refl|]. exists []. repeat split; auto.
Qed.

Lemma requests_within_le urls n m st st' :
  n <= m -> requests_within urls n st st' -> requests_within urls m st st'.
Proof.
  intros L (X & new & E & B & F). split; [exact X|].
  exists new. repeat split; auto. lia.
Qed.

Lemma requests_within_trans urls n1 n2 st1 st2 st3 :
  requests_within urls n1 st1 st2 -> requests_within urls n2 st2 st3 ->
  requests_within urls (n1 + n2) st1 st3.
Proof.
  intros (X1 & new1 & E1 & B1 & F1) (X2 & new2 & E2 & B2 & F2).
  split; [eapply extends_trans; eassumption|].
  exists (new2 ++ new1). split; [rewrite E2, E1, app_assoc; reflexivity|].
  split; [rewrite length_app; lia|].
  apply Forall_app. split; [|exact F1].
  revert F2. apply List.Forall_impl. intros u [I C]. split; [exact I|].
  destruct X1 as [S _].
  destruct (content_cache st1 !! u) as [r|] eqn:C1; [|reflexivity].
  rewrite (lookup_weaken _ _ _ _ C1 S) in C. discriminate.
Qed.

Section Accounting.

Variable http_get : nat -> string -> http_reply.
Variable loop_time : nat -> PyFloat.float.
Variable set_iter : list string -> list string.

Lemma fetch_requests urls url st :
  In url urls ->
  exists r st',
    fetch_web_content http_get loop_time url st = (Ok r, st') /\
    requests_within urls 1 st st' /\
    (forall p, r = Fetched p -> content_cache st' !! url = Some (Fetched p)).
Proof.
  intros I.
  destruct (fetch_extends http_get loop_time url st) as (r & st' & E & X & C).
  exists r, st'. split; [exact E|]. split; [|exact C].
  split; [exact X|].
  pose proof (fetch_cases http_get loop_time url st) as H.
  destruct (content_cache st !! url) as [cached|] eqn:L.
  { rewrite H in E. inversion E; subst. exists []. repeat split; auto. }
  assert (G : requests st' = [url] ++ requests st).
  { destruct (http_get _ url) as [status text|msg].
    - destruct (status =? 200)%Z; [destruct text|];
        rewrite H in E; inversion E; reflexivity.
    - rewrite H in E. inversion E; reflexivity. }
  exists [url]. split; [exact G|]. split; [simpl; lia|].
  constructor; [split; assumption|constructor].
Qed.

Lemma event_loop_time_requests urls st :
  requests_within urls 0 st (snd (event_loop_time loop_time st)).
Proof.
  split; [apply event_loop_time_extends|]. exists []. repeat split; auto.
Qed.

(** A loop whose body sends at most one GET sends at most one per
    element. *)
Lemma for_each_requests {A S} urls (xs : list A) (body : A -> S -> M S) :
  (forall x acc st, In x xs ->
     exists acc' st', body x acc st = (Ok acc', st') /\
                      requests_within urls 1 st st') ->
  forall acc st,
  exists acc' st',
    for_each xs body acc st = (Ok acc', st') /\
    requests_within urls (length xs) st st'.
Proof.
  induction xs as [|x xs IH]; intros Hbody acc st.
  - exists acc, st. split; [reflexivity|apply requests_within_refl].
  - destruct (Hbody x acc st (or_introl eq_refl)) as (acc1 & st1 & E1 & R1).
    destruct (IH (fun y a s H => Hbody y a s (or_intror H)) acc1 st1)
      as (acc2 & st2 & E2 & R2).
    exists acc2, st2. split.
    + cbn [for_each]. rewrite (bind_ok _ _ _ _ _ E1). exact E2.
    + apply (requests_within_trans _ 1 (length xs) _ _ _ R1 R2).
Qed.

Lemma dict_get_In {V} k (d : list (string * V)) v :
  dict_get k d = Some v -> In (k, v) d.
Proof.
  induction d as [|[k' v'] d IH]; simpl; [discriminate|].
  destruct (String.eqb_spec k k') as [->|N].
  - intros [= ->]. left. reflexivity.
  - intros H. right. apply IH, H.
Qed.

Lemma item_ok_extends urls st st' it :
  extends st st' -> item_ok urls st it -> item_ok urls st' it.
Proof.
  intros [S _] (I & O & p & C & T). split; [exact I|]. split; [exact O|].
  exists p. split; [eapply lookup_weaken; eassumption|exact T].
Qed.

Lemma guidance_loop urls sections :
  forall acc st,
  exists added st',
    for_each sections (guidance_step http_get loop_time urls) acc st
      = (Ok (acc ++ added), st') /\
    requests_within (map snd urls) (length sections) st st' /\
    length added <= length sections /\
    Forall (item_ok urls st') added.
Proof.
  induction sections as [|section sections IH]; intros acc st.
  - exists [], st. rewrite app_nil_r.
    split; [reflexivity|]. split; [apply requests_within_refl|].
    split; [reflexivity|constructor].
  - cbn [for_each]. unfold guidance_step at 1.
    destruct (dict_get section urls) as [url|] eqn:D.
    + assert (I : In url (map snd urls)).
      { apply dict_get_In in D. apply (in_map snd) in D. exact D. }
      destruct (fetch_requests (map snd urls) url st I)
        as (r & st1 & E & R & C).
      unfold bind at 1. unfold bind at 1. rewrite E.
      destruct r as [p|e u]; cbn [ret].
      * destruct (IH (acc ++ [GuidanceItem section (p_title p) url
                                (p_content p) true]) st1)
          as (added & st' & E' & R' & L & F).
        exists (GuidanceItem section (p_title p) url (p_content p) true
                  :: added), st'.
        split; [rewrite E', <- app_assoc; reflexivity|].
        split; [apply (requests_within_trans _ 1 _ _ _ _ R R')|].
        split; [simpl; lia|].
        constructor; [|exact F].
        apply (item_ok_extends urls st1); [apply R'|].
        split; [apply dict_get_In, D|]. split; [reflexivity|].
        exists p. cbn. split; [apply C; reflexivity|]. split; reflexivity.
      * destruct (IH acc st1) as (added & st' & E' & R' & L & F).
        exists added, st'. split; [exact E'|].
        split; [apply (requests_within_trans _ 1 _ _ _ _ R R')|].
        split; [simpl; lia|exact F].
    + unfold bind at 1. cbn [ret].
      destruct (IH acc st) as (added & st' & E' & R' & L & F).
      exists added, st'. split; [exact E'|].
      split; [eapply requests_within_le; [|exact R']; simpl; lia|].
      split; [simpl; lia|exact F].
Qed.

Lemma guidance_run topic st :
  exists items st1,
    get_official_guidance http_get loop_time topic st =
      (Ok (GuidanceResult topic None items (Some (loop_time (clock_reads st1)))),
       snd (event_loop_time loop_time st1)) /\
    requests_within (catalog_urls st) 3 st st1 /\
    length items <= 3 /\
    Forall (item_ok (core_urls st) st1) items.
Proof.
  destruct (guidance_loop (core_urls st)
              (firstn 3 (relevant_sections topic (core_urls st))) [] st)
    as (items & st1 & E & R & L & F).
  assert (B : length (firstn 3 (relevant_sections topic (core_urls st))) <= 3)
    by (rewrite length_firstn; lia).
  exists items, st1. split; [|split; [|split; [lia|exact F]]].
  - unfold get_official_guidance. apply try_except_ok.
    unfold bind at 1, gets at 1. rewrite (bind_ok _ _ _ _ _ E). reflexivity.
  - eapply requests_within_le; [exact B|exact R].
Qed.

End Accounting.

(** ** Invariants of the cache *)

Section Preserve.

Variable http_get : nat -> string -> http_reply.
Variable loop_time : nat -> PyFloat.float.
Variable set_iter : list string -> list string.

(** [P] is a property of the cache and the catalog that a fetch keeps. *)
Variable P : analyzer -> Prop.
Hypothesis P_fetch :
  forall url st, P st -> P (snd (fetch_web_content http_get loop_time url st)).
Hypothesis P_cache :
  forall st st',
    content_cache st' = content_cache st -> core_urls st' = core_urls st ->
    P st -> P st'.

Lemma guidance_keeps topic st :
  P st -> P (snd (get_official_guidance http_get loop_time topic st)).
Proof.
  intros H.
  destruct (for_each_inv (fun _ s => P s)
              (firstn 3 (relevant_sections topic (core_urls st)))
              (guidance_step http_get loop_time (core_urls st)))
    with (acc := @nil guidance_item) (st := st)
    as (items & st1 & E & H1).
  - intros section acc s _ Hs. unfold guidance_step.
    destruct (dict_get section (core_urls st)) as [url|];
      [|exists acc, s; split; [reflexivity|exact Hs]].
    pose proof (P_fetch url s Hs) as Hf.
    destruct (fetch_total http_get loop_time url s) as (r & s' & E).
    rewrite E in Hf. rewrite (bind_ok _ _ _ _ _ E).
    destruct r; eexists _, s'; (split; [reflexivity|exact Hf]).
  - exact H.
  - unfold get_official_guidance, try_except.
    unfold bind at 1, gets at 1. rewrite (bind_ok _ _ _ _ _ E).
    cbn [bind event_loop_time ret snd].
    eapply P_cache; [| |exact H1]; reflexivity.
Qed.

Lemma collect_guidance_keeps topics :
  forall lg st,
  P st -> P (snd (collect_guidance http_get loop_time topics lg st)).
Proof.
  induction topics as [|t topics IH]; intros lg st H; [exact H|].
  cbn [collect_guidance].
  pose proof (guidance_keeps t st H) as Hg.
  destruct (get_official_guidance http_get loop_time t st) as [[g|e] st1];
    cbn [snd] in Hg; [|exact Hg].
  destruct (gr_guidance g); apply IH, Hg.
Qed.

Lemma analyze_keeps text analysis_type st :
  P st ->
  P (snd (analyze_content http_get loop_time set_iter text analysis_type st)).
Proof.
  intros H.
  destruct (analyze_run http_get loop_time set_iter text analysis_type st)
    as (lg & st1 & E & _ & _ & _ & C).
  rewrite E. cbn [snd event_loop_time].
  pose proof (collect_guidance_keeps
                (guidance_topics set_iter
                   (local_issues analysis_type (Text.chars text)))
                [] st H) as Hc.
  rewrite C in Hc. cbn [snd] in Hc.
  eapply P_cache; [| |exact Hc]; reflexivity.
Qed.

Lemma search_keeps query st :
  P st -> P (snd (search_style_guide_live http_get loop_time query st)).
Proof.
  intros H.
  destruct (for_each_inv (fun _ s => P s) (core_urls st)
              (search_step http_get loop_time (terms_of query)))
    with (acc := @nil search_result) (st := st)
    as (found & st1 & E & H1).
  - intros [section url] acc s _ Hs. unfold search_step.
    pose proof (P_fetch url s Hs) as Hf.
    destruct (fetch_total http_get loop_time url s) as (r & s' & E).
    rewrite E in Hf. rewrite (bind_ok _ _ _ _ _ E).
    destruct r as [p|]; [destruct (0 <? _)|];
      eexists _, s'; (split; [reflexivity|exact Hf]).
  - exact H.
  - unfold search_style_guide_live, try_except.
    unfold bind at 1, gets at 1. fold (terms_of query).
    rewrite (bind_ok _ _ _ _ _ E).
    cbn [bind event_loop_time ret snd].
    eapply P_cache; [| |exact H1]; reflexivity.
Qed.

Lemma run_call_keeps c st :
  P st -> P (run_call http_get loop_time set_iter c st).
Proof.
  intros H.
  destruct c as [url|topic|text analysis_type|text focus_area|query|];
    cbn [run_call].
  - apply P_fetch, H.
  - apply guidance_keeps, H.
  - apply analyze_keeps, H.
  - pose proof (analyze_keeps text "comprehensive" st H) as Ha.
    unfold suggest_improvements, bind.
    destruct (analyze_content http_get loop_time set_iter text
                "comprehensive" st) as [[a|e] st1]; exact Ha.
  - apply search_keeps, H.
  - eapply P_cache; [| |exact H]; reflexivity.
Qed.

Lemma run_calls_keep cs :
  forall st, P st -> P (run_calls http_get loop_time set_iter cs st).
Proof.
  induction cs as [|c cs IH]; intros st H; [exact H|].
  cbn [run_calls fold_left]. apply IH, run_call_keeps, H.
Qed.

End Preserve.

(** Lengths and slices in code points. *)
Lemma utf8_length_cons b s :
  Utf8.length (b :: s)
  = (if Utf8.is_cont b then 0 else 1) + Utf8.length s.
Proof.
  unfold Utf8.length. cbn [List.filter].
  destruct (Utf8.is_cont b); reflexivity.
Qed.

Lemma utf8_length_app a b :
  Utf8.length (a ++ b) = Utf8.length a + Utf8.length b.
Proof.
  unfold Utf8.length. rewrite List.filter_app, length_app. reflexivity.
Qed.

Lemma utf8_length_take s :
  forall n, Utf8.length (Utf8.take n s) = Nat.min n (Utf8.length s).
Proof.
  induction s as [|b s IH]; intros n; [destruct n; reflexivity|].
  cbn [Utf8.take]. rewrite (utf8_length_cons b s).
  destruct (Utf8.is_cont b) eqn:C.
  - rewrite utf8_length_cons, C, IH. reflexivity.
  - destruct n as [|n]; [reflexivity|].
    rewrite utf8_length_cons, C, IH. reflexivity.
Qed.

Lemma fetch_keeps_cache_ok http_get loop_time url st :
  cache_ok st ->
  cache_ok (snd (fetch_web_content http_get loop_time url st)).
Proof.
  intros H. pose proof (fetch_cases http_get loop_time url st) as F.
  destruct (content_cache st !! url) as [cached|]; [rewrite F; exact H|].
  destruct (http_get _ url) as [status text|msg]; [|rewrite F; exact H].
  destruct (status =? 200)%Z; [|rewrite F; exact H].
  destruct text as [content|msg]; [|rewrite F; exact H].
  rewrite F. cbn [snd stored]. unfold cache_ok. cbn [content_cache].
  apply map_Forall_insert_2; [|exact H].
  eexists. split; [reflexivity|]. unfold page_of.
  cbn [p_url p_content p_full_content].
  split; [reflexivity|]. rewrite !chars_str. split; [|reflexivity].
  rewrite utf8_length_take. lia.
Qed.

(** X1: the cache only ever holds pages.  From an analyzer whose
    cache is well formed (the new analyzer's is), after any calls of
    the methods every cache entry is a successful result, stored under
    the URL it was fetched from, whose excerpt is the first 2000
    characters (code points) of its full text; a failure is never
    cached. *)
Theorem cache_holds_pages_only http_get loop_time set_iter cs st :
  cache_ok st ->
  cache_ok (run_calls http_get loop_time set_iter cs st) /\
  forall url e u,
    content_cache (run_calls http_get loop_time set_iter cs st) !! url
      <> Some (FetchFailed e u).
Proof.
  intros H.
  assert (K : cache_ok (run_calls http_get loop_time set_iter cs st)).
  { apply (run_calls_keep http_get loop_time set_iter cache_ok); [| |exact H].
    - intros url s. apply fetch_keeps_cache_ok.
    - intros s s' C _ Hs. unfold cache_ok. rewrite C. exact Hs. }
  split; [exact K|].
  intros url e u L. destruct (K url _ L) as (p & D & _). discriminate D.
Qed.

Lemma cache_ok_init : cache_ok init.
Proof. apply map_Forall_empty. Qed.

(** X2: a failure is never replayed from the cache.  In an analyzer
    with a well-formed cache, a fetch that returns a failure has just
    sent its own GET for that URL, reports that URL, and leaves the URL
    uncached, so that the next fetch asks the network again. *)
Theorem failure_comes_from_the_network http_get loop_time url st e u st' :
  cache_ok st ->
  fetch_web_content http_get loop_time url st = (Ok (FetchFailed e u), st') ->
  u = url /\
  requests st' = url :: requests st /\
  content_cache st' = content_cache st /\
  content_cache st' !! url = None.
Proof.
  intros K E. pose proof (fetch_cases http_get loop_time url st) as F.
  destruct (content_cache st !! url) as [cached|] eqn:L.
  { rewrite F in E. inversion E; subst.
    destruct (K url _ L) as (p & D & _). discriminate D. }
  destruct (http_get _ url) as [status text|msg].
  - destruct (status =? 200)%Z; [destruct text|];
      rewrite F in E; inversion E; subst; auto.
  - rewrite F in E. inversion E; subst. auto.
Qed.

Section Bounds.

Variable http_get : nat -> string -> http_reply.
Variable loop_time : nat -> PyFloat.float.
Variable set_iter : list string -> list string.

Lemma guidance_requests topic st :
  exists g st',
    get_official_guidance http_get loop_time topic st = (Ok g, st') /\
    requests_within (catalog_urls st) 3 st st'.
Proof.
  destruct (guidance_run http_get loop_time topic st)
    as (items & st1 & E & R & _).
  eexists _, _. split; [exact E|].
  replace 3 with (3 + 0) by lia.
  eapply requests_within_trans; [exact R|].
  apply event_loop_time_requests.
Qed.

(** X3: [get_official_guidance] returns without error for every topic
    and catalog.  It reports at most three items, each a section of the
    catalog with the title and excerpt of the page now cached under its
    URL, and it sends at most three GETs, each for a catalog URL that
    was not cached. *)
Theorem guidance_reports_at_most_three topic st :
  exists g st',
    get_official_guidance http_get loop_time topic st = (Ok g, st') /\
    gr_topic g = topic /\ gr_error g = None /\
    length (gr_guidance g) <= 3 /\
    Forall (item_ok (core_urls st) st') (gr_guidance g) /\
    requests_within (catalog_urls st) 3 st st'.
Proof.
  destruct (guidance_run http_get loop_time topic st)
    as (items & st1 & E & R & L & F).
  eexists _, _. split; [exact E|]. cbn [gr_topic gr_error gr_guidance].
  split; [reflexivity|]. split; [reflexivity|]. split; [exact L|].
  split.
  - revert F. apply List.Forall_impl. intros it.
    apply item_ok_extends, event_loop_time_extends.
  - replace 3 with (3 + 0) by lia.
    eapply requests_within_trans; [exact R|].
    apply event_loop_time_requests.
Qed.

Lemma collect_guidance_requests topics :
  forall lg st,
  exists lg' st',
    collect_guidance http_get loop_time topics lg st = (Ok lg', st') /\
    requests_within (catalog_urls st) (3 * length topics) st st'.
Proof.
  induction topics as [|t topics IH]; intros lg st.
  - exists lg, st. split; [reflexivity|apply requests_within_refl].
  - cbn [collect_guidance].
    destruct (guidance_requests t st) as (g & st1 & E & R).
    rewrite E.
    assert (U : catalog_urls st1 = catalog_urls st).
    { unfold catalog_urls. destruct R as [[_ ->] _]. reflexivity. }
    assert (T : forall lg1,
              exists lg' st',
                collect_guidance http_get loop_time topics lg1 st1
                  = (Ok lg', st') /\
                requests_within (catalog_urls st)
                  (3 * length (t :: topics)) st st').
    { intros lg1. destruct (IH lg1 st1) as (lg' & st' & E' & R').
      exists lg', st'. split; [exact E'|]. rewrite U in R'.
      replace (3 * length (t :: topics)) with (3 + 3 * length topics)
        by (simpl; lia).
      eapply requests_within_trans; eassumption. }
    destruct (gr_guidance g); apply T.
Qed.

Lemma guidance_topics_length issues :
  length (guidance_topics set_iter issues) <= 2.
Proof.
  unfold guidance_topics. destruct issues; [simpl; lia|].
  rewrite length_firstn. lia.
Qed.

(** X4: one analysis sends at most six GETs (three for each of at most
    two categories), each for a catalog URL that was not cached, and
    none at all when it finds no issue; it never drops or changes a
    cache entry or the catalog. *)
Theorem analysis_sends_at_most_six text analysis_type st :
  exists a st',
    analyze_content http_get loop_time set_iter text analysis_type st
      = (Ok a, st') /\
    requests_within (catalog_urls st) 6 st st' /\
    (a_issues a = [] ->
     requests st' = requests st /\ content_cache st' = content_cache st /\
     a_live_guidance a = []).
Proof.
  destruct (analyze_run http_get loop_time set_iter text analysis_type st)
    as (lg & st1 & E & _ & K & _ & C).
  destruct (collect_guidance_requests
              (guidance_topics set_iter
                 (local_issues analysis_type (Text.chars text))) [] st)
    as (lg' & st1' & C' & R).
  rewrite C in C'. inversion C'; subst lg' st1'. clear C'.
  eexists _, _. split; [exact E|]. cbn [a_issues a_live_guidance]. split.
  - pose proof (guidance_topics_length
                  (local_issues analysis_type (Text.chars text))) as L.
    replace 6 with (6 + 0) by lia.
    eapply requests_within_trans; [|apply event_loop_time_requests].
    eapply requests_within_le; [|exact R]. lia.
  - intros N. rewrite N in *. cbn in C. inversion C; subst.
    repeat split.
Qed.

End Bounds.

(** ** The search, further *)

Lemma is_space_lower_char c :
  Text.is_space (Text.lower_char c) = Text.is_space c.
Proof.
  destruct c as [[] [] [] [] [] [] [] []]; reflexivity.
Qed.

Lemma lower_char_idem c :
  Text.lower_char (Text.lower_char c) = Text.lower_char c.
Proof.
  destruct c as [[] [] [] [] [] [] [] []]; reflexivity.
Qed.

Lemma lower_idem s : Text.lower (Text.lower s) = Text.lower s.
Proof.
  unfold Text.lower. rewrite map_map. apply map_ext, lower_char_idem.
Qed.

Lemma has_visible_lower s :
  Spans.has_visible (Text.lower s) = Spans.has_visible s.
Proof.
  unfold Spans.has_visible, Text.lower.
  induction s as [|c s IH]; simpl; [reflexivity|].
  rewrite is_space_lower_char, IH. reflexivity.
Qed.

Lemma split_blank s : Spans.has_visible s = false -> Text.split s = [].
Proof.
  unfold Text.split, Spans.has_visible.
  induction s as [|c s IH]; simpl; [reflexivity|].
  destruct (Text.is_space c); simpl; [exact IH|discriminate].
Qed.

Lemma terms_of_lower_query query :
  terms_of (lower_query query) = terms_of query.
Proof.
  unfold terms_of, lower_query. rewrite chars_str, lower_idem. reflexivity.
Qed.

Section SearchFurther.

Variable http_get : nat -> string -> http_reply.
Variable loop_time : nat -> PyFloat.float.

Lemma search_loop query urls xs :
  incl (map snd xs) urls ->
  forall acc st,
  exists added st',
    for_each xs (search_step http_get loop_time (terms_of query)) acc st
      = (Ok (acc ++ added), st') /\
    requests_within urls (length xs) st st' /\
    length added <= length xs.
Proof.
  induction xs as [|[section url] xs IH]; intros I acc st.
  - exists [], st. rewrite app_nil_r.
    split; [reflexivity|]. split; [apply requests_within_refl|reflexivity].
  - cbn [for_each]. unfold search_step at 1.
    destruct (fetch_requests http_get loop_time urls url st)
      as (r & st1 & E & R & _); [apply I; left; reflexivity|].
    unfold bind at 1. unfold bind at 1. rewrite E.
    assert (I' : incl (map snd xs) urls)
      by (intros u Hu; apply I; right; exact Hu).
    assert (T : forall acc1 extra,
              length extra <= 1 -> acc1 = acc ++ extra ->
              exists added st',
                for_each xs
                  (search_step http_get loop_time (terms_of query)) acc1 st1
                  = (Ok (acc ++ added), st') /\
                requests_within urls (length ((section, url) :: xs)) st st'
                /\ length added <= length ((section, url) :: xs)).
    { intros acc1 extra Le ->.
      destruct (IH I' (acc ++ extra) st1) as (added & st' & E' & R' & L).
      exists (extra ++ added), st'.
      split; [rewrite E', app_assoc; reflexivity|].
      split; [apply (requests_within_trans _ 1 _ _ _ _ R R')|].
      rewrite length_app. simpl. lia. }
    destruct r as [p|e u]; cbn [ret].
    + destruct (0 <? _).
      * eapply T; [|reflexivity]. simpl. lia.
      * apply (T acc []); [simpl; lia|rewrite app_nil_r; reflexivity].
    + apply (T acc []); [simpl; lia|rewrite app_nil_r; reflexivity].
Qed.

(** X5: the search counts at most one section per catalog entry,
    returns the first five of them at most (all of them when there
    are five or fewer), echoes the query, and sends at most one GET per
    catalog entry, each for a catalog URL that was not cached. *)
Theorem search_counts_and_requests query st :
  exists resp st' n,
    search_style_guide_live http_get loop_time query st = (Ok resp, st') /\
    q_query resp = query /\
    q_total_found resp = Some n /\
    n <= length (core_urls st) /\
    length (q_results resp) = Nat.min 5 n /\
    requests_within (catalog_urls st) (length (core_urls st)) st st'.
Proof.
  destruct (search_loop query (catalog_urls st) (core_urls st)
              (fun u H => H) [] st) as (found & st1 & E & R & L).
  cbn [app] in E.
  eexists _, _, (length found). split.
  - unfold search_style_guide_live. apply try_except_ok.
    unfold bind at 1, gets at 1. fold (terms_of query).
    rewrite (bind_ok _ _ _ _ _ E). reflexivity.
  - cbn [q_query q_total_found q_results snd].
    split; [reflexivity|]. split; [reflexivity|]. split; [exact L|].
    split.
    + rewrite length_firstn,
        (Permutation_length (sort_reverse_perm sort_key found)).
      reflexivity.
    + replace (length (core_urls st)) with (length (core_urls st) + 0) by lia.
      eapply requests_within_trans; [exact R|].
      apply (event_loop_time_requests loop_time).
Qed.

Lemma search_loop_cached query st xs :
  Forall (fun su => is_Some (content_cache st !! snd su)) xs ->
  forall acc,
    for_each xs (search_step http_get loop_time (terms_of query)) acc st
    = (Ok (acc ++ flat_map (cached_result query st) xs), st).
Proof.
  induction 1 as [|[section url] xs [r C] _ IH]; intros acc.
  - cbn. rewrite app_nil_r. reflexivity.
  - cbn [for_each flat_map]. unfold search_step at 1.
    pose proof (fetch_cases http_get loop_time url st) as F.
    cbn [snd] in C. rewrite C in F.
    unfold bind at 1. unfold bind at 1. rewrite F.
    unfold cached_result at 1. cbn [fst snd]. rewrite C.
    destruct r as [p|e u].
    + fold (hits_of query p). destruct (0 <? hits_of query p);
        unfold ret; rewrite IH; [rewrite <- app_assoc|]; reflexivity.
    + unfold ret. rewrite IH. reflexivity.
Qed.

(** X6: a search over a warm cache stays off the network.  When every
    URL of the catalog is cached, the search reads the clock once and
    changes nothing else: no GET goes out and the cache is as before.
    Its results are computed from the cached pages alone. *)
Theorem warm_search_is_offline query st :
  Forall (fun su => is_Some (content_cache st !! snd su)) (core_urls st) ->
  search_style_guide_live http_get loop_time query st =
    (Ok (SearchResponse query None
           (firstn 5 (sort_reverse sort_key (cached_results query st)))
           (Some (length (cached_results query st)))
           (Some (loop_time (clock_reads st)))),
     snd (event_loop_time loop_time st)) /\
  requests (snd (search_style_guide_live http_get loop_time query st))
    = requests st /\
  content_cache (snd (search_style_guide_live http_get loop_time query st))
    = content_cache st.
Proof.
  intros W.
  assert (E : search_style_guide_live http_get loop_time query st =
              (Ok (SearchResponse query None
                     (firstn 5 (sort_reverse sort_key
                                  (cached_results query st)))
                     (Some (length (cached_results query st)))
                     (Some (loop_time (clock_reads st)))),
               snd (event_loop_time loop_time st))).
  { unfold search_style_guide_live. apply try_except_ok.
    unfold bind at 1, gets at 1. fold (terms_of query).
    rewrite (bind_ok _ _ _ _ _ (search_loop_cached query st _ W [])).
    reflexivity. }
  rewrite E. repeat split.
Qed.



End SearchFurther.

(** ** Matches and their offsets *)

Lemma step_sound q k c e :
  Re.step q k c = Some e ->
  exists x c',
    Re.rest c = x :: Re.rest c' /\ q x = true /\
    Re.group1 c' = Re.group1 c /\ k c' = Some e.
Proof.
  unfold Re.step. destruct (Re.rest c) as [|x t] eqn:R; [discriminate|].
  destruct (q x) eqn:Q; [|discriminate]. intros K.
  eexists x, _. split; [|split; [exact Q|split; [|exact K]]]; reflexivity.
Qed.

Lemma firstn_prefix {A} (a b : list A) :
  firstn (length (a ++ b) - length b) (a ++ b) = a.
Proof.
  rewrite length_app, Nat.add_sub. rewrite firstn_app, firstn_all.
  rewrite Nat.sub_diag. cbn [firstn]. apply app_nil_r.
Qed.

Lemma firstn_length_self {A} n (s : list A) :
  firstn (length (firstn n s)) s = firstn n s.
Proof.
  rewrite length_firstn.
  destruct (Nat.le_ge_cases n (length s)) as [H|H].
  - rewrite Nat.min_l by exact H. reflexivity.
  - rewrite Nat.min_r by exact H.
    rewrite firstn_all, firstn_all2 by exact H. reflexivity.
Qed.

Lemma match_at_spec icase r pw s pos m :
  Re.match_at icase r pw s pos = Some m ->
  Re.m_start m = pos /\
  Re.m_group m = firstn (length (Re.m_group m)) s.
Proof.
  unfold Re.match_at.
  destruct (Re.rmatch icase r Some _) as [e|]; [|discriminate].
  intros [= <-]. cbn [Re.m_start Re.m_group]. split; [reflexivity|].
  unfold Re.consumed. cbn [Re.rest]. symmetry. apply firstn_length_self.
Qed.

(** Every match [finditer] reports is the text found at its offset. *)
Lemma finditer_from_spec icase r s :
  forall pw pos skip m,
  In m (Re.finditer_from icase r pw s pos skip) ->
  exists k,
    Re.m_start m = pos + k /\
    Re.m_group m = firstn (length (Re.m_group m)) (skipn k s).
Proof.
  induction s as [|x t IH]; intros pw pos skip m.
  - destruct skip; cbn [Re.finditer_from]; [|intros []].
    destruct (Re.match_at icase r pw [] pos) as [m0|] eqn:E; [|intros []].
    intros [<-|[]]. exists 0. rewrite Nat.add_0_r.
    apply (match_at_spec _ _ _ _ _ _ E).
  - destruct skip as [|k]; cbn [Re.finditer_from].
    + destruct (Re.match_at icase r pw (x :: t) pos) as [m0|] eqn:E.
      * intros [<-|H].
        { exists 0. rewrite Nat.add_0_r.
          apply (match_at_spec _ _ _ _ _ _ E). }
        destruct (IH _ _ _ _ H) as (k & Hs & G).
        exists (S k). split; [lia|exact G].
      * intros H. destruct (IH _ _ _ _ H) as (k & Hs & G).
        exists (S k). split; [lia|exact G].
    + intros H. destruct (IH _ _ _ _ H) as (k' & Hs & G).
      exists (S k'). split; [lia|exact G].
Qed.

(** The matches are reported from left to right. *)
Lemma finditer_from_sorted icase r s :
  forall pw pos skip,
  StronglySorted (fun a b => Re.m_start a < Re.m_start b)
    (Re.finditer_from icase r pw s pos skip).
Proof.
  induction s as [|x t IH]; intros pw pos skip.
  - destruct skip; cbn [Re.finditer_from]; [|constructor].
    destruct (Re.match_at icase r pw [] pos); repeat constructor.
  - destruct skip as [|k]; cbn [Re.finditer_from]; [|apply IH].
    destruct (Re.match_at icase r pw (x :: t) pos) as [m0|] eqn:E;
      [|apply IH].
    constructor; [apply IH|].
    apply List.Forall_forall. intros m H.
    destruct (finditer_from_spec _ _ _ _ _ _ _ H) as (k & Hs & _).
    destruct (match_at_spec _ _ _ _ _ _ E) as [S0 _]. lia.
Qed.

(** *** ASCII patterns match ASCII text *)

Lemma ascii_not_cont x : Utf8.is_ascii x = true -> Utf8.is_cont x = false.
Proof.
  destruct x as [[] [] [] [] [] [] [] []]; vm_compute; congruence.
Qed.

Lemma is_space_ascii x : Text.is_space x = true -> Utf8.is_ascii x = true.
Proof.
  destruct x as [[] [] [] [] [] [] [] []]; vm_compute; congruence.
Qed.

Lemma is_word_ascii x : Text.is_word x = true -> Utf8.is_ascii x = true.
Proof.
  destruct x as [[] [] [] [] [] [] [] []]; vm_compute; congruence.
Qed.

Lemma lower_char_ascii x :
  Utf8.is_ascii (Text.lower_char x) = Utf8.is_ascii x.
Proof.
  destruct x as [[] [] [] [] [] [] [] []]; vm_compute; reflexivity.
Qed.

Lemma chr_eq_ascii icase a x :
  Utf8.is_ascii a = true -> Re.chr_eq icase a x = true ->
  Utf8.is_ascii x = true.
Proof.
  intros A H. unfold Re.chr_eq, Text.ascii_eqb in H.
  destruct icase; apply Ascii.eqb_eq in H.
  - rewrite <- lower_char_ascii, <- H, lower_char_ascii. exact A.
  - subst x. exact A.
Qed.

Section StarAscii.

Variable body :
  (Re.cursor -> option Re.cursor) -> Re.cursor -> option Re.cursor.
Hypothesis body_ascii :
  forall k c e,
    body k c = Some e ->
    exists run c',
      Re.rest c = run ++ Re.rest c' /\
      forallb Utf8.is_ascii run = true /\ k c' = Some e.

Lemma star_ascii g k n :
  forall c e,
    Re.star_loop g body k n c = Some e ->
    exists run c',
      Re.rest c = run ++ Re.rest c' /\
      forallb Utf8.is_ascii run = true /\ k c' = Some e.
Proof.
  induction n as [|n IH]; intros c e H.
  - cbn [Re.star_loop] in H.
    assert (K : k c = Some e).
    { destruct g; cbn [Re.orelse] in H; [exact H|].
      destruct (k c); [exact H|discriminate H]. }
    exists [], c. repeat split; assumption.
  - cbn [Re.star_loop] in H.
    assert (D : k c = Some e \/
                body
                  (fun c' =>
                     if length (Re.rest c') <? length (Re.rest c)
                     then Re.star_loop g body k n c' else None) c
                = Some e).
    { destruct g; unfold Re.orelse in H.
      - destruct (body _ c) as [e'|]; [right; exact H|left; exact H].
      - destruct (k c) as [e'|]; [left; exact H|right; exact H]. }
    destruct D as [K|D]; [exists [], c; repeat split; assumption|].
    destruct (body_ascii _ _ _ D) as (run1 & c1 & R1 & A1 & K1).
    destruct (length (Re.rest c1) <? length (Re.rest c)); [|discriminate K1].
    destruct (IH _ _ K1) as (run2 & c2 & R2 & A2 & K2).
    exists (run1 ++ run2), c2.
    split; [rewrite R1, R2, app_assoc; reflexivity|].
    split; [rewrite forallb_app, A1, A2; reflexivity|exact K2].
Qed.

End StarAscii.

(** A match of an ASCII pattern consumes ASCII characters only, and at
    least one if the pattern matches no empty string. *)
Lemma rmatch_ascii icase r :
  ascii_regex r ->
  forall k c e,
    Re.rmatch icase r k c = Some e ->
    exists run c',
      Re.rest c = run ++ Re.rest c' /\
      forallb Utf8.is_ascii run = true /\
      (consuming r = true -> run <> []) /\
      k c' = Some e.
Proof.
  induction r as [|a|p|r1 IH1 r2 IH2|r1 IH1 r2 IH2|g r1 IH1| |r1 IH1];
    intros A k c e H; cbn [Re.rmatch] in H; cbn [ascii_regex] in A;
    cbn [consuming].
  - exists [], c. repeat split; [discriminate|exact H].
  - destruct (step_sound _ _ _ _ H) as (x & c' & R & Q & _ & K).
    exists [x], c'. split; [exact R|]. split; [|split; [discriminate|exact K]].
    cbn [forallb]. rewrite (chr_eq_ascii _ _ _ A Q). reflexivity.
  - destruct (step_sound _ _ _ _ H) as (x & c' & R & Q & _ & K).
    exists [x], c'. split; [exact R|]. split; [|split; [discriminate|exact K]].
    cbn [forallb]. rewrite (A _ Q). reflexivity.
  - destruct A as [A1 A2].
    destruct (IH1 A1 _ _ _ H) as (run1 & c1 & R1 & F1 & N1 & K1).
    destruct (IH2 A2 _ _ _ K1) as (run2 & c2 & R2 & F2 & N2 & K2).
    exists (run1 ++ run2), c2.
    split; [rewrite R1, R2, app_assoc; reflexivity|].
    split; [rewrite forallb_app, F1, F2; reflexivity|].
    split; [|exact K2].
    intros C E. apply app_eq_nil in E. destruct E as [E1 E2].
    apply orb_true_iff in C. destruct C as [C|C]; [apply (N1 C E1)|].
    apply (N2 C E2).
  - destruct A as [A1 A2]. unfold Re.orelse in H.
    destruct (Re.rmatch icase r1 k c) as [e1|] eqn:M.
    + destruct (IH1 A1 _ _ _ M) as (run & c' & R & F & N & K).
      exists run, c'. split; [exact R|]. split; [exact F|].
      split; [|congruence].
      intros C. apply andb_true_iff in C. apply N, C.
    + destruct (IH2 A2 _ _ _ H) as (run & c' & R & F & N & K).
      exists run, c'. split; [exact R|]. split; [exact F|].
      split; [|exact K].
      intros C. apply andb_true_iff in C. apply N, C.
  - assert (B : forall k0 c0 e0,
               Re.rmatch icase r1 k0 c0 = Some e0 ->
               exists run c',
                 Re.rest c0 = run ++ Re.rest c' /\
                 forallb Utf8.is_ascii run = true /\ k0 c' = Some e0).
    { intros k0 c0 e0 H0.
      destruct (IH1 A _ _ _ H0) as (run & c' & R & F & _ & K).
      exists run, c'. auto. }
    destruct (star_ascii _ B _ _ _ _ _ H) as (run & c' & R & F & K).
    exists run, c'. split; [exact R|]. split; [exact F|].
    split; [discriminate|exact K].
  - destruct (xorb _ _); [|discriminate H].
    exists [], c. repeat split; [discriminate|exact H].
  - destruct (IH1 A _ _ _ H) as (run & c1 & R & F & N & K).
    exists run,
      (Re.Cursor (Re.prev_word c1) (Re.rest c1) (Some (Re.consumed c c1))).
    split; [exact R|]. split; [exact F|]. split; [exact N|exact K].
Qed.

Lemma match_at_ascii icase r pw s pos m :
  ascii_regex r ->
  Re.match_at icase r pw s pos = Some m ->
  exists post,
    s = Re.m_group m ++ post /\
    forallb Utf8.is_ascii (Re.m_group m) = true /\
    (consuming r = true -> Re.m_group m <> []).
Proof.
  intros A. unfold Re.match_at.
  destruct (Re.rmatch icase r Some _) as [e|] eqn:H; [|discriminate].
  intros [= <-]. cbn [Re.m_group].
  destruct (rmatch_ascii icase r A _ _ _ H) as (run & c' & R & F & N & K).
  injection K as <-. cbn [Re.rest] in R.
  unfold Re.consumed. cbn [Re.rest]. rewrite R, firstn_prefix.
  exists (Re.rest c'). repeat split; assumption.
Qed.

(** Every match [finditer] reports is a match at its offset. *)
Lemma finditer_from_at icase r s :
  forall pw pos skip m,
    In m (Re.finditer_from icase r pw s pos skip) ->
    exists k pw',
      Re.m_start m = pos + k /\
      Re.match_at icase r pw' (skipn k s) (pos + k) = Some m.
Proof.
  induction s as [|x t IH]; intros pw pos skip m.
  - destruct skip; cbn [Re.finditer_from]; [|intros []].
    destruct (Re.match_at icase r pw [] pos) as [m0|] eqn:E; [|intros []].
    intros [<-|[]]. exists 0, pw. rewrite Nat.add_0_r.
    split; [apply (match_at_spec _ _ _ _ _ _ E)|exact E].
  - assert (T : forall pw1 skip1,
               In m (Re.finditer_from icase r pw1 t (S pos) skip1) ->
               exists k pw',
                 Re.m_start m = pos + k /\
                 Re.match_at icase r pw' (skipn k (x :: t)) (pos + k)
                 = Some m).
    { intros pw1 skip1 H. destruct (IH _ _ _ _ H) as (k & pw' & Hs & G).
      exists (S k), pw'. replace (pos + S k) with (S pos + k) by lia.
      split; [exact Hs|exact G]. }
    destruct skip as [|k]; cbn [Re.finditer_from]; [|apply T].
    destruct (Re.match_at icase r pw (x :: t) pos) as [m0|] eqn:E;
      [|apply T].
    intros [<-|H]; [|apply (T _ _ H)].
    exists 0, pw. rewrite Nat.add_0_r.
    split; [apply (match_at_spec _ _ _ _ _ _ E)|exact E].
Qed.

(** A match of an ASCII pattern in [s]: what stands before it, the
    match, and what follows. *)
Lemma finditer_parts icase r s m :
  ascii_regex r -> consuming r = true ->
  In m (Re.finditer icase r s) ->
  exists x g post,
    s = firstn (Re.m_start m) s ++ (x :: g) ++ post /\
    skipn (Re.m_start m) s = (x :: g) ++ post /\
    Re.m_group m = x :: g /\
    forallb Utf8.is_ascii (x :: g) = true.
Proof.
  intros A C H. destruct (finditer_from_at _ _ _ _ _ _ _ H) as (k & pw & Hs & E).
  cbn [Nat.add] in Hs, E.
  destruct (match_at_ascii _ _ _ _ _ _ A E) as (post & S & F & N).
  destruct (Re.m_group m) as [|x g] eqn:G; [destruct (N C eq_refl)|].
  exists x, g, post. rewrite Hs, <- S.
  split; [symmetry; apply firstn_skipn|]. repeat split. exact F.
Qed.

(** *** Offsets and slices in code points *)

Lemma utf8_drop_prefix pre t :
  Utf8.starts t = true ->
  Utf8.drop (Utf8.length pre) (pre ++ t) = t.
Proof.
  intros T. induction pre as [|b pre IH].
  - destruct t as [|c t]; [reflexivity|]. cbn in T |- *.
    apply negb_true_iff in T. rewrite T. reflexivity.
  - rewrite utf8_length_cons. cbn [app Utf8.drop].
    destruct (Utf8.is_cont b); exact IH.
Qed.

Lemma utf8_take_prefix g post :
  Utf8.starts post = true ->
  Utf8.take (Utf8.length g) (g ++ post) = g.
Proof.
  intros T. induction g as [|b g IH].
  - destruct post as [|c post]; [reflexivity|]. cbn in T |- *.
    apply negb_true_iff in T. rewrite T. reflexivity.
  - rewrite utf8_length_cons. cbn [app Utf8.take].
    destruct (Utf8.is_cont b); cbn [Nat.add]; rewrite IH; reflexivity.
Qed.

Lemma aligned_after a :
  forall f x post,
    Utf8.aligned_from f (a ++ x :: post) = true ->
    Utf8.is_ascii x = true ->
    Utf8.starts post = true.
Proof.
  induction a as [|b a IH]; intros f x post H X.
  - cbn [app Utf8.aligned_from] in H. apply andb_true_iff in H.
    destruct H as [_ H]. rewrite X in H.
    destruct post as [|c post]; [reflexivity|].
    cbn [Utf8.aligned_from] in H. apply andb_true_iff in H.
    destruct H as [H _]. exact H.
  - cbn [app Utf8.aligned_from] in H. apply andb_true_iff in H.
    destruct H as [_ H]. apply (IH _ _ _ H X).
Qed.

(** The text of a match is the slice of the subject at its offset. *)
Lemma finditer_slices icase r text m :
  ascii_regex r -> consuming r = true ->
  Utf8.aligned (Text.chars text) = true ->
  In m (Re.finditer icase r (Text.chars text)) ->
  slice text (Re.start (Text.chars text) m) (Utf8.length (Re.m_group m))
  = Text.str (Re.m_group m).
Proof.
  intros A C W H. unfold slice, Re.start. f_equal.
  remember (Text.chars text) as s eqn:Es. clear Es text.
  destruct (finditer_parts _ _ _ _ A C H) as (x & g & post & S & _ & G & F).
  rewrite G. set (pre := firstn (Re.m_start m) s) in *.
  assert (X : Utf8.starts ((x :: g) ++ post) = true).
  { cbn [forallb] in F. apply andb_true_iff in F. destruct F as [F _].
    cbn. rewrite (ascii_not_cont _ F). reflexivity. }
  assert (P : Utf8.starts post = true).
  { destruct (exists_last (l := x :: g)) as (g0 & y & L); [discriminate|].
    rewrite L in S, F. rewrite forallb_app in F.
    apply andb_true_iff in F. destruct F as [_ F]. cbn [forallb] in F.
    rewrite andb_true_r in F.
    apply (aligned_after (pre ++ g0) false y post); [|exact F].
    unfold Utf8.aligned in W. rewrite S in W.
    rewrite <- !app_assoc in W. rewrite <- app_assoc. exact W. }
  rewrite S. rewrite (utf8_drop_prefix pre _ X).
  apply utf8_take_prefix, P.
Qed.

(** ** The issues of an analysis *)

Lemma of_type_same t l :
  Forall (fun i => i_type i = t) l -> of_type t l = l.
Proof.
  induction 1 as [|i l Hi _ IH]; [reflexivity|].
  unfold of_type in *. cbn [List.filter]. rewrite Hi, String.eqb_refl, IH.
  reflexivity.
Qed.

Lemma voice_part_type text :
  Forall (fun i => i_type i = "voice_tone")
    (if 0 <? contractions_found text then [] else [contraction_issue]).
Proof. destruct (0 <? _); repeat constructor. Qed.

Lemma local_issues_parts analysis_type text :
  local_issues analysis_type (Text.chars text) =
  (if 0 <? contractions_found text then [] else [contraction_issue])
    ++ grammar_issues analysis_type (Text.chars text)
    ++ terminology_issues analysis_type (Text.chars text)
    ++ accessibility_issues analysis_type (Text.chars text).
Proof. reflexivity. Qed.

Lemma of_type_app t l1 l2 : of_type t (l1 ++ l2) = of_type t l1 ++ of_type t l2.
Proof. apply List.filter_app. Qed.

Ltac split_by_type :=
  rewrite local_issues_parts, !of_type_app;
  repeat
    match goal with
    | |- context [of_type ?t ?l] =>
        first
          [ rewrite (of_type_same t l)
              by auto using voice_part_type, grammar_issues_type,
                   terminology_issues_type, accessibility_issues_type
          | rewrite (of_type_other t "voice_tone" l)
              by (try discriminate; apply voice_part_type)
          | rewrite (of_type_other t "grammar" l)
              by (try discriminate; apply grammar_issues_type)
          | rewrite (of_type_other t "terminology" l)
              by (try discriminate; apply terminology_issues_type)
          | rewrite (of_type_other t "accessibility" l)
              by (try discriminate; apply accessibility_issues_type) ]
    end;
  rewrite ?app_nil_r; cbn [app].

Lemma grammar_of_local analysis_type text :
  of_type "grammar" (local_issues analysis_type (Text.chars text)) =
  grammar_issues analysis_type (Text.chars text).
Proof. split_by_type. reflexivity. Qed.

Lemma terminology_of_local analysis_type text :
  of_type "terminology" (local_issues analysis_type (Text.chars text)) =
  terminology_issues analysis_type (Text.chars text).
Proof. split_by_type. reflexivity. Qed.

Lemma accessibility_of_local analysis_type text :
  of_type "accessibility" (local_issues analysis_type (Text.chars text)) =
  accessibility_issues analysis_type (Text.chars text).
Proof. split_by_type. reflexivity. Qed.

Lemma StronglySorted_app {A} (R : A -> A -> Prop) l1 l2 :
  StronglySorted R l1 -> StronglySorted R l2 ->
  (forall x y, In x l1 -> In y l2 -> R x y) ->
  StronglySorted R (l1 ++ l2).
Proof.
  intros S1 S2 H. induction S1 as [|x l1 S1 IH F]; [exact S2|].
  cbn [app]. constructor.
  - apply IH. intros a b Ha. apply H. right. exact Ha.
  - apply Forall_app. split; [exact F|].
    apply List.Forall_forall. intros y Hy. apply H; [left; reflexivity|exact Hy].
Qed.

Lemma same_type_by_rank t l :
  Forall (fun i => i_type i = t) l -> StronglySorted by_rank l.
Proof.
  induction 1 as [|i l Hi F IH]; constructor; [exact IH|].
  revert F. apply List.Forall_impl. intros j Hj.
  unfold by_rank. rewrite Hi, Hj. reflexivity.
Qed.

Lemma ranked_parts t1 t2 l1 l2 :
  category_rank t1 <= category_rank t2 ->
  Forall (fun i => i_type i = t1) l1 -> Forall (fun i => i_type i = t2) l2 ->
  forall x y, In x l1 -> In y l2 -> by_rank x y.
Proof.
  intros L F1 F2 x y Hx Hy. rewrite List.Forall_forall in F1, F2.
  unfold by_rank. rewrite (F1 x Hx), (F2 y Hy). exact L.
Qed.

Lemma local_issues_by_rank analysis_type text :
  StronglySorted by_rank (local_issues analysis_type (Text.chars text)).
Proof.
  rewrite local_issues_parts.
  pose proof (voice_part_type text) as V.
  pose proof (grammar_issues_type analysis_type (Text.chars text)) as G.
  pose proof (terminology_issues_type analysis_type (Text.chars text)) as T.
  pose proof (accessibility_issues_type analysis_type (Text.chars text)) as C.
  repeat apply StronglySorted_app; eauto using same_type_by_rank;
    intros x y Hx Hy; repeat (apply in_app_or in Hy; destruct Hy as [Hy|Hy]);
    (eapply ranked_parts; [| | |exact Hx|exact Hy]; [|eassumption..]);
    cbn; lia.
Qed.

Lemma local_issues_shape analysis_type text :
  Forall issue_shape (local_issues analysis_type (Text.chars text)).
Proof.
  rewrite local_issues_parts.
  apply Forall_app; split; [|apply Forall_app; split;
                              [|apply Forall_app; split]].
  - destruct (0 <? _); repeat constructor.
  - unfold grammar_issues. destruct (mem _ _); [|constructor].
    apply List.Forall_forall. intros i Hi. apply in_map_iff in Hi.
    destruct Hi as (m & <- & _). right. left. eauto.
  - unfold terminology_issues. destruct (mem _ _); [|constructor].
    apply List.Forall_forall. intros i Hi. apply in_flat_map in Hi.
    destruct Hi as (ts & Hts & Hi). apply in_flat_map in Hi.
    destruct Hi as (a & Ha & Hi).
    destruct (Text.contains _ _); [|destruct Hi].
    destruct Hi as [<-|[]]. right. right. left. eauto.
  - unfold accessibility_issues. destruct (mem _ _); [|constructor].
    apply List.Forall_forall. intros i Hi. apply in_map_iff in Hi.
    destruct Hi as (m & <- & _). right. right. right. eauto.
Qed.

Lemma positions_passive s ms :
  positions (map (passive_issue s) ms) = map (Re.start s) ms.
Proof. induction ms as [|m ms IH]; cbn; [|rewrite <- IH]; reflexivity. Qed.

Lemma positions_inclusive s ms :
  positions (map (inclusive_issue s) ms) = map (Re.start s) ms.
Proof. induction ms as [|m ms IH]; cbn; [|rewrite <- IH]; reflexivity. Qed.

Lemma utf8_length_firstn_lt s :
  forall k1 k2 x t,
    skipn k1 s = x :: t -> Utf8.is_cont x = false -> k1 < k2 ->
    Utf8.length (firstn k1 s) < Utf8.length (firstn k2 s).
Proof.
  induction s as [|b s IH]; intros k1 k2 x t S X L.
  - destruct k1; discriminate S.
  - destruct k2 as [|k2]; [lia|]. destruct k1 as [|k1].
    + cbn [skipn] in S. injection S as -> ->.
      cbn [firstn]. rewrite utf8_length_cons, X. cbn. lia.
    + cbn [skipn] in S. cbn [firstn]. rewrite !utf8_length_cons.
      apply Nat.add_lt_mono_l. apply (IH _ _ _ _ S X). lia.
Qed.

(** The matches of an ASCII pattern are reported at strictly increasing
    offsets. *)
Lemma finditer_starts_sorted icase r s :
  ascii_regex r -> consuming r = true ->
  StronglySorted lt (map (Re.start s) (Re.finditer icase r s)).
Proof.
  intros A C.
  assert (Q : Forall (fun m => In m (Re.finditer icase r s))
                (Re.finditer icase r s))
    by (apply List.Forall_forall; auto).
  unfold Re.finditer in Q at 2. unfold Re.finditer at 1.
  pose proof (finditer_from_sorted icase r s false 0 0) as H.
  induction H as [|m ms _ IH F]; cbn [map]; constructor.
  - apply IH. apply Forall_inv_tail in Q. exact Q.
  - apply Forall_map. apply Forall_inv in Q.
    destruct (finditer_parts _ _ _ _ A C Q) as (x & g & post & _ & S & _ & G).
    cbn [forallb] in G. apply andb_true_iff in G. destruct G as [G _].
    revert F. apply List.Forall_impl. intros m' L. unfold Re.start.
    apply (utf8_length_firstn_lt _ _ _ _ _ S (ascii_not_cont _ G) L).
Qed.

Lemma lit_ascii w :
  forallb Utf8.is_ascii (Text.chars w) = true -> w <> "" ->
  ascii_regex (Re.lit w) /\ consuming (Re.lit w) = true.
Proof.
  unfold Re.lit. intros H N.
  destruct (Text.chars w) as [|a l] eqn:E.
  { destruct w; [congruence|discriminate E]. }
  clear E N. revert a H. induction l as [|b l IH]; intros a H.
  - cbn in H |- *. rewrite andb_true_r in H. auto.
  - cbn [forallb] in H. apply andb_true_iff in H. destruct H as [Ha H].
    change (Re.Lit (a :: b :: l)) with (Re.Seq (Re.Chr a) (Re.Lit (b :: l))).
    cbn [ascii_regex consuming orb]. destruct (IH _ H) as [I _].
    repeat split; assumption.
Qed.

Lemma alts_ascii ws :
  Forall (fun w => forallb Utf8.is_ascii (Text.chars w) = true /\ w <> "")
    ws ->
  ws <> [] ->
  ascii_regex (Re.alts (map Re.lit ws)) /\
  consuming (Re.alts (map Re.lit ws)) = true.
Proof.
  induction 1 as [|w ws [Hw Nw] F IH]; intros N; [contradiction|].
  destruct (lit_ascii w Hw Nw) as [A C].
  destruct ws as [|w2 ws]; [cbn [map Re.alts]; tauto|].
  change (Re.alts (map Re.lit (w :: w2 :: ws)))
    with (Re.Alt (Re.lit w) (Re.alts (map Re.lit (w2 :: ws)))).
  cbn [ascii_regex consuming].
  destruct IH as [A' C']; [discriminate|].
  rewrite C, C'. tauto.
Qed.

Lemma word_group_ascii ws :
  Forall (fun w => forallb Utf8.is_ascii (Text.chars w) = true /\ w <> "")
    ws ->
  ws <> [] ->
  ascii_regex (Patterns.word_group ws) /\
  consuming (Patterns.word_group ws) = true.
Proof.
  intros F N. destruct (alts_ascii ws F N) as [A C].
  unfold Patterns.word_group. cbn [ascii_regex consuming].
  rewrite C. tauto.
Qed.

Lemma non_inclusive_terms_ascii :
  ascii_regex Patterns.non_inclusive_terms /\
  consuming Patterns.non_inclusive_terms = true.
Proof.
  apply word_group_ascii; [|discriminate].
  repeat constructor; discriminate.
Qed.

Lemma passive_voice_ascii :
  ascii_regex Patterns.passive_voice /\
  consuming Patterns.passive_voice = true.
Proof.
  destruct (alts_ascii ["is"; "are"; "was"; "were"; "been"; "be"])
    as [A C]; [repeat constructor; discriminate|discriminate|].
  unfold Patterns.passive_voice, Re.Plus. cbn [ascii_regex consuming].
  rewrite C. split; [|reflexivity].
  split; [exact I|]. split; [exact A|].
  split; [split; apply is_space_ascii|].
  split; [apply is_word_ascii|].
  split; [|exact I]. unfold Re.lit. cbn. split; reflexivity.
Qed.

Section Issues.

Variable http_get : nat -> string -> http_reply.
Variable loop_time : nat -> PyFloat.float.
Variable set_iter : list string -> list string.

(** X9: every issue an analysis reports has one of four shapes, so
    its category and severity are one of voice_tone/info,
    grammar/warning, terminology/warning and accessibility/error; and
    the issues come grouped by category in that order. *)
Theorem issues_are_categorised text analysis_type st :
  exists a st',
    analyze_content http_get loop_time set_iter text analysis_type st
      = (Ok a, st') /\
    Forall issue_shape (a_issues a) /\
    Forall (fun i =>
              In (i_type i, i_severity i)
                [("voice_tone", "info"); ("grammar", "warning");
                 ("terminology", "warning"); ("accessibility", "error")])
      (a_issues a) /\
    StronglySorted by_rank (a_issues a).
Proof.
  destruct (analyze_run http_get loop_time set_iter text analysis_type st)
    as (lg & st1 & E & _).
  eexists _, _. split; [exact E|]. cbn [a_issues].
  pose proof (local_issues_shape analysis_type text) as Sh.
  split; [exact Sh|]. split; [|apply local_issues_by_rank].
  revert Sh. apply List.Forall_impl.
  intros i [->|[(t & m & ->)|[(ts & a & _ & _ & ->)|(t & m & ->)]]];
    cbn; auto.
Qed.

(** X10: the issues do not depend on the analyzer or the network, and a
    comprehensive analysis reports exactly the advice on contractions
    (if any) followed by the grammar issues of a grammar analysis, the
    terminology issues of a terminology analysis and the accessibility
    issues of an accessibility analysis. *)
Theorem comprehensive_is_the_three_passes text st stg stt sta :
  exists a ag at_ aa st1 st2 st3 st4,
    analyze_content http_get loop_time set_iter text "comprehensive" st
      = (Ok a, st1) /\
    analyze_content http_get loop_time set_iter text "grammar" stg
      = (Ok ag, st2) /\
    analyze_content http_get loop_time set_iter text "terminology" stt
      = (Ok at_, st3) /\
    analyze_content http_get loop_time set_iter text "accessibility" sta
      = (Ok aa, st4) /\
    a_issues a =
      of_type "voice_tone" (a_issues ag)
        ++ of_type "grammar" (a_issues ag)
        ++ of_type "terminology" (a_issues at_)
        ++ of_type "accessibility" (a_issues aa).
Proof.
  destruct (analyze_run http_get loop_time set_iter text "comprehensive" st)
    as (lg1 & s1 & E1 & _).
  destruct (analyze_run http_get loop_time set_iter text "grammar" stg)
    as (lg2 & s2 & E2 & _).
  destruct (analyze_run http_get loop_time set_iter text "terminology" stt)
    as (lg3 & s3 & E3 & _).
  destruct (analyze_run http_get loop_time set_iter text "accessibility" sta)
    as (lg4 & s4 & E4 & _).
  eexists _, _, _, _, _, _, _, _.
  split; [exact E1|]. split; [exact E2|]. split; [exact E3|].
  split; [exact E4|]. cbn [a_issues].
  rewrite voice_tone_issues, grammar_of_local, terminology_of_local,
    accessibility_of_local.
  rewrite local_issues_parts. reflexivity.
Qed.


End Issues.

(** ** Substrings, and texts without a visible character *)

Lemma starts_with_iff p s :
  Text.starts_with p s = true <-> exists b, s = p ++ b.
Proof.
  revert s. induction p as [|a p IH]; intros s; cbn [Text.starts_with].
  - split; [exists s; reflexivity|reflexivity].
  - destruct s as [|c s].
    + split; [discriminate|]. intros [b H]. discriminate H.
    + rewrite andb_true_iff, IH. unfold Text.ascii_eqb.
      rewrite Ascii.eqb_eq. split.
      * intros [-> [b ->]]. exists b. reflexivity.
      * intros [b [= -> ->]]. split; [reflexivity|]. exists b. reflexivity.
Qed.

Lemma contains_iff p s :
  Text.contains p s = true <-> exists a b, s = a ++ p ++ b.
Proof.
  induction s as [|c s IH]; cbn [Text.contains].
  - rewrite orb_false_r, starts_with_iff. split.
    + intros [b H]. exists [], b. exact H.
    + intros (a & b & H). destruct a; [exists b; exact H|discriminate H].
  - rewrite orb_true_iff, starts_with_iff, IH. split.
    + intros [[b H]|(a & b & H)].
      * exists [], b. exact H.
      * exists (c :: a), b. rewrite H. reflexivity.
    + intros (a & b & H). destruct a as [|x a].
      * left. exists b. exact H.
      * right. injection H as -> ->. exists a, b. reflexivity.
Qed.

Lemma is_space_not_word c : Text.is_space c = true -> Text.is_word c = false.
Proof.
  destruct c as [[] [] [] [] [] [] [] []]; vm_compute; congruence.
Qed.

(** A pattern that starts with [\b] matches nowhere in a text without
    a visible character. *)
Lemma finditer_boundary_blank icase r s :
  Spans.has_visible s = false ->
  forall pos skip,
  Re.finditer_from icase (Re.Seq Re.Bnd r) false s pos skip = [].
Proof.
  unfold Spans.has_visible.
  induction s as [|c s IH]; intros B pos skip.
  - destruct skip; reflexivity.
  - cbn [existsb] in B. apply orb_false_elim in B. destruct B as [Bc Bs].
    apply negb_false_iff in Bc. pose proof (is_space_not_word c Bc) as W.
    destruct skip; cbn [Re.finditer_from]; rewrite ?W; [|apply IH, Bs].
    unfold Re.match_at. cbn [Re.rmatch Re.prev_word Re.next_word Re.rest].
    rewrite W. cbn [xorb]. apply IH, Bs.
Qed.

Lemma split_on_runs_blank sep s :
  Spans.has_visible s = false ->
  forall in_run cur,
  Spans.has_visible cur = false ->
  Forall (fun sp => Spans.has_visible sp = false)
    (Spans.split_on_runs sep in_run cur s).
Proof.
  unfold Spans.has_visible at 1.
  induction s as [|c s IH]; intros B in_run cur C; cbn [Spans.split_on_runs].
  - constructor; [rewrite has_visible_rev; exact C|constructor].
  - cbn [existsb] in B. apply orb_false_elim in B. destruct B as [Bc Bs].
    destruct (sep c).
    + destruct in_run; [apply IH; [exact Bs|reflexivity]|].
      constructor; [rewrite has_visible_rev; exact C|].
      apply IH; [exact Bs|reflexivity].
    + apply IH; [exact Bs|]. unfold Spans.has_visible in *.
      cbn [existsb]. rewrite Bc, C. reflexivity.
Qed.

Lemma contains_blank p s :
  Spans.has_visible s = false -> Spans.has_visible p = true ->
  Text.contains p s = false.
Proof.
  intros Bs Bp. destruct (Text.contains p s) eqn:E; [|reflexivity].
  apply contains_iff in E. destruct E as (a & b & ->).
  unfold Spans.has_visible in *. rewrite !existsb_app, Bp in Bs.
  rewrite orb_true_r in Bs. discriminate Bs.
Qed.

Lemma avoided_terms_visible :
  Forall (fun ts =>
            Forall (fun v =>
                      Spans.has_visible (Text.lower (Text.chars v)) = true)
              (avoid (snd ts)))
    terminology_standards.
Proof. repeat constructor. Qed.

Lemma terminology_blank analysis_type s :
  Spans.has_visible s = false -> terminology_issues analysis_type s = [].
Proof.
  intros B. unfold terminology_issues. destruct (mem _ _); [|reflexivity].
  pose proof avoided_terms_visible as V.
  induction V as [|ts tss Hts _ IH]; [reflexivity|].
  cbn [flat_map]. rewrite IH, app_nil_r.
  induction Hts as [|v vs Hv _ IHv]; [reflexivity|].
  cbn [flat_map]. rewrite IHv, app_nil_r.
  rewrite contains_blank; [reflexivity| |exact Hv].
  rewrite has_visible_lower. exact B.
Qed.

Lemma space_byte b :
  Text.is_space b = true ->
  Utf8.is_cont b = false /\
  (N.of_nat (Text.code b) <? 128)%N = true /\
  Uni.is_space (N.of_nat (Text.code b)) = true.
Proof.
  destruct b as [[] [] [] [] [] [] [] []]; vm_compute; intros H;
    try discriminate H; repeat split.
Qed.

Lemma decode_blank s :
  Spans.has_visible s = false -> Spans.visible (Utf8.decode s) = false.
Proof.
  unfold Utf8.decode. generalize 0 at 1. generalize 0%N at 1.
  induction s as [|b s IH]; intros acc pending B; [reflexivity|].
  unfold Spans.has_visible in B. cbn [existsb] in B.
  apply orb_false_elim in B. destruct B as [Bb Bs].
  apply negb_false_iff in Bb.
  destruct (space_byte b Bb) as (C & A & U).
  cbn [Utf8.decode_from]. rewrite C, A.
  unfold Spans.visible. cbn [existsb]. rewrite U. apply (IH _ _ Bs).
Qed.

Lemma uni_split_blank s : Spans.visible s = false -> Uni.split s = [].
Proof.
  unfold Uni.split, Spans.visible.
  induction s as [|c s IH]; simpl; [reflexivity|].
  destruct (Uni.is_space c); simpl; [exact IH|discriminate].
Qed.

Section BlankText.

Variable http_get : nat -> string -> http_reply.
Variable loop_time : nat -> PyFloat.float.
Variable set_iter : list string -> list string.


End BlankText.

(** ** Terminology *)

Lemma terminology_issues_In analysis_type text i :
  In i (terminology_issues analysis_type (Text.chars text)) <->
  In analysis_type ["comprehensive"; "terminology"] /\
  exists ts v,
    In ts terminology_standards /\ In v (avoid (snd ts)) /\
    i = terminology_issue (snd ts) v /\ occurs_in v text.
Proof.
  unfold terminology_issues, occurs_in. rewrite <- mem_In.
  destruct (mem analysis_type _).
  - rewrite in_flat_map. split.
    + intros (ts & Hts & Hi). apply in_flat_map in Hi.
      destruct Hi as (v & Hv & Hi).
      destruct (Text.contains _ _) eqn:C; [|destruct Hi].
      destruct Hi as [<-|[]]. split; [reflexivity|].
      exists ts, v. repeat split; auto. apply contains_iff, C.
    + intros (_ & ts & v & Hts & Hv & -> & O).
      exists ts. split; [exact Hts|]. apply in_flat_map.
      exists v. split; [exact Hv|].
      apply contains_iff in O. rewrite O. left. reflexivity.
  - split; [intros []|]. intros [D _]. discriminate D.
Qed.

Section Terminology.

Variable http_get : nat -> string -> http_reply.
Variable loop_time : nat -> PyFloat.float.
Variable set_iter : list string -> list string.

(** X13: a terminology issue is reported exactly when the analysis
    type is comprehensive or terminology and a listed variant occurs
    in the text as a substring, in any capitalisation.  So the two
    listed variants "WiFi" and "wifi" are always reported together. *)
Theorem terminology_matches_substrings text analysis_type st :
  exists a st',
    analyze_content http_get loop_time set_iter text analysis_type st
      = (Ok a, st') /\
    (forall i,
       In i (of_type "terminology" (a_issues a)) <->
       In analysis_type ["comprehensive"; "terminology"] /\
       exists ts v,
         In ts terminology_standards /\ In v (avoid (snd ts)) /\
         i = terminology_issue (snd ts) v /\ occurs_in v text) /\
    (In (terminology_issue wifi_standard "WiFi") (a_issues a) <->
     In (terminology_issue wifi_standard "wifi") (a_issues a)).
Proof.
  destruct (analyze_run http_get loop_time set_iter text analysis_type st)
    as (lg & st1 & E & _).
  eexists _, _. split; [exact E|]. cbn [a_issues].
  rewrite terminology_of_local.
  split; [intros i; apply terminology_issues_In|].
  assert (T : forall v,
            In (terminology_issue wifi_standard v)
              (local_issues analysis_type (Text.chars text)) <->
            In (terminology_issue wifi_standard v)
              (of_type "terminology"
                 (local_issues analysis_type (Text.chars text)))).
  { intros v. unfold of_type. rewrite filter_In. cbn. tauto. }
  assert (W : forall v v',
            Text.lower (Text.chars v) = Text.lower (Text.chars v') ->
            In v (avoid wifi_standard) -> In v' (avoid wifi_standard) ->
            In (terminology_issue wifi_standard v)
              (terminology_issues analysis_type (Text.chars text)) ->
            In (terminology_issue wifi_standard v')
              (terminology_issues analysis_type (Text.chars text))).
  { intros v v' L Hv Hv' H. apply terminology_issues_In in H.
    destruct H as (A & ts & u & Hts & Hu & Ei & O).
    apply terminology_issues_In. split; [exact A|].
    exists ("wifi", wifi_standard), v'.
    split; [cbn; tauto|]. split; [exact Hv'|]. split; [reflexivity|].
    injection Ei as Eu _ _. subst u.
    unfold occurs_in in *. rewrite <- L. exact O. }
  rewrite !T, !terminology_of_local.
  split; apply W; cbn; auto.
Qed.

End Terminology.

(** ** Improvement suggestions *)

Lemma chars_append a b :
  Text.chars (a +:+ b) = Text.chars a ++ Text.chars b.
Proof.
  induction a as [|c a IH]; simpl; [reflexivity|]. f_equal. exact IH.
Qed.

(** The suggestion for an issue of each shape. *)
Lemma suggestion_by_shape i :
  issue_shape i ->
  (i_type i = "voice_tone" /\
   get_improvement_suggestion i =
   "Use more contractions and direct language to sound natural and friendly")
  \/ (i_type i = "grammar" /\
      get_improvement_suggestion i =
      "Follow Microsoft Style Guide recommendations")
  \/ (i_type i = "terminology" /\
      get_improvement_suggestion i =
      "Replace with Microsoft-approved term as noted")
  \/ (i_type i = "accessibility" /\
      exists t, i_text i = Some t /\
        get_improvement_suggestion i =
        "Use inclusive alternative for '" +:+ t +:+ "'").
Proof.
  intros [->|[(s & m & ->)|[(ts & a & _ & _ & ->)|(s & m & ->)]]].
  - left. split; reflexivity.
  - right. left. split; reflexivity.
  - right. right. left. split; reflexivity.
  - right. right. right. split; [reflexivity|].
    eexists. split; reflexivity.
Qed.

Section Suggestions.

Variable http_get : nat -> string -> http_reply.
Variable loop_time : nat -> PyFloat.float.
Variable set_iter : list string -> list string.

Lemma suggest_run text focus_area st :
  exists a st' general,
    analyze_content http_get loop_time set_iter text "comprehensive" st
      = (Ok a, st') /\
    a_issues a = local_issues "comprehensive" (Text.chars text) /\
    (general = [] \/ general = [long_sentence_improvement]) /\
    suggest_improvements http_get loop_time set_iter text focus_area st =
      (Ok (Improvements
             (if 100 <? len text
              then prefix text 100 +:+ "..." else text)
             (length
                (map improvement_of
                   (List.filter
                      (fun i => String.eqb focus_area "all"
                                || String.eqb (i_type i) focus_area)
                      (a_issues a)) ++ general))
             (map improvement_of
                (List.filter
                   (fun i => String.eqb focus_area "all"
                             || String.eqb (i_type i) focus_area)
                   (a_issues a)) ++ general)
             focus_area (style_guide_base_url +:+ "/top-10-tips-style-voice")
             (a_live_guidance a)), st').
Proof.
  destruct (analyze_run http_get loop_time set_iter text "comprehensive" st)
    as (lg & st1 & E & _).
  eexists _, _, _. split; [exact E|]. split; [reflexivity|].
  split; [|unfold suggest_improvements; rewrite (bind_ok _ _ _ _ _ E);
           reflexivity].
  destruct (PrimFloat.ltb _ _); [right|left]; reflexivity.
Qed.

(** X14: what the suggestions say.  Every improvement is either the
    one for long sentences or carries the suggestion of its issue's
    category; a grammar issue always gets the general recommendation,
    and no improvement ever proposes to change a phrase to active
    voice. *)
Theorem suggestions_by_category text focus_area st :
  exists v st',
    suggest_improvements http_get loop_time set_iter text focus_area st
      = (Ok v, st') /\
    Forall (fun m =>
              m = long_sentence_improvement \/
              (m_type m = "voice_tone" /\
               m_suggestion m =
               "Use more contractions and direct language to sound natural and friendly")
              \/ (m_type m = "grammar" /\
                  m_suggestion m =
                  "Follow Microsoft Style Guide recommendations")
              \/ (m_type m = "terminology" /\
                  m_suggestion m =
                  "Replace with Microsoft-approved term as noted")
              \/ (m_type m = "accessibility" /\
                  exists t, m_suggestion m =
                            "Use inclusive alternative for '" +:+ t +:+ "'"))
      (v_improvements v) /\
    (forall m x,
       In m (v_improvements v) ->
       m_suggestion m <> "Change '" +:+ x +:+ "' to active voice").
Proof.
  destruct (suggest_run text focus_area st)
    as (a & st' & general & _ & I & G & E).
  eexists _, _. split; [exact E|]. cbn [v_improvements].
  assert (F : Forall
                (fun m =>
                   m = long_sentence_improvement \/
                   (m_type m = "voice_tone" /\
                    m_suggestion m =
                    "Use more contractions and direct language to sound natural and friendly")
                   \/ (m_type m = "grammar" /\
                       m_suggestion m =
                       "Follow Microsoft Style Guide recommendations")
                   \/ (m_type m = "terminology" /\
                       m_suggestion m =
                       "Replace with Microsoft-approved term as noted")
                   \/ (m_type m = "accessibility" /\
                       exists t, m_suggestion m =
                                 "Use inclusive alternative for '" +:+ t
                                   +:+ "'"))
                (map improvement_of
                   (List.filter
                      (fun i => String.eqb focus_area "all"
                                || String.eqb (i_type i) focus_area)
                      (a_issues a)) ++ general)).
  { apply Forall_app. split.
    - apply List.Forall_forall. intros m Hm. apply in_map_iff in Hm.
      destruct Hm as (i & <- & Hi). apply filter_In in Hi.
      destruct Hi as [Hi _]. rewrite I in Hi.
      pose proof (local_issues_shape "comprehensive" text) as Sh.
      rewrite List.Forall_forall in Sh.
      destruct (suggestion_by_shape i (Sh i Hi))
        as [[T S]|[[T S]|[[T S]|(T & t & _ & S)]]]; cbn; eauto 10.
    - destruct G as [->| ->]; repeat constructor. }
  split; [exact F|].
  intros m x Hm. rewrite List.Forall_forall in F.
  destruct (F m Hm) as [->|[[_ S]|[[_ S]|[[_ S]|(_ & t & S)]]]];
    rewrite ?S; cbn; discriminate.
Qed.

(** X15: [suggest_improvements] always runs one comprehensive
    analysis, whatever the focus area, and keeps its live guidance.
    With the focus "all" it turns every issue into an improvement, in
    order; with another focus every improvement is of that category,
    except the one for long sentences, which is added regardless; an
    unknown focus is not an error.  The count is the length of the
    list. *)
Theorem suggestions_follow_focus text focus_area st :
  exists a v st' general,
    analyze_content http_get loop_time set_iter text "comprehensive" st
      = (Ok a, st') /\
    suggest_improvements http_get loop_time set_iter text focus_area st
      = (Ok v, st') /\
    (general = [] \/ general = [long_sentence_improvement]) /\
    v_live_guidance v = a_live_guidance a /\
    v_total_improvements v = length (v_improvements v) /\
    (focus_area = "all" ->
     v_improvements v = map improvement_of (a_issues a) ++ general) /\
    (focus_area <> "all" ->
     v_improvements v =
       map improvement_of (of_type focus_area (a_issues a)) ++ general).
Proof.
  destruct (suggest_run text focus_area st)
    as (a & st' & general & Ea & _ & G & E).
  eexists a, _, st', general.
  split; [exact Ea|]. split; [exact E|]. split; [exact G|].
  cbn [v_live_guidance v_total_improvements v_improvements].
  split; [reflexivity|]. split; [reflexivity|]. split.
  - intros ->.
    rewrite List.forallb_filter_id
      by (apply forallb_forall; intros; reflexivity).
    reflexivity.
  - intros N. apply String.eqb_neq in N. rewrite N. cbn [orb].
    reflexivity.
Qed.

(** X16: the preview of the text is the text itself when it has at
    most 100 characters, and otherwise its first 100 characters
    followed by three dots, 103 characters in all.  Characters are
    code points, as for [len] and a slice. *)
Theorem preview_is_bounded text focus_area st :
  exists v st',
    suggest_improvements http_get loop_time set_iter text focus_area st
      = (Ok v, st') /\
    len (v_text_preview v) <= 103 /\
    (len text <= 100 -> v_text_preview v = text) /\
    (100 < len text ->
     v_text_preview v = prefix text 100 +:+ "..." /\
     len (v_text_preview v) = 103).
Proof.
  destruct (suggest_run text focus_area st)
    as (a & st' & general & _ & _ & _ & E).
  eexists _, _. split; [exact E|]. cbn [v_text_preview].
  assert (L : 100 < len text -> len (prefix text 100 +:+ "...") = 103).
  { intros H. unfold len, prefix in *.
    rewrite chars_append, utf8_length_app, chars_str, utf8_length_take.
    change (Utf8.length (Text.chars "...")) with 3. lia. }
  destruct (100 <? len text) eqn:C.
  - apply Nat.ltb_lt in C. split; [rewrite L; [lia|exact C]|].
    split; [lia|]. intros _. split; [reflexivity|apply L, C].
  - apply Nat.ltb_ge in C. split; [lia|]. split; [reflexivity|lia].
Qed.

End Suggestions.

(** ** The guideline dump *)

(** X17: [get_style_guidelines] does not validate the category.  It
    returns the groups the category selects (all four for "all", none
    for an unknown category), in a fixed order, each citing the catalog
    URL of its section as "official_url"; it raises [KeyError] exactly
    when the catalog lacks the section of a selected group. *)
Theorem guidelines_by_category category st :
  match get_style_guidelines category st with
  | Ok g =>
      gl_category g = category /\
      map fst (gl_principles g)
        = map (fun s => fst (snd s)) (selected_groups category) /\
      Forall (fun s =>
                exists body url,
                  dict_get (fst (snd s)) (gl_principles g) = Some body /\
                  dict_get (snd (snd s)) (core_urls st) = Some url /\
                  dict_get "official_url" body = Some (GText url))
        (selected_groups category)
  | Raise e =>
      exists s,
        In s (selected_groups category) /\
        dict_get (snd (snd s)) (core_urls st) = None /\
        e = "'" +:+ snd (snd s) +:+ "'"
  end.
Proof.
  unfold get_style_guidelines, add_group, catalog_url, selected_groups,
    guideline_groups, mem, and_then.
  cbn [existsb List.filter fst snd].
  destruct (String.eqb category "all"),
    (String.eqb category "voice"), (String.eqb category "grammar"),
    (String.eqb category "terminology"),
    (String.eqb category "accessibility");
    cbn [orb];
    destruct (dict_get "voice_tone" (core_urls st)) eqn:V,
      (dict_get "writing_tips" (core_urls st)) eqn:W,
      (dict_get "word_list" (core_urls st)) eqn:L,
      (dict_get "bias_free" (core_urls st)) eqn:B;
    cbn [map fst snd gl_category gl_principles];
    first
      [ split; [reflexivity|]; split; [reflexivity|];
        repeat (apply List.Forall_cons;
                [ eexists _, _; split; [reflexivity|];
                  split; [eassumption|reflexivity] |]);
        apply List.Forall_nil
      | eexists (_, (_, _)); split;
        [ (left; reflexivity) + (right; left; reflexivity)
          + (right; right; left; reflexivity)
          + (right; right; right; left; reflexivity) |];
        split; [eassumption|reflexivity] ].
Qed.

(** ** The MCP endpoint *)

Lemma subscript_some k d v st :
  d !! k = Some v -> subscript k d st = (Ok v, st).
Proof. intros H. unfold subscript. rewrite H. reflexivity. Qed.

Lemma subscript_none k d st :
  d !! k = None -> subscript k d st = (Raise ("'" +:+ k +:+ "'"), st).
Proof. intros H. unfold subscript. rewrite H. reflexivity. Qed.

Lemma run_calls_app http_get loop_time set_iter cs1 cs2 st :
  run_calls http_get loop_time set_iter (cs1 ++ cs2) st
  = run_calls http_get loop_time set_iter cs2
      (run_calls http_get loop_time set_iter cs1 st).
Proof. unfold run_calls. apply fold_left_app. Qed.

Lemma guidelines_ok category st :
  core_urls st = initial_core_urls ->
  exists g, get_style_guidelines category st = Ok g.
Proof.
  intros C. unfold get_style_guidelines, add_group, mem. rewrite C.
  cbn [existsb].
  destruct (String.eqb category "voice"), (String.eqb category "grammar"),
    (String.eqb category "terminology"),
    (String.eqb category "accessibility"), (String.eqb category "all");
    eexists; reflexivity.
Qed.

Section EndpointFacts.

Variable http_get : nat -> string -> http_reply.
Variable loop_time : nat -> PyFloat.float.
Variable set_iter : list string -> list string.
Variable json_dumps : tool_output -> string.

Local Abbreviation handle :=
  (handle_mcp_request http_get loop_time set_iter json_dumps).
Local Abbreviation tool_call :=
  (handle_tool_call http_get loop_time set_iter json_dumps).
Local Abbreviation served := (serve http_get loop_time set_iter json_dumps).
Local Abbreviation calls := (run_calls http_get loop_time set_iter).

(** A call of a tool runs at most one method of the analyzer. *)
Lemma tool_call_runs params st :
  exists cs,
    length cs <= 1 /\ Forall tool_method cs /\
    snd (tool_call params st) = calls cs st.
Proof.
  unfold handle_tool_call.
  set (arguments := default ∅ (pm_arguments params)).
  destruct (name_is (pm_name params) "analyze_content").
  { destruct (arguments !! "text") as [text|] eqn:T.
    - exists [CallAnalyze text
                (default "comprehensive" (arguments !! "analysis_type"))].
      split; [cbn; lia|]. split; [repeat constructor|]. unfold bind at 1 2.
      rewrite (subscript_some _ _ _ _ T). unfold bind.
      cbn [run_calls fold_left run_call].
      destruct (analyze_content _ _ _ _ _ _) as [[a|e] s]; reflexivity.
    - exists []. split; [cbn; lia|]. split; [constructor|].
      unfold bind at 1 2.
      rewrite (subscript_none _ _ _ T). reflexivity. }
  destruct (name_is (pm_name params) "get_style_guidelines").
  { exists []. split; [cbn; lia|]. split; [constructor|]. unfold bind.
    destruct (get_style_guidelines _ _); reflexivity. }
  destruct (name_is (pm_name params) "suggest_improvements").
  { destruct (arguments !! "text") as [text|] eqn:T.
    - exists [CallSuggest text (default "all" (arguments !! "focus_area"))].
      split; [cbn; lia|]. split; [repeat constructor|]. unfold bind at 1 2.
      rewrite (subscript_some _ _ _ _ T). unfold bind.
      cbn [run_calls fold_left run_call].
      destruct (suggest_improvements _ _ _ _ _ _) as [[a|e] s]; reflexivity.
    - exists []. split; [cbn; lia|]. split; [constructor|].
      unfold bind at 1 2.
      rewrite (subscript_none _ _ _ T). reflexivity. }
  destruct (name_is (pm_name params) "search_style_guide_live").
  { destruct (arguments !! "query") as [query|] eqn:T.
    - exists [CallSearch query].
      split; [cbn; lia|]. split; [repeat constructor|]. unfold bind at 1 2.
      rewrite (subscript_some _ _ _ _ T). unfold bind.
      cbn [run_calls fold_left run_call].
      destruct (search_style_guide_live _ _ _ _) as [[a|e] s]; reflexivity.
    - exists []. split; [cbn; lia|]. split; [constructor|].
      unfold bind at 1 2.
      rewrite (subscript_none _ _ _ T). reflexivity. }
  exists []. split; [cbn; lia|]. split; [constructor|]. reflexivity.
Qed.

(** The analyzer after the part of [handle_mcp_request] inside the
    [try] is the analyzer after the whole of it. *)
Lemma handle_state (m : M mcp_result) id st :
  snd (try_except
         (do result <- m ; ret (Response "2.0" (Some result) None id))
         (fun e => ret (Response "2.0" None (Some (McpError (-32603) e)) id))
         st)
  = snd (m st).
Proof.
  unfold try_except, bind, ret. destruct (m st) as [[v|e] s]; reflexivity.
Qed.

Lemma handle_answer (m : M mcp_result) id st :
  try_except
    (do result <- m ; ret (Response "2.0" (Some result) None id))
    (fun e => ret (Response "2.0" None (Some (McpError (-32603) e)) id))
    st
  = match m st with
    | (Ok v, s) => (Ok (Response "2.0" (Some v) None id), s)
    | (Raise e, s) =>
        (Ok (Response "2.0" None (Some (McpError (-32603) e)) id), s)
    end.
Proof.
  unfold try_except, bind, ret. destruct (m st) as [[v|e] s]; reflexivity.
Qed.

Lemma handle_runs rq st :
  exists cs,
    length cs <= (if is_tool_call rq then 1 else 0) /\
    Forall tool_method cs /\
    snd (handle rq st) = calls cs st.
Proof.
  unfold handle_mcp_request. rewrite handle_state. unfold is_tool_call.
  destruct (String.eqb (rq_method rq) "initialize") eqn:E1.
  { apply String.eqb_eq in E1. rewrite E1. exists []. split; [cbn; lia|].
    split; [constructor|reflexivity]. }
  destruct (String.eqb (rq_method rq) "tools/list") eqn:E2.
  { apply String.eqb_eq in E2. rewrite E2. exists []. split; [cbn; lia|].
    split; [constructor|reflexivity]. }
  destruct (String.eqb (rq_method rq) "tools/call") eqn:E3.
  { destruct (rq_params rq) as [params|].
    - apply tool_call_runs.
    - exists []. split; [cbn; lia|]. split; [constructor|reflexivity]. }
  exists []. split; [cbn; lia|]. split; [constructor|].
  destruct (String.eqb (rq_method rq) "prompts/list"); [reflexivity|].
  destruct (String.eqb (rq_method rq) "prompts/get"); [|reflexivity].
  destruct (rq_params rq) as [params|]; [|reflexivity].
  unfold handle_prompt_get. destruct (name_is _ _); reflexivity.
Qed.

Lemma serve_runs rqs :
  forall st,
    exists cs,
      length cs <= length (List.filter is_tool_call rqs) /\
      Forall tool_method cs /\
      served rqs st = calls cs st.
Proof.
  induction rqs as [|rq rqs IH]; intros st.
  - exists []. split; [cbn; lia|]. split; [constructor|reflexivity].
  - destruct (handle_runs rq st) as (c1 & L1 & T1 & E1).
    destruct (IH (snd (handle rq st))) as (c2 & L2 & T2 & E2).
    exists (c1 ++ c2). split; [|split].
    + rewrite length_app. cbn [List.filter].
      destruct (is_tool_call rq); cbn [length]; lia.
    + apply Forall_app. split; assumption.
    + rewrite run_calls_app, <- E1. exact E2.
Qed.

Lemma serve_catalog rqs st : core_urls (served rqs st) = core_urls st.
Proof.
  destruct (serve_runs rqs st) as (cs & _ & _ & E). rewrite E.
  apply (run_calls_extends http_get loop_time set_iter cs st).
Qed.

(** X18: the endpoint answers every request.  Whatever the request and
    the analyzer, [handle_mcp_request] returns a response with version
    "2.0" and the request's id that carries either a result or an error
    with code -32603, never both; and a request whose method is not
    "tools/call" leaves the analyzer as it was. *)
Theorem endpoint_always_answers rq st :
  exists r st',
    handle_mcp_request http_get loop_time set_iter json_dumps rq st
      = (Ok r, st') /\
    rs_jsonrpc r = "2.0" /\
    rs_id r = rq_id rq /\
    ((exists v, rs_result r = Some v /\ rs_error r = None) \/
     (exists m,
        rs_result r = None /\ rs_error r = Some (McpError (-32603) m))) /\
    (is_tool_call rq = false -> st' = st).
Proof.
  destruct (handle_runs rq st) as (cs & L & _ & E).
  unfold handle_mcp_request in E |- *. rewrite handle_answer in E |- *.
  match goal with
  | |- context [match ?x with (_, _) => _ end] =>
      destruct x as [[v|e] s]
  end.
  - eexists _, _. split; [reflexivity|].
    split; [reflexivity|]. split; [reflexivity|]. split.
    + left. eexists. split; reflexivity.
    + intros T. rewrite T in L. destruct cs; [exact E|cbn in L; lia].
  - eexists _, _. split; [reflexivity|].
    split; [reflexivity|]. split; [reflexivity|]. split.
    + right. eexists. split; reflexivity.
    + intros T. rewrite T in L. destruct cs; [exact E|cbn in L; lia].
Qed.

Lemma name_is_true name s : name_is name s = true -> name = Some s.
Proof.
  destruct name as [n|]; cbn; [|discriminate].
  intros H. apply String.eqb_eq in H. congruence.
Qed.

Lemma name_is_false name s : name <> Some s -> name_is name s = false.
Proof.
  intros H. destruct (name_is name s) eqn:E; [|reflexivity].
  apply name_is_true in E. contradiction.
Qed.

Lemma unlisted_name name :
  (forall t, In t listed_tools -> name <> Some (t_name t)) ->
  name_is name "analyze_content" = false /\
  name_is name "get_style_guidelines" = false /\
  name_is name "suggest_improvements" = false /\
  name_is name "search_style_guide_live" = false.
Proof.
  intros U. repeat split; apply name_is_false.
  - apply (U (nth 0 listed_tools (Tool "" "" [] []))). cbn. tauto.
  - apply (U (nth 1 listed_tools (Tool "" "" [] []))). cbn. tauto.
  - apply (U (nth 2 listed_tools (Tool "" "" [] []))). cbn. tauto.
  - apply (U (nth 3 listed_tools (Tool "" "" [] []))). cbn. tauto.
Qed.

(** The response to a call of a tool, from what the call does. *)
Lemma handle_tool_call_ok params id st v s :
  tool_call params st = (Ok v, s) ->
  handle (Request "2.0" "tools/call" (Some params) id) st
  = (Ok (Response "2.0" (Some v) None id), s).
Proof.
  intros H. unfold handle_mcp_request, try_except, bind, ret.
  cbn [rq_method rq_params rq_id String.eqb Ascii.eqb Bool.eqb].
  rewrite H. reflexivity.
Qed.

Lemma handle_tool_call_raise params id st e s :
  tool_call params st = (Raise e, s) ->
  handle (Request "2.0" "tools/call" (Some params) id) st
  = (Ok (Response "2.0" None (Some (McpError (-32603) e)) id), s).
Proof.
  intros H. unfold handle_mcp_request, try_except, bind, ret.
  cbn [rq_method rq_params rq_id String.eqb Ascii.eqb Bool.eqb].
  rewrite H. reflexivity.
Qed.

(** X19: the tools the server lists are the tools it runs.  On a server
    that has answered any requests, a call that names a listed tool and
    gives every argument the tool's schema requires gets a result; one
    that leaves a required argument out gets the error naming that
    argument, and the analyzer is not touched; and a call that names no
    listed tool gets the unknown-tool error, the analyzer untouched. *)
Theorem listed_tools_are_the_callable_ones rqs name arguments id :
  let st := serve http_get loop_time set_iter json_dumps rqs init in
  let args := default ∅ arguments in
  exists r st',
    handle_mcp_request http_get loop_time set_iter json_dumps
      (Request "2.0" "tools/call" (Some (Params name arguments)) id) st
    = (Ok r, st') /\
    (forall t,
       In t listed_tools -> name = Some (t_name t) ->
       (Forall (fun k => args !! k <> None) (t_required t) ->
        exists text, rs_result r = Some (RContent text)) /\
       (forall k,
          In k (t_required t) -> args !! k = None ->
          rs_error r = Some (McpError (-32603) ("'" +:+ k +:+ "'")) /\
          st' = st)) /\
    ((forall t, In t listed_tools -> name <> Some (t_name t)) ->
     rs_error r
       = Some (McpError (-32603) ("Unknown tool: " +:+ format_name name)) /\
     st' = st).
Proof.
  intros st args.
  assert (C : core_urls st = initial_core_urls)
    by (unfold st; rewrite serve_catalog; reflexivity).
  destruct (tool_call (Params name arguments) st) as [[v|e] s] eqn:T.
  - exists (Response "2.0" (Some v) None id), s.
    split; [apply handle_tool_call_ok, T|].
    unfold handle_tool_call in T. cbn [pm_name pm_arguments] in T.
    fold args in T. cbn [rs_result rs_error]. split.
    + intros t I N. split.
      * intros _. unfold bind, ret in T.
        destruct (_ st) as [[o|e] s'] in T; [|discriminate T].
        injection T as <- _. eexists. reflexivity.
      * intros k K A. exfalso.
        destruct I as [<-|[<-|[<-|[<-|[]]]]]; cbn [t_name t_required] in *;
          subst name; cbn [name_is String.eqb Ascii.eqb Bool.eqb] in T;
          try destruct K as [<-|[]]; try destruct K;
          unfold bind at 1 2 in T;
          rewrite (subscript_none _ _ _ A) in T; discriminate T.
    + intros U. exfalso.
      destruct (unlisted_name name U) as (N1 & N2 & N3 & N4).
      rewrite N1, N2, N3, N4 in T. discriminate T.
  - exists (Response "2.0" None (Some (McpError (-32603) e)) id), s.
    split; [apply handle_tool_call_raise, T|].
    unfold handle_tool_call in T. cbn [pm_name pm_arguments] in T.
    fold args in T. cbn [rs_result rs_error]. split.
    + intros t I N. split.
      * intros R. exfalso.
        destruct I as [<-|[<-|[<-|[<-|[]]]]]; cbn [t_name t_required] in *;
          subst name; cbn [name_is String.eqb Ascii.eqb Bool.eqb] in T.
        -- apply Forall_inv in R.
           destruct (args !! "text") as [text|] eqn:A; [|congruence].
           unfold bind at 1 2 in T. rewrite (subscript_some _ _ _ _ A) in T.
           destruct (analyze_run http_get loop_time set_iter text
                       (default "comprehensive" (args !! "analysis_type")) st)
             as (lg & st1 & E & _).
           rewrite (bind_ok _ _ _ _ _ E) in T. discriminate T.
        -- destruct (guidelines_ok (default "all" (args !! "category")) st C)
             as (g & G).
           unfold bind, ret in T. rewrite G in T. discriminate T.
        -- apply Forall_inv in R.
           destruct (args !! "text") as [text|] eqn:A; [|congruence].
           unfold bind at 1 2 in T. rewrite (subscript_some _ _ _ _ A) in T.
           destruct (suggest_run http_get loop_time set_iter text
                       (default "all" (args !! "focus_area")) st)
             as (a & st1 & general & _ & _ & _ & E).
           rewrite (bind_ok _ _ _ _ _ E) in T. discriminate T.
        -- apply Forall_inv in R.
           destruct (args !! "query") as [query|] eqn:A; [|congruence].
           unfold bind at 1 2 in T. rewrite (subscript_some _ _ _ _ A) in T.
           destruct (search_run http_get loop_time query st)
             as (found & st1 & E & _).
           rewrite (bind_ok _ _ _ _ _ E) in T. discriminate T.
      * intros k K A.
        destruct I as [<-|[<-|[<-|[<-|[]]]]]; cbn [t_name t_required] in *;
          subst name; cbn [name_is String.eqb Ascii.eqb Bool.eqb] in T;
          try destruct K as [<-|[]]; try destruct K;
          unfold bind at 1 2 in T;
          rewrite (subscript_none _ _ _ A) in T;
          injection T as <- <-; split; reflexivity.
    + intros U.
      destruct (unlisted_name name U) as (N1 & N2 & N3 & N4).
      rewrite N1, N2, N3, N4 in T.
      injection T as <- <-. split; reflexivity.
Qed.

(** X20: the server only drives the analyzer through its methods.  The
    analyzer after any requests is the analyzer after a sequence of
    calls, each one a call of [analyze_content], [suggest_improvements]
    or [search_style_guide_live], at most one for each "tools/call"
    request; so on a server started with a new analyzer the catalog is
    the initial one and a failed fetch is never in the cache. *)
Theorem endpoint_runs_analyzer_calls rqs st :
  (exists cs,
     length cs <= length (List.filter is_tool_call rqs) /\
     Forall tool_method cs /\
     serve http_get loop_time set_iter json_dumps rqs st
     = run_calls http_get loop_time set_iter cs st) /\
  core_urls (serve http_get loop_time set_iter json_dumps rqs init)
    = initial_core_urls /\
  forall url e u,
    content_cache (serve http_get loop_time set_iter json_dumps rqs init)
      !! url
    <> Some (FetchFailed e u).
Proof.
  split; [apply serve_runs|]. split; [rewrite serve_catalog; reflexivity|].
  destruct (serve_runs rqs init) as (cs & _ & _ & E). rewrite E.
  assert (K : cache_ok (calls cs init)).
  { apply (run_calls_keep http_get loop_time set_iter cache_ok);
      [| |exact cache_ok_init].
    - intros url s. apply fetch_keeps_cache_ok.
    - intros s s' C _ Hs. unfold cache_ok. rewrite C. exact Hs. }
  intros url e u L. destruct (K url _ L) as (p & D & _). discriminate D.
Qed.

End EndpointFacts.

(** ** The text and the title of a page *)

Lemma forallb_rev {A} (f : A -> bool) (l : list A) :
  forallb f (rev l) = forallb f l.
Proof.
  induction l as [|x l IH]; [reflexivity|].
  cbn [rev forallb]. rewrite forallb_app, IH. cbn [forallb].
  rewrite andb_true_r. apply andb_comm.
Qed.

Lemma split_ws_tokens s :
  forall cur,
    forallb (fun c => negb (Text.is_space c)) cur = true ->
    Forall token (Text.split_ws cur s).
Proof.
  induction s as [|c s IH]; intros cur H; cbn [Text.split_ws].
  - destruct cur as [|x cur]; [constructor|].
    constructor; [|constructor]. split.
    + intros E. apply (f_equal (@length ascii)) in E.
      rewrite length_rev in E. discriminate E.
    + rewrite forallb_rev. exact H.
  - destruct (Text.is_space c) eqn:S.
    + destruct cur as [|x cur]; [apply IH; reflexivity|].
      constructor; [|apply IH; reflexivity]. split.
      * intros E. apply (f_equal (@length ascii)) in E.
        rewrite length_rev in E. discriminate E.
      * rewrite forallb_rev. exact H.
    + apply IH. cbn [forallb]. rewrite S. exact H.
Qed.

Lemma split_ws_token_app w :
  forall cur r,
    forallb (fun c => negb (Text.is_space c)) w = true ->
    Text.split_ws cur (w ++ r) = Text.split_ws (rev w ++ cur) r.
Proof.
  induction w as [|c w IH]; intros cur r H; [reflexivity|].
  cbn [forallb] in H. apply andb_true_iff in H. destruct H as [C H].
  apply negb_true_iff in C.
  cbn [app Text.split_ws rev]. rewrite C, (IH _ _ H), <- app_assoc.
  reflexivity.
Qed.

Lemma split_ws_end w :
  token w -> Text.split_ws (rev w) [] = [w].
Proof.
  intros [N _]. cbn [Text.split_ws].
  destruct (rev w) as [|x t] eqn:E.
  - apply (f_equal (@length ascii)) in E. rewrite length_rev in E.
    destruct w; [contradiction|discriminate E].
  - rewrite <- E, rev_involutive. reflexivity.
Qed.

Lemma split_join ws :
  Forall token ws -> Text.split (Text.join [blank] ws) = ws.
Proof.
  unfold Text.split. induction 1 as [|w ws T F IH]; [reflexivity|].
  destruct ws as [|w2 ws].
  - cbn [Text.join]. rewrite <- (app_nil_r w) at 1.
    rewrite split_ws_token_app by apply T. rewrite app_nil_r.
    apply split_ws_end, T.
  - change (Text.join [blank] (w :: w2 :: ws))
      with (w ++ [blank] ++ Text.join [blank] (w2 :: ws)).
    rewrite split_ws_token_app by apply T. rewrite app_nil_r.
    cbn [app Text.split_ws]. change (Text.is_space blank) with true.
    cbv iota. destruct (rev w) as [|x t] eqn:E.
    + apply (f_equal (@length ascii)) in E. rewrite length_rev in E.
      destruct T as [N _]. destruct w; [contradiction|discriminate E].
    + rewrite <- E, rev_involutive, IH. reflexivity.
Qed.

Lemma split_normalised s : normalised (Text.join [blank] (Text.split s)).
Proof.
  exists (Text.split s). split; [|reflexivity].
  apply split_ws_tokens. reflexivity.
Qed.

Lemma normalised_fixed s :
  normalised s -> Text.join [blank] (Text.split s) = s.
Proof. intros (ws & F & ->). rewrite split_join by exact F. reflexivity. Qed.

(** A sequence of tokens starts, and ends, with a visible character. *)
Lemma join_head w ws :
  Forall token (w :: ws) ->
  exists c t,
    Text.join [blank] (w :: ws) = c :: t /\ Text.is_space c = false.
Proof.
  intros F. apply Forall_inv in F. destruct F as [N V].
  destruct w as [|c w]; [contradiction|].
  cbn [forallb] in V. apply andb_true_iff in V. destruct V as [V _].
  apply negb_true_iff in V.
  destruct ws; cbn [Text.join app]; eexists _, _; split;
    try reflexivity; exact V.
Qed.

Lemma join_last ws :
  Forall token ws -> ws <> [] ->
  exists c t,
    rev (Text.join [blank] ws) = c :: t /\ Text.is_space c = false.
Proof.
  induction 1 as [|w ws T F IH]; intros N; [contradiction|].
  destruct ws as [|w2 ws].
  - cbn [Text.join]. destruct T as [E V].
    rewrite <- forallb_rev in V.
    destruct (rev w) as [|c t] eqn:R.
    + apply (f_equal (@length ascii)) in R. rewrite length_rev in R.
      destruct w; [contradiction|discriminate R].
    + cbn [forallb] in V. apply andb_true_iff in V. destruct V as [V _].
      apply negb_true_iff in V. eexists _, _. split; [reflexivity|exact V].
  - change (Text.join [blank] (w :: w2 :: ws))
      with (w ++ [blank] ++ Text.join [blank] (w2 :: ws)).
    destruct IH as (c & t & R & V); [discriminate|].
    rewrite !rev_app_distr, R. cbn [app].
    eexists _, _. split; [reflexivity|exact V].
Qed.

Lemma lstrip_visible_head c t :
  Text.is_space c = false -> Text.lstrip (c :: t) = c :: t.
Proof. intros H. cbn [Text.lstrip]. rewrite H. reflexivity. Qed.

Lemma normalised_strip s : normalised s -> Text.strip s = s.
Proof.
  intros (ws & F & ->). unfold Text.strip.
  destruct ws as [|w ws]; [reflexivity|].
  destruct (join_head w ws F) as (c & t & E & V).
  rewrite E, (lstrip_visible_head _ _ V), <- E.
  destruct (join_last (w :: ws) F) as (c' & t' & E' & V'); [discriminate|].
  rewrite E', (lstrip_visible_head _ _ V'), <- E'.
  apply rev_involutive.
Qed.

Lemma contains_skip_token p0 p w :
  forall r,
    Text.is_space p0 = true ->
    forallb (fun c => negb (Text.is_space c)) w = true ->
    Text.contains (p0 :: p) (w ++ r) = Text.contains (p0 :: p) r.
Proof.
  intros r P. induction w as [|c w IH]; intros V; [reflexivity|].
  cbn [forallb] in V. apply andb_true_iff in V. destruct V as [C V].
  apply negb_true_iff in C.
  cbn [app Text.contains Text.starts_with].
  replace (Text.ascii_eqb p0 c) with false; [exact (IH V)|].
  symmetry. unfold Text.ascii_eqb. apply Ascii.eqb_neq. congruence.
Qed.

Lemma normalised_single_blanks s :
  normalised s -> Text.contains [blank; blank] s = false.
Proof.
  intros (ws & F & ->). induction F as [|w ws T F IH]; [reflexivity|].
  destruct ws as [|w2 ws].
  - cbn [Text.join]. rewrite <- (app_nil_r w).
    rewrite contains_skip_token; [reflexivity|reflexivity|apply T].
  - change (Text.join [blank] (w :: w2 :: ws))
      with (w ++ [blank] ++ Text.join [blank] (w2 :: ws)).
    rewrite contains_skip_token; [|reflexivity|apply T].
    destruct (join_head w2 ws F) as (c & t & E & V).
    cbn [app Text.contains]. rewrite IH, orb_false_r.
    rewrite E. cbn [Text.starts_with].
    replace (Text.ascii_eqb blank c) with false;
      [rewrite andb_false_r; reflexivity|].
    symmetry. unfold Text.ascii_eqb. apply Ascii.eqb_neq.
    intros <-. discriminate V.
Qed.

Lemma token_no_space w :
  token w -> Forall (fun c => Text.is_space c = true -> c = blank) w.
Proof.
  intros [_ V]. apply List.Forall_forall. intros c I.
  rewrite forallb_forall in V. specialize (V c I).
  apply negb_true_iff in V. congruence.
Qed.

Lemma normalised_blanks s :
  normalised s -> Forall (fun c => Text.is_space c = true -> c = blank) s.
Proof.
  intros (ws & F & ->). induction F as [|w ws T F IH]; [constructor|].
  destruct ws as [|w2 ws]; [apply token_no_space, T|].
  change (Text.join [blank] (w :: w2 :: ws))
    with (w ++ [blank] ++ Text.join [blank] (w2 :: ws)).
  apply Forall_app. split; [apply token_no_space, T|].
  apply Forall_app. split; [|exact IH].
  constructor; [reflexivity|constructor].
Qed.


(** *** The title *)

Lemma lit_sound p :
  forall k c e,
    Re.rmatch false (Re.Lit p) k c = Some e ->
    exists c',
      Re.rest c = p ++ Re.rest c' /\ Re.group1 c' = Re.group1 c /\
      k c' = Some e.
Proof.
  induction p as [|a p IH]; intros k c e H.
  - exists c. split; [reflexivity|]. split; [reflexivity|exact H].
  - destruct p as [|b p].
    + cbn [Re.Lit Re.rmatch] in H.
      destruct (step_sound _ _ _ _ H) as (x & c' & R & Q & G & K).
      unfold Re.chr_eq, Text.ascii_eqb in Q. apply Ascii.eqb_eq in Q.
      subst x. exists c'. split; [exact R|]. split; assumption.
    + change (Re.Lit (a :: b :: p)) with (Re.Seq (Re.Chr a) (Re.Lit (b :: p)))
        in H.
      cbn [Re.rmatch] in H.
      destruct (step_sound _ _ _ _ H) as (x & c1 & R & Q & G & K).
      unfold Re.chr_eq, Text.ascii_eqb in Q. apply Ascii.eqb_eq in Q.
      subst x. destruct (IH _ _ _ K) as (c' & R' & G' & K').
      exists c'. split; [rewrite R, R'; reflexivity|].
      split; [congruence|exact K'].
Qed.

Lemma star_class_sound g q k n :
  forall c e,
    Re.star_loop g (Re.step q) k n c = Some e ->
    exists run c',
      Re.rest c = run ++ Re.rest c' /\ forallb q run = true /\
      Re.group1 c' = Re.group1 c /\ k c' = Some e.
Proof.
  induction n as [|n IH]; intros c e H.
  - cbn [Re.star_loop] in H.
    assert (K : k c = Some e).
    { destruct g; cbn [Re.orelse] in H; [exact H|].
      destruct (k c); [exact H|discriminate H]. }
    exists [], c. repeat split; assumption.
  - cbn [Re.star_loop] in H.
    assert (D : k c = Some e \/
                Re.step q
                  (fun c' =>
                     if length (Re.rest c') <? length (Re.rest c)
                     then Re.star_loop g (Re.step q) k n c' else None) c
                = Some e).
    { destruct g; unfold Re.orelse in H.
      - destruct (Re.step q _ c) as [e'|]; [right; exact H|left; exact H].
      - destruct (k c) as [e'|]; [left; exact H|right; exact H]. }
    destruct D as [K|D]; [exists [], c; repeat split; assumption|].
    destruct (step_sound _ _ _ _ D) as (x & c1 & R & Q & G & K).
    destruct (length (Re.rest c1) <? length (Re.rest c)); [|discriminate K].
    destruct (IH _ _ K) as (run & c' & R' & Q' & G' & K').
    exists (x :: run), c'. split; [rewrite R, R'; reflexivity|].
    split; [cbn [forallb]; rewrite Q; exact Q'|].
    split; [congruence|exact K'].
Qed.

(** A match of the title pattern: the tag, a run without "<" that is
    not empty, and the closing tag; group 1 is the run. *)
Lemma title_match_at pw s pos m :
  Re.match_at false Patterns.title_tag pw s pos = Some m ->
  exists t b,
    Re.m_group1 m = Some t /\ t <> [] /\
    forallb (Patterns.isnt "<") t = true /\
    s = Text.chars "<title>" ++ t ++ Text.chars "</title>" ++ b.
Proof.
  unfold Re.match_at.
  destruct (Re.rmatch false Patterns.title_tag Some _) as [e|] eqn:H;
    [|discriminate].
  intros [= <-]. cbn [Re.m_group1].
  unfold Patterns.title_tag, Re.lit, Re.Plus in H. cbn [Re.rmatch] in H.
  destruct (lit_sound _ _ _ _ H) as (c1 & R1 & G1 & H1).
  cbn [Re.rest Re.group1] in R1, G1.
  destruct (step_sound _ _ _ _ H1) as (x & c2 & R2 & Q2 & G2 & H2).
  destruct (star_class_sound _ _ _ _ _ _ H2) as (run & c3 & R3 & Q3 & G3 & H3).
  destruct (lit_sound _ _ _ _ H3) as (c4 & R4 & G4 & H4).
  injection H4 as <-. cbn [Re.rest Re.group1] in R4, G4.
  exists (x :: run), (Re.rest c4). rewrite G4.
  assert (E : Re.rest c1 = (x :: run) ++ Re.rest c3)
    by (rewrite R2, R3; reflexivity).
  split.
  - unfold Re.consumed. rewrite E. f_equal. apply firstn_prefix.
  - split; [discriminate|]. split; [cbn [forallb]; rewrite Q2; exact Q3|].
    rewrite R1, E, R4. reflexivity.
Qed.

(** Every match [finditer] reports is a match at some offset. *)
Lemma finditer_from_match_at icase r s :
  forall pw pos skip m,
    In m (Re.finditer_from icase r pw s pos skip) ->
    exists pw' k pos',
      Re.match_at icase r pw' (skipn k s) pos' = Some m.
Proof.
  induction s as [|x t IH]; intros pw pos skip m.
  - destruct skip; cbn [Re.finditer_from]; [|intros []].
    destruct (Re.match_at icase r pw [] pos) as [m0|] eqn:E; [|intros []].
    intros [<-|[]]. exists pw, 0, pos. exact E.
  - destruct skip as [|k]; cbn [Re.finditer_from].
    + destruct (Re.match_at icase r pw (x :: t) pos) as [m0|] eqn:E.
      * intros [<-|H]; [exists pw, 0, pos; exact E|].
        destruct (IH _ _ _ _ H) as (pw' & k & pos' & G).
        exists pw', (S k), pos'. exact G.
      * intros H. destruct (IH _ _ _ _ H) as (pw' & k & pos' & G).
        exists pw', (S k), pos'. exact G.
    + intros H. destruct (IH _ _ _ _ H) as (pw' & k' & pos' & G).
      exists pw', (S k'), pos'. exact G.
Qed.

(** X22: the title of a page is the text of a title element.  Whatever
    the body of the response, the title is either the default one or a
    text that is not empty, holds no "<", and stands in the body
    between "<title>" and "</title>". *)
Theorem title_is_the_tagged_text content :
  extract_title content = "Microsoft Style Guide" \/
  exists t,
    extract_title content = Text.str t /\
    t <> [] /\
    Forall (fun c => c <> "<"%char) t /\
    exists a b,
      content
      = a ++ Text.chars "<title>" ++ t ++ Text.chars "</title>" ++ b.
Proof.
  unfold extract_title, Re.search, Re.finditer.
  destruct (Re.finditer_from false Patterns.title_tag false content 0 0)
    as [|m ms] eqn:F; [left; reflexivity|].
  cbn [head].
  destruct (finditer_from_match_at false Patterns.title_tag content
              false 0 0 m) as (pw & k & pos & E);
    [rewrite F; left; reflexivity|].
  destruct (title_match_at _ _ _ _ E) as (t & b & G & N & Q & S).
  rewrite G. right. exists t. split; [reflexivity|]. split; [exact N|].
  split.
  - apply List.Forall_forall. intros c I ->.
    rewrite forallb_forall in Q. specialize (Q _ I). discriminate Q.
  - exists (firstn k content), b.
    rewrite <- S. symmetry. apply firstn_skipn.
Qed.

(** ** The sections behind live guidance *)

Lemma dict_set_Forall {V} (P : string * V -> Prop) k v d :
  P (k, v) -> Forall P d -> Forall P (dict_set k v d).
Proof.
  intros H F. induction F as [|[k' v'] d Hx F IH]; cbn [dict_set].
  - constructor; [exact H|constructor].
  - destruct (String.eqb k k'); constructor; assumption.
Qed.

Section GuidanceSections.

Variable http_get : nat -> string -> http_reply.
Variable loop_time : nat -> PyFloat.float.
Variable set_iter : list string -> list string.

Lemma guidance_sections topic st :
  exists g st',
    get_official_guidance http_get loop_time topic st = (Ok g, st') /\
    core_urls st' = core_urls st /\
    Forall (fun it => In (g_section it) (consulted topic (core_urls st)))
      (gr_guidance g).
Proof.
  destruct (for_each_inv
              (fun acc s =>
                 core_urls s = core_urls st /\
                 Forall (fun it =>
                           In (g_section it)
                             (consulted topic (core_urls st))) acc)
              (consulted topic (core_urls st))
              (guidance_step http_get loop_time (core_urls st)))
    with (acc := @nil guidance_item) (st := st)
    as (items & st1 & E & C & F).
  - intros section acc s I [C F]. unfold guidance_step.
    destruct (dict_get section (core_urls st)) as [url|].
    + destruct (fetch_extends http_get loop_time url s)
        as (r & s' & E & [_ U] & _).
      rewrite (bind_ok _ _ _ _ _ E).
      destruct r as [p|e u]; eexists _, _; (split; [reflexivity|]);
        (split; [congruence|]); [|exact F].
      apply Forall_app. split; [exact F|].
      constructor; [exact I|constructor].
    + eexists _, _. split; [reflexivity|]. split; assumption.
  - split; [reflexivity|constructor].
  - eexists _, _. split.
    + unfold get_official_guidance. apply try_except_ok.
      unfold bind at 1, gets at 1. unfold consulted in E.
      rewrite (bind_ok _ _ _ _ _ E). reflexivity.
    + split; [exact C|exact F].
Qed.

Lemma collect_guidance_sections topics :
  forall lg st lg' st',
    collect_guidance http_get loop_time topics lg st = (Ok lg', st') ->
    Forall (guided_by (core_urls st)) lg ->
    Forall (guided_by (core_urls st)) lg'.
Proof.
  induction topics as [|t topics IH]; intros lg st lg' st'.
  - intros [= <- _] F. exact F.
  - cbn [collect_guidance].
    destruct (guidance_sections t st) as (g & s1 & E & C & F). rewrite E.
    destruct (gr_guidance g) as [|first more]; intros H F0;
      rewrite <- C; apply (IH _ _ _ _ H); rewrite C; [exact F0|].
    apply dict_set_Forall; [|exact F0].
    apply Forall_inv in F. exact F.
Qed.

(** X23: where live guidance comes from.  The guidance an analysis
    attaches to a category is a page of one of the (at most three)
    sections consulted for the category's name.  With the catalog of a
    new analyzer these are the voice_tone section for voice_tone, the
    writing_tips section for grammar, the word_list section for
    terminology, and, as no topic keyword occurs in "accessibility",
    the first three sections of the catalog for accessibility. *)
Theorem live_guidance_sections text analysis_type st :
  exists a st',
    analyze_content http_get loop_time set_iter text analysis_type st
      = (Ok a, st') /\
    Forall (guided_by (core_urls st)) (a_live_guidance a) /\
    consulted "voice_tone" (core_urls init) = ["voice_tone"; "voice_tone"] /\
    consulted "grammar" (core_urls init) = ["writing_tips"] /\
    consulted "terminology" (core_urls init) = ["word_list"] /\
    consulted "accessibility" (core_urls init)
      = ["voice_tone"; "top_tips"; "bias_free"].
Proof.
  destruct (analyze_run http_get loop_time set_iter text analysis_type st)
    as (lg & st1 & E & _ & _ & _ & K).
  eexists _, _. split; [exact E|]. cbn [a_live_guidance]. split.
  - apply (collect_guidance_sections _ _ _ _ _ K). constructor.
  - repeat split; reflexivity.
Qed.

End GuidanceSections.

(** ** Concrete runs of the further properties *)

Lemma cache_holds_pages_only_witness :
  cache_ok init /\
  let st :=
    run_calls online ticks latest_first
      [CallSearch "bias"; CallAnalyze "Hey guys" "comprehensive";
       CallFetch welcome_url] init in
  cache_ok st /\
  forall url e u, content_cache st !! url <> Some (FetchFailed e u).
Proof.
  split; [apply map_Forall_empty|].
  apply (cache_holds_pages_only online ticks latest_first
           [CallSearch "bias"; CallAnalyze "Hey guys" "comprehensive";
            CallFetch welcome_url] init).
  apply map_Forall_empty.
Defined.

Lemma failure_comes_from_the_network_witness :
  cache_ok init /\
  exists e u st',
    fetch_web_content offline ticks welcome_url init
      = (Ok (FetchFailed e u), st') /\
    u = welcome_url /\
    requests st' = welcome_url :: requests init /\
    content_cache st' = content_cache init /\
    content_cache st' !! welcome_url = None.
Proof.
  split; [apply map_Forall_empty|].
  eexists _, _, _. split; [vm_compute; reflexivity|].
  apply (failure_comes_from_the_network offline ticks welcome_url init
           "Cannot connect to host" welcome_url);
    [apply map_Forall_empty|vm_compute; reflexivity].
Defined.

Lemma warm_search_is_offline_witness :
  let st := run_calls online ticks latest_first [CallSearch "tone"] init in
  Forall (fun su => is_Some (content_cache st !! snd su)) (core_urls st) /\
  requests (snd (search_style_guide_live offline ticks "bias free" st))
    = requests st.
Proof.
  cbv zeta.
  assert (H : Forall
                (fun su =>
                   is_Some
                     (content_cache
                        (run_calls online ticks latest_first
                           [CallSearch "tone"] init) !! snd su))
                (core_urls
                   (run_calls online ticks latest_first
                      [CallSearch "tone"] init))).
  { vm_compute. repeat (apply List.Forall_cons; [eexists; reflexivity|]).
    apply List.Forall_nil. }
  split; [exact H|].
  apply (warm_search_is_offline offline ticks "bias free" _ H).
Defined.





(** Offsets count code points: the two bytes of the accented letter
    count once. *)
Example offsets_count_code_points :
  map (fun i => (i_type i, i_position i, i_text i))
    (local_issues "comprehensive"
       (Text.chars "Un café was reviewed by the guys."))
  = [("voice_tone", None, None);
     ("grammar", Some 8, Some "was reviewed");
     ("accessibility", Some 28, Some "guys")].
Proof. vm_compute. reflexivity. Qed.

(** A no-break space and an em space separate words as a blank does;
    the ellipsis character ends no sentence. *)
Example statistics_count_code_points :
  text_statistics (Text.chars "Click OK. Then wait… Done")
  = Statistics 5 2 2.5%float.
Proof. vm_compute. reflexivity. Qed.

(** A text of 93 characters in 113 bytes is its own preview. *)
Example preview_counts_code_points :
  match suggest_improvements offline ticks latest_first
          "“Style” guides say “keep it short”, “be warm”, and “write like you speak” — so we’ll try, OK?"
          "all" init with
  | (Ok v, _) =>
      v_text_preview v
      = "“Style” guides say “keep it short”, “be warm”, and “write like you speak” — so we’ll try, OK?"
  | _ => False
  end.
Proof. vm_compute. reflexivity. Qed.
